(** * fern-jest-client: the result mapper and the transport client

    A shallow embedding of [src/utils/mapper.ts] (tag extraction, status
    normalisation, failure messages, summary counts) and of
    [src/client/index.ts] (report, ping and the retry interceptor), with
    the properties of the specification proved about them; then of the
    rest of the mapper (suites and runs), of [src/config/index.ts],
    [src/utils/git.ts] and [src/reporter/index.ts], with further
    properties of the code.

    Conventions.
    - A JavaScript string is a [string]; one [ascii] stands for one UTF-16
      code unit below 256.
    - A JavaScript number that the code only counts with is a [Z] (ids,
      statuses, delays) or a [nat] (array lengths).
    - An array that is only pushed to is a [list] extended at its end.
    - A [Set<string>] is a [gset string]. *)

From Stdlib Require Import ZArith Ascii String List Lia Bool DecimalString.
From stdpp Require Import base list gmap strings.

(** ** Host string primitives *)

Module JS.

(** White space in the sense of [String.prototype.trim], restricted to
    code units below 256: TAB, LF, VT, FF, CR, SP and NBSP. *)
Definition is_white_space (c : ascii) : bool :=
  match c with
  | "009" | "010" | "011" | "012" | "013" | " " | "160" => true
  | _ => false
  end%char.

Fixpoint trimStart (s : string) : string :=
  match s with
  | String c r => if is_white_space c then trimStart r else s
  | EmptyString => EmptyString
  end.

Fixpoint trimEnd (s : string) : string :=
  match s with
  | EmptyString => EmptyString
  | String c r =>
      match trimEnd r with
      | EmptyString => if is_white_space c then EmptyString else String c EmptyString
      | r' => String c r'
      end
  end.

Definition trim (s : string) : string := trimEnd (trimStart s).

(** [s.split(sep)] for a one-character separator: always at least one
    piece, empty pieces kept. *)
Fixpoint split (sep : ascii) (s : string) : list string :=
  match s with
  | EmptyString => [EmptyString]
  | String c r =>
      if Ascii.eqb c sep then EmptyString :: split sep r
      else match split sep r with
           | h :: t => String c h :: t
           | [] => [String c EmptyString]
           end
  end.

(** [arr.join(sep)]. *)
Definition join (sep : string) (arr : list string) : string :=
  String.concat sep arr.

Definition newline : string := String "010"%char EmptyString.

(** A string is truthy when it is not empty. *)
Definition truthy (s : string) : bool :=
  match s with EmptyString => false | _ => true end.

(** Template interpolation of a non-negative integer. *)
Definition show_nat (n : nat) : string := NilEmpty.string_of_uint (Nat.to_uint n).

(** The result of one [RegExp.prototype.exec] call on a global pattern
    with one capture group.  The search starts at [lastIndex]; the model
    keeps the text from [lastIndex] on, so [m_index] counts from there and
    [m_rest] is the text from the new [lastIndex] on. *)
Record RegExpMatch := {
  m_index : nat;
  m_group : string;
  m_rest : string
}.

Definition later (m : RegExpMatch) : RegExpMatch :=
  {| m_index := S (m_index m); m_group := m_group m; m_rest := m_rest m |}.

(** The longest prefix of [s] whose characters satisfy [p], and what
    follows it: a greedy [[...]+] or [[...]*]. *)
Fixpoint span (p : ascii -> bool) (s : string) : string * string :=
  match s with
  | String c r =>
      if p c then (String c (span p r).1, (span p r).2) else (EmptyString, s)
  | EmptyString => (EmptyString, EmptyString)
  end.

(** [while ((m = pattern.exec(str)) !== null) body]: the loop state is the
    text from [lastIndex] on and whatever [body] updates.  Every match
    consumes a character, so [String.length str] rounds are enough. *)
Fixpoint while_exec {A : Type} (exec : string -> option RegExpMatch)
    (body : A -> RegExpMatch -> A) (fuel : nat) (rest : string) (acc : A) : A :=
  match fuel with
  | O => acc
  | S fuel' =>
      match exec rest with
      | None => acc
      | Some m => while_exec exec body fuel' (m_rest m) (body acc m)
      end
  end.

(** The successive matches of the same loop, each with the index in the
    whole string at which it starts, [pos] being the current [lastIndex]. *)
Fixpoint matches_from (exec : string -> option RegExpMatch)
    (fuel : nat) (pos : nat) (rest : string) : list (nat * string) :=
  match fuel with
  | O => []
  | S fuel' =>
      match exec rest with
      | None => []
      | Some m =>
          (pos + m_index m, m_group m)
            :: matches_from exec fuel'
                 (pos + (String.length rest - String.length (m_rest m))) (m_rest m)
      end
  end.

Definition matchAll (exec : string -> option RegExpMatch) (str : string)
  : list (nat * string) :=
  matches_from exec (String.length str) 0 str.

End JS.

(** ** The mapper *)

Module Mapper.

Import JS.

Record Tag := { tag_id : Z; tag_name : string }.

Record FailureDetail := { detail_message : string; detail_stack : option string }.

(** The fields of Jest's per-test result that the mapper reads.  [status]
    is a plain string: the normaliser has a default branch for values
    outside the declared union. *)
Record JestTestResult := {
  ancestorTitles : list string;
  duration : option Z;
  failureDetails : list FailureDetail;
  failureMessages : list string;
  status : string;
  title : string
}.

(** An ISO-8601 text is represented by the instant (epoch milliseconds)
    that [new Date(ms).toISOString()] renders. *)
Inductive IsoTime := ISO (ms : Z).

Record SpecRun := {
  spec_id : Z;
  spec_suite_id : Z;
  spec_description : string;
  spec_status : string;
  spec_message : string;
  spec_tags : list Tag;
  spec_start_time : IsoTime;
  spec_end_time : IsoTime
}.

Record SuiteRun := {
  suite_id : Z;
  suite_test_run_id : Z;
  suite_name : string;
  suite_start_time : IsoTime;
  suite_end_time : IsoTime;
  spec_runs : list SpecRun
}.

Record TestRun := {
  run_id : Z;
  test_project_name : string;
  test_project_id : string;
  test_seed : Z;
  run_start_time : IsoTime;
  run_end_time : IsoTime;
  git_branch : string;
  git_sha : string;
  build_trigger_actor : string;
  build_url : string;
  client_type : string;
  suite_runs : list SuiteRun
}.

(** [buildSpecDescription] *)
Definition buildSpecDescription (test : JestTestResult) : string :=
  let ancestors := join " > " (ancestorTitles test) in
  if truthy ancestors then ancestors +:+ " > " +:+ title test else title test.

(** [mapJestStatusToFernStatus] *)
Definition mapJestStatusToFernStatus (jestStatus : string) : string :=
  if String.eqb jestStatus "passed" then "passed"
  else if String.eqb jestStatus "failed" then "failed"
  else if String.eqb jestStatus "skipped" then "skipped"
  else if String.eqb jestStatus "pending" then "skipped"
  else if String.eqb jestStatus "disabled" then "skipped"
  else if String.eqb jestStatus "todo" then "pending"
  else "unknown".

(** [extractFailureMessage].  An array is truthy whatever its length, so
    [a && a.length > 0] is the test that [a] is not empty. *)
Definition extractFailureMessage (test : JestTestResult) : string :=
  if String.eqb (status test) "passed" then ""
  else if (0 <? length (failureMessages test))%nat then
    join newline (failureMessages test)
  else if (0 <? length (failureDetails test))%nat then
    join newline (map detail_message (failureDetails test))
  else if String.eqb (status test) "failed" then "Test failed" else "".

(** *** The three tag patterns *)

(** [[^\]]] *)
Definition not_close (c : ascii) : bool := negb (Ascii.eqb c "]").

(** [[a-zA-Z0-9_-]] *)
Definition is_tag_char (c : ascii) : bool :=
  let n := nat_of_ascii c in
  ((97 <=? n) && (n <=? 122)) || ((65 <=? n) && (n <=? 90))
  || ((48 <=? n) && (n <=? 57)) || (n =? 95) || (n =? 45).

(** [/\[([^\]]+)\]/g]: at the first [[] that is followed by one or more
    characters other than []] and then by []]. The greedy group stops only
    at a []] or at the end of the text, so giving characters back never
    helps and a failed start moves the search one character on. *)
Fixpoint bracketPattern_exec (s : string) : option RegExpMatch :=
  match s with
  | EmptyString => None
  | String c r =>
      if Ascii.eqb c "[" then
        match span not_close r with
        | (String g gs, String _ rest) =>
            Some {| m_index := 0; m_group := String g gs; m_rest := rest |}
        | _ => later <$> bracketPattern_exec r
        end
      else later <$> bracketPattern_exec r
  end.

(** A sigil followed by one or more tag characters, the group being the
    longest such run. *)
Fixpoint sigil_exec (sigil : ascii) (s : string) : option RegExpMatch :=
  match s with
  | EmptyString => None
  | String c r =>
      if Ascii.eqb c sigil then
        match span is_tag_char r with
        | (String g gs, rest) =>
            Some {| m_index := 0; m_group := String g gs; m_rest := rest |}
        | _ => later <$> sigil_exec sigil r
        end
      else later <$> sigil_exec sigil r
  end.

(** [/@([a-zA-Z0-9_-]+)/g] *)
Definition atPattern_exec : string -> option RegExpMatch := sigil_exec "@".

(** [/#([a-zA-Z0-9_-]+)/g] *)
Definition hashPattern_exec : string -> option RegExpMatch := sigil_exec "#".

Definition push {A : Type} (arr : list A) (x : A) : list A := arr ++ [x].

(** The body of the bracket loop: split the group at commas, trim each
    piece, push the pieces that are not empty. *)
Definition bracket_body (tags : list Tag) (bracketMatch : RegExpMatch) : list Tag :=
  let tagNames := map trim (split "," (m_group bracketMatch)) in
  foldl (fun tags name =>
           if truthy name then push tags {| tag_id := 0; tag_name := name |} else tags)
        tags tagNames.

Definition sigil_body (tags : list Tag) (m : RegExpMatch) : list Tag :=
  push tags {| tag_id := 0; tag_name := m_group m |}.

(** [extractTagsFromString] *)
Definition extractTagsFromString (str : string) : list Tag :=
  let tags := [] in
  let tags := while_exec bracketPattern_exec bracket_body (String.length str) str tags in
  let tags := while_exec atPattern_exec sigil_body (String.length str) str tags in
  let tags := while_exec hashPattern_exec sigil_body (String.length str) str tags in
  tags.

(** The state of the deduplication loop of [extractTagsFromTest]. *)
Record Dedup := {
  uniqueTagNames : gset string;
  uniqueTags : list Tag;
  tagId : Z
}.

Definition dedup_step (st : Dedup) (tag : Tag) : Dedup :=
  if decide (tag_name tag ∈ uniqueTagNames st) then st
  else {| uniqueTagNames := {[ tag_name tag ]} ∪ uniqueTagNames st;
          uniqueTags := push (uniqueTags st) {| tag_id := tagId st; tag_name := tag_name tag |};
          tagId := tagId st + 1 |}.

(** The candidate tags of a test before the default and the
    deduplication: those of the title, then those of each ancestor. *)
Definition collectTags (test : JestTestResult) : list Tag :=
  let tags := [] in
  let tags := tags ++ extractTagsFromString (title test) in
  foldl (fun tags ancestor => tags ++ extractTagsFromString ancestor)
        tags (ancestorTitles test).

(** [extractTagsFromTest].  [tagId] is one counter: the default tag takes
    a value from it, and so does every tag the last loop keeps. *)
Definition extractTagsFromTest (test : JestTestResult) : list Tag :=
  let tagId0 := 1%Z in
  let tags := collectTags test in
  let '(tags, tagId1) :=
    if (length tags =? 0)%nat
    then (push tags {| tag_id := tagId0; tag_name := "default" |}, (tagId0 + 1)%Z)
    else (tags, tagId0) in
  uniqueTags
    (foldl dedup_step
           {| uniqueTagNames := ∅; uniqueTags := []; tagId := tagId1 |} tags).

(** [mapJestTestToSpecRun] *)
Definition mapJestTestToSpecRun (test : JestTestResult)
    (suiteStartTime suiteId specId : Z) : SpecRun :=
  let specDescription := buildSpecDescription test in
  let status := mapJestStatusToFernStatus (status test) in
  let message := extractFailureMessage test in
  let tags := extractTagsFromTest test in
  let testDuration := default 0%Z (duration test) in
  {| spec_id := specId;
     spec_suite_id := suiteId;
     spec_description := specDescription;
     spec_status := status;
     spec_message := message;
     spec_tags := tags;
     spec_start_time := ISO suiteStartTime;
     spec_end_time := ISO (suiteStartTime + testDuration) |}.

(** *** The summary *)

Definition count_status (st : string) (specs : list SpecRun) : nat :=
  length (List.filter (fun spec => String.eqb (spec_status spec) st) specs).

Definition totalSpecs (testRun : TestRun) : nat :=
  foldl (fun sum suite => sum + length (spec_runs suite)) 0 (suite_runs testRun).

Definition passedSpecs (testRun : TestRun) : nat :=
  foldl (fun sum suite => sum + count_status "passed" (spec_runs suite)) 0
        (suite_runs testRun).

Definition failedSpecs (testRun : TestRun) : nat :=
  foldl (fun sum suite => sum + count_status "failed" (spec_runs suite)) 0
        (suite_runs testRun).

Definition skippedSpecs (testRun : TestRun) : nat :=
  foldl (fun sum suite => sum + count_status "skipped" (spec_runs suite)) 0
        (suite_runs testRun).

(** The last line of the summary. *)
Definition tests_line (total passed failed skipped : nat) : string :=
  "  Tests: " +:+ show_nat total +:+ " total, " +:+ show_nat passed +:+ " passed, "
  +:+ show_nat failed +:+ " failed, " +:+ show_nat skipped +:+ " skipped".

(** [generateTestSummary] *)
Definition generateTestSummary (testRun : TestRun) : string :=
  join newline
    [ "Fern Test Run Summary:";
      "  Project: " +:+ test_project_id testRun;
      "  Branch: " +:+ git_branch testRun;
      "  Commit: " +:+ substring 0 8 (git_sha testRun);
      "  Suites: " +:+ show_nat (length (suite_runs testRun));
      tests_line (totalSpecs testRun) (passedSpecs testRun)
                 (failedSpecs testRun) (skippedSpecs testRun) ].

(** *** Test values *)

Definition a_test (st : string) (messages : list string)
    (details : list FailureDetail) (t : string) (ancestors : list string)
  : JestTestResult :=
  {| ancestorTitles := ancestors; duration := None; failureDetails := details;
     failureMessages := messages; status := st; title := t |}.

(** [mockJestTest] of [tests/unit/mapper.test.ts]. *)
Definition mockJestTest : JestTestResult :=
  {| ancestorTitles := ["Math operations"; "Addition"];
     duration := Some 50%Z;
     failureDetails := [];
     failureMessages := [];
     status := "passed";
     title := "should add two numbers" |}.

(** A skipped test that carries a failure message. *)
Definition skipped_with_message : JestTestResult :=
  a_test "skipped" ["E"] [] "waits for the fix" ["Queue"].

(** A run with a passed, a skipped, a todo and an unrecognised test, as
    the mapper builds its SpecRuns. *)
Definition run_with_todo : TestRun :=
  {| run_id := 1;
     test_project_name := "Test Project";
     test_project_id := "test-project";
     test_seed := 1;
     run_start_time := ISO 0;
     run_end_time := ISO 1;
     git_branch := "main";
     git_sha := "abc123def456";
     build_trigger_actor := "test-user";
     build_url := "";
     client_type := "fern-jest-client";
     suite_runs :=
       [ {| suite_id := 1; suite_test_run_id := 1; suite_name := "calculator";
            suite_start_time := ISO 0; suite_end_time := ISO 1;
            spec_runs :=
              [ mapJestTestToSpecRun (a_test "passed" [] [] "adds" []) 0 1 1;
                mapJestTestToSpecRun (a_test "todo" [] [] "divides" []) 0 1 2 ] |};
         {| suite_id := 2; suite_test_run_id := 1; suite_name := "util";
            suite_start_time := ISO 0; suite_end_time := ISO 1;
            spec_runs :=
              [ mapJestTestToSpecRun (a_test "disabled" [] [] "trims" []) 0 2 1;
                mapJestTestToSpecRun (a_test "running" [] [] "pads" []) 0 2 2 ] |} ] |}.

End Mapper.

(** ** The transport client *)

Module Client.

Import JS.

(** [DEFAULT_CONFIG] of [src/config/index.ts]. *)
Definition BASE_URL : string := "http://localhost:8080".
Definition TIMEOUT : Z := 30000.
Definition RETRIES : Z := 3.
Definition RETRY_DELAY : Z := 1000.
Definition API_ENDPOINT : string := "/api/v1/test-runs".

Record FernClientOptions := {
  opt_baseUrl : option string;
  opt_timeout : option Z;
  opt_retries : option Z;
  opt_retryDelay : option Z
}.

(** [a || b] on an optional number: [undefined] and [0] are falsy. *)
Definition or_number (a : option Z) (b : Z) : Z :=
  match a with
  | Some v => if (v =? 0)%Z then b else v
  | None => b
  end.

(** [a || b] on an optional string: [undefined] and the empty string are
    falsy. *)
Definition or_string (a : option string) (b : string) : string :=
  match a with
  | Some v => if truthy v then v else b
  | None => b
  end.

(** The body of a response, as far as the client reads it: its [id]. *)
Record ResponseData := { data_id : option string }.

Record AxiosResponse := {
  resp_status : Z;
  resp_statusText : string;
  resp_data : option ResponseData
}.

(** The request configuration; [retryCount] is the [__retryCount]
    property the interceptor adds, absent on a fresh request. *)
Record RequestConfig := {
  cfg_method : string;
  cfg_url : string;
  retryCount : option Z
}.

Record AxiosError := {
  err_config : option RequestConfig;
  err_response : option AxiosResponse;
  err_request : bool;
  err_code : option string;
  err_message : string
}.

Inductive Promise (A : Type) : Type :=
  | Resolved (a : A)
  | Rejected (error : AxiosError).
Arguments Resolved {A} a.
Arguments Rejected {A} error.

(** What one attempt meets on the wire: a response with some status, or
    no response at all (refused, reset, unresolved host, timed out), with
    the code and message of the failure. *)
Inductive Wire :=
  | Answer (response : AxiosResponse)
  | Failure (code : option string) (message : string).

(** The transport the client sits on, as a test double: the outcome of
    the n-th attempt, counting all attempts from 0. *)
Definition Transport : Type := nat → Wire.

Inductive ConsoleLine :=
  | LogReported (status : Z)
  | LogProject (name id : string)
  | LogSeed (seed : Z)
  | LogBranch (branch : string)
  | LogSuites (n : nat)
  | LogRunId (id : string)
  | WarnUnexpectedStatus (status : Z)
  | ErrorResponse (status : Z) (statusText : string)
  | ErrorResponseData (data : ResponseData)
  | ErrorUnreachable (message : string)
  | ErrorUrl (url : string)
  | ErrorSetup (message : string)
  | LogRetry (attempt retries : Z)
  | WarnHealthCheck (error : AxiosError).

(** What the client does to the outside: the attempts issued so far, the
    delays waited, and the console. *)
Record World := {
  calls : nat;
  sleeps : list Z;
  console : list ConsoleLine
}.

Definition called (w : World) : World :=
  {| calls := S (calls w); sleeps := sleeps w; console := console w |}.
Definition slept (ms : Z) (w : World) : World :=
  {| calls := calls w; sleeps := sleeps w ++ [ms]; console := console w |}.
Definition printed (lines : list ConsoleLine) (w : World) : World :=
  {| calls := calls w; sleeps := sleeps w; console := console w ++ lines |}.

(** An asynchronous computation; [None] when the model ran out of fuel. *)
Definition Async (A : Type) : Type := World → option (Promise A * World).

Definition in_range (lo hi status : Z) : bool :=
  ((lo <=? status) && (status <? hi))%Z.

(** The axios library is a dependency, not part of the repository. One
    attempt is taken from its documented behaviour with the default
    [validateStatus]: a response with a status in [200,300) resolves; any
    other response rejects with an error that carries the response and
    the code [ERR_BAD_REQUEST] (4xx) or [ERR_BAD_RESPONSE] (5xx); no
    response rejects with an error that carries the request, no response
    and the failure's code. Every such error carries the configuration of
    the attempt. *)
Definition attempt (transport : Transport) (config : RequestConfig) (w : World)
  : Promise AxiosResponse * World :=
  match transport (calls w) with
  | Answer response =>
      if in_range 200 300 (resp_status response) then (Resolved response, called w)
      else
        (Rejected {| err_config := Some config;
                     err_response := Some response;
                     err_request := true;
                     err_code :=
                       if in_range 400 500 (resp_status response)
                       then Some "ERR_BAD_REQUEST"
                       else if in_range 500 600 (resp_status response)
                       then Some "ERR_BAD_RESPONSE" else None;
                     err_message :=
                       "Request failed with status code "
                       +:+ show_nat (Z.to_nat (resp_status response)) |},
         called w)
  | Failure code message =>
      (Rejected {| err_config := Some config;
                   err_response := None;
                   err_request := true;
                   err_code := code;
                   err_message := message |},
       called w)
  end.

(** [config.__retryCount >= retries]: false while the property is
    [undefined]. *)
Definition count_reached (count : option Z) (retries : Z) : bool :=
  match count with
  | Some c => (retries <=? c)%Z
  | None => false
  end.

Definition code_is (error : AxiosError) (code : string) : bool :=
  match err_code error with
  | Some c => String.eqb c code
  | None => false
  end.

(** The condition of the [if] in the interceptor. *)
Definition should_retry (error : AxiosError) : bool :=
  match err_response error with
  | None => true
  | Some response =>
      in_range 500 600 (resp_status response)
      || code_is error "ECONNABORTED"
      || code_is error "ENOTFOUND"
      || code_is error "ECONNRESET"
      || code_is error "ECONNREFUSED"
  end.

(** The rejection handler installed by [setupRetryInterceptor];
    [httpClient] is the client itself, called again with the
    configuration of the failed attempt. The counter is written into the
    configuration object the error holds, so the error passed on carries
    the new count. *)
Definition retryInterceptor (retries retryDelay : Z)
    (httpClient : RequestConfig → Async AxiosResponse)
    (error : AxiosError) : Async AxiosResponse :=
  λ w,
    match err_config error with
    | None => Some (Rejected error, w)
    | Some config =>
        if count_reached (retryCount config) retries then Some (Rejected error, w)
        else
          let count := (default 0 (retryCount config) + 1)%Z in
          let config := {| cfg_method := cfg_method config;
                           cfg_url := cfg_url config;
                           retryCount := Some count |} in
          let error := {| err_config := Some config;
                          err_response := err_response error;
                          err_request := err_request error;
                          err_code := err_code error;
                          err_message := err_message error |} in
          if should_retry error then
            httpClient config
              (slept (retryDelay * count) (printed [LogRetry count retries] w))
          else Some (Rejected error, w)
    end.

(** [this.httpClient(config)]: one attempt, then the response
    interceptors: a response passes unchanged, an error goes to
    [retryInterceptor]. The configuration handed to a retry keeps the
    counter the interceptor wrote (axios merges unknown properties of a
    request configuration into the configuration of the request). *)
Fixpoint httpClient (fuel : nat) (transport : Transport) (retries retryDelay : Z)
    (config : RequestConfig) : Async AxiosResponse :=
  match fuel with
  | O => λ _, None
  | S fuel' =>
      λ w,
        match attempt transport config w with
        | (Resolved response, w') => Some (Resolved response, w')
        | (Rejected error, w') =>
            retryInterceptor retries retryDelay
              (httpClient fuel' transport retries retryDelay) error w'
        end
  end.

Record FernApiClient := {
  projectId : string;
  baseUrl : string;
  client_timeout : Z;
  client_retries : Z;
  client_retryDelay : Z;
  transport : Transport
}.

(** The constructor, reached through [createFernClient]. The fixed and
    the caller's headers play no part in what follows and are left out. *)
Definition createFernClient (project : string) (options : FernClientOptions)
    (transport : Transport) : FernApiClient :=
  {| projectId := project;
     baseUrl := or_string (opt_baseUrl options) BASE_URL;
     client_timeout := or_number (opt_timeout options) TIMEOUT;
     client_retries := or_number (opt_retries options) RETRIES;
     client_retryDelay := or_number (opt_retryDelay options) RETRY_DELAY;
     transport := transport |}.

Definition post_config : RequestConfig :=
  {| cfg_method := "post"; cfg_url := API_ENDPOINT; retryCount := None |}.

Definition get_config : RequestConfig :=
  {| cfg_method := "get"; cfg_url := "/api/v1/health"; retryCount := None |}.

Definition send (fuel : nat) (client : FernApiClient) (config : RequestConfig)
  : Async AxiosResponse :=
  httpClient fuel (transport client) (client_retries client)
    (client_retryDelay client) config.

(** The lines [report] prints for an error before it throws it again.
    Every error of the model is an axios error. *)
Definition error_lines (client : FernApiClient) (error : AxiosError)
  : list ConsoleLine :=
  match err_response error with
  | Some response =>
      ErrorResponse (resp_status response) (resp_statusText response)
        :: match resp_data response with
           | Some data => [ErrorResponseData data]
           | None => []
           end
  | None =>
      if err_request error
      then [ErrorUnreachable (err_message error);
            ErrorUrl (baseUrl client +:+ API_ENDPOINT)]
      else [ErrorSetup (err_message error)]
  end.

(** [report] *)
Definition report (fuel : nat) (client : FernApiClient)
    (createInput : Mapper.TestRun) : Async unit :=
  λ w,
    match send fuel client post_config w with
    | None => None
    | Some (Resolved response, w') =>
        if in_range 200 300 (resp_status response) then
          Some (Resolved (),
                printed
                  ([ LogReported (resp_status response);
                     LogProject (Mapper.test_project_name createInput)
                                (Mapper.test_project_id createInput);
                     LogSeed (Mapper.test_seed createInput);
                     LogBranch (Mapper.git_branch createInput);
                     LogSuites (length (Mapper.suite_runs createInput)) ]
                   ++ match resp_data response ≫= data_id with
                      | Some id => if truthy id then [LogRunId id] else []
                      | None => []
                      end) w')
        else Some (Resolved (), printed [WarnUnexpectedStatus (resp_status response)] w')
    | Some (Rejected error, w') =>
        Some (Rejected error, printed (error_lines client error) w')
    end.

(** [ping] *)
Definition ping (fuel : nat) (client : FernApiClient) : Async bool :=
  λ w,
    match send fuel client get_config w with
    | None => None
    | Some (Resolved response, w') =>
        Some (Resolved (in_range 200 300 (resp_status response)), w')
    | Some (Rejected error, w') =>
        Some (Resolved false, printed [WarnHealthCheck error] w')
    end.

(** *** Test values *)

Definition fresh : World := {| calls := 0; sleeps := []; console := [] |}.

Definition response_of (status : Z) : AxiosResponse :=
  {| resp_status := status; resp_statusText := ""; resp_data := None |}.

Definition no_options : FernClientOptions :=
  {| opt_baseUrl := None; opt_timeout := None; opt_retries := None;
     opt_retryDelay := None |}.

(** HTTP 404 on every attempt. *)
Definition always_404 : Transport := λ _, Answer (response_of 404).

(** A network error twice, then HTTP 201. *)
Definition fails_twice : Transport :=
  λ n, if (n <? 2)%nat then Failure (Some "ECONNREFUSED") "connect ECONNREFUSED"
       else Answer (response_of 201).

(** No response on any attempt. *)
Definition unreachable : Transport :=
  λ _, Failure (Some "ENOTFOUND") "getaddrinfo ENOTFOUND".

End Client.

(** ** Notions used to state the properties *)

Module MapperSpec.

Import JS Mapper.

(** *** Deduplication *)

(** Following the specification's words: keep the first occurrence of
    every name, drop the later ones.  [seen] holds the names already
    kept. *)
Fixpoint keep_first (seen : gset string) (names : list string) : list string :=
  match names with
  | [] => []
  | x :: rest =>
      if decide (x ∈ seen) then keep_first seen rest
      else x :: keep_first ({[ x ]} ∪ seen) rest
  end.

Definition first_occurrences (names : list string) : list string :=
  keep_first ∅ names.

(** *** Candidates *)

Definition candidate (name : string) : Tag := {| tag_id := 0; tag_name := name |}.

(** The names a bracket group contributes. *)
Definition bracket_names_of (g : string) : list string :=
  List.filter truthy (map trim (split "," g)).

Definition bracket_names (str : string) : list string :=
  flat_map (λ im, bracket_names_of im.2) (matchAll bracketPattern_exec str).

Definition at_names (str : string) : list string :=
  map snd (matchAll atPattern_exec str).

Definition hash_names (str : string) : list string :=
  map snd (matchAll hashPattern_exec str).

(** *** Occurrences *)

(** The characters of a string. *)
Definition chars (s : string) : list ascii := list_ascii_of_string s.

(** The text a match with group [g] covers. *)
Definition bracket_shape (g : string) : string := String "[" (g +:+ "]").

Definition sigil_shape (sigil : ascii) (g : string) : string := String sigil g.

(** The group of the bracket pattern: one or more characters other than
    the closing bracket. *)
Definition bracket_group (g : string) : Prop :=
  g ≠ "" ∧ ∀ x, x ∈ chars g → not_close x = true.

(** The group of the at and hash patterns: one or more tag characters. *)
Definition tag_word (g : string) : Prop :=
  g ≠ "" ∧ ∀ x, x ∈ chars g → is_tag_char x = true.

(** The pattern with groups [ok] occurs in [s] at index [i] with group
    [g]. *)
Definition occurs_at (shape : string → string) (ok : string → Prop)
    (s : string) (i : nat) (g : string) : Prop :=
  ok g ∧ ∃ pre rest, s = pre +:+ (shape g +:+ rest) ∧ String.length pre = i.

(** What a search of [s] from its start has to return: the leftmost
    occurrence of the pattern with what follows it, or nothing when the
    pattern does not occur. *)
Definition leftmost_match (shape : string → string) (ok : string → Prop)
    (s : string) (o : option RegExpMatch) : Prop :=
  match o with
  | Some m =>
      ok (m_group m)
      ∧ (∃ pre, s = pre +:+ (shape (m_group m) +:+ m_rest m)
                ∧ String.length pre = m_index m)
      ∧ ∀ i g, occurs_at shape ok s i g → m_index m ≤ i
  | None => ∀ i g, ¬ occurs_at shape ok s i g
  end.

(** A list of matches is left to right in [str]: each entry is an
    occurrence of the pattern at its index, every later entry starts at
    or after the end of every earlier one, and every occurrence of the
    pattern in [str] starts inside an entry. *)
Definition left_to_right (shape : string → string) (ok : string → Prop)
    (str : string) (l : list (nat * string)) : Prop :=
  (∀ i g, (i, g) ∈ l → occurs_at shape ok str i g)
  ∧ (∀ j k i1 g1 i2 g2, j < k → l !! j = Some (i1, g1) → l !! k = Some (i2, g2) →
       i1 + String.length (shape g1) ≤ i2)
  ∧ (∀ i g, occurs_at shape ok str i g →
       ∃ i1 g1, (i1, g1) ∈ l ∧ i1 ≤ i < i1 + String.length (shape g1)).

(** A string without a bracket group, an at-mention or a hash-mention. *)
Definition no_marker (str : string) : Prop :=
  (∀ i g, ¬ occurs_at bracket_shape bracket_group str i g)
  ∧ (∀ i g, ¬ occurs_at (sigil_shape "@") tag_word str i g)
  ∧ (∀ i g, ¬ occurs_at (sigil_shape "#") tag_word str i g).

(** *** Summary *)

(** All SpecRuns of a run, suite after suite. *)
Definition all_specs (testRun : TestRun) : list SpecRun :=
  flat_map spec_runs (suite_runs testRun).

(** A SpecRun that none of the three listed counts includes. *)
Definition uncounted (spec : SpecRun) : bool :=
  negb (String.eqb (spec_status spec) "passed")
  && negb (String.eqb (spec_status spec) "failed")
  && negb (String.eqb (spec_status spec) "skipped").

End MapperSpec.

Module ClientSpec.

Import Client.

(** The attempts a request may still need: one, and one more for every
    retry the counter still allows. *)
Definition budget (retries : Z) (config : RequestConfig) : nat :=
  match retryCount config with
  | None => Z.to_nat (retries - 1) + 2
  | Some c => Z.to_nat (retries - c) + 1
  end.

End ClientSpec.

(** ** The rest of the mapper: suites and runs *)

Module Suites.

Import JS Mapper.

(** *** Instants *)

(** The largest time value of a [Date], in milliseconds either side of
    the epoch. *)
Definition MAX_TIME_VALUE : Z := 8640000000000000.

Definition valid_time (ms : Z) : bool :=
  ((- MAX_TIME_VALUE <=? ms) && (ms <=? MAX_TIME_VALUE))%Z.

(** [new Date(ms).toISOString()]: a [RangeError] ([None]) when the time
    value is outside the range of [Date]. *)
Definition toISOString (ms : Z) : option IsoTime :=
  if valid_time ms then Some (ISO ms) else None.

(** A computation that reads the wall clock and may throw: the state is
    the number of readings taken so far, [None] is a thrown
    [RangeError]. The clock itself is the value of each reading in
    turn. *)
Definition Timed (A : Type) : Type := nat → option (A * nat).

Definition ret {A : Type} (a : A) : Timed A := λ n, Some (a, n).

Definition bind {A B : Type} (m : Timed A) (k : A → Timed B) : Timed B :=
  λ n, match m n with
       | Some (a, n') => k a n'
       | None => None
       end.

Definition throwing {A : Type} (o : option A) : Timed A :=
  λ n, match o with
       | Some a => Some (a, n)
       | None => None
       end.

(** [Date.now()], and the time value of [new Date()]. *)
Definition Date_now (clock : nat → Z) : Timed Z := λ n, Some (clock n, S n).

(** A number that is truthy: neither [undefined] nor [0]. *)
Definition truthy_number (t : option Z) : option Z :=
  match t with
  | Some v => if (v =? 0)%Z then None else Some v
  | None => None
  end.

(** *** Jest's results and the providers' values *)

Record JestTestSuiteResult := {
  testFilePath : string;
  suite_startTime : option Z;
  suite_endTime : option Z;
  testResults : list JestTestResult
}.

Record JestAggregatedResult := {
  agg_startTime : Z;
  agg_testResults : list JestTestSuiteResult
}.

Record GitInfo := {
  branch : string;
  sha : string;
  repoPath : option string
}.

Record CIInfo := {
  actor : string;
  buildUrl : string;
  isCI : bool;
  provider : option string
}.

(** *** Suite names *)

(** The file name suffixes [/\.(test|spec)\.(js|ts|jsx|tsx)$/] matches. *)
Definition test_suffixes : list string :=
  [ ".test.js"; ".test.ts"; ".test.jsx"; ".test.tsx";
    ".spec.js"; ".spec.ts"; ".spec.jsx"; ".spec.tsx" ].

(** [fileName.replace(/\.(test|spec)\.(js|ts|jsx|tsx)$/, '')]: the
    search tries every start from the left; the pattern matches at a
    start when the text from there to the end is one of the suffixes,
    and the match is removed. *)
Fixpoint replace_test_suffix (s : string) : string :=
  if existsb (String.eqb s) test_suffixes then EmptyString
  else match s with
       | EmptyString => EmptyString
       | String c r => String c (replace_test_suffix r)
       end.

(** [filePath.split('/').pop()] *)
Definition last_segment (filePath : string) : string :=
  List.last (split "/" filePath) EmptyString.

(** [extractSuiteName] *)
Definition extractSuiteName (filePath : string) : string :=
  let fileName :=
    if truthy (last_segment filePath) then last_segment filePath else filePath in
  replace_test_suffix fileName.

(** *** Tests, suites, runs *)

(** What a call of [mapJestTestToSpecRun] comes to: its value, or
    nothing when one of its two [toISOString] calls throws. *)
Definition mapJestTestToSpecRun_call (test : JestTestResult)
    (suiteStartTime suiteId specId : Z) : option SpecRun :=
  match toISOString suiteStartTime,
        toISOString (suiteStartTime + default 0%Z (duration test)) with
  | Some _, Some _ =>
      Some (mapJestTestToSpecRun test suiteStartTime suiteId specId)
  | _, _ => None
  end.

(** [cond ? new Date(cond).toISOString() : new Date().toISOString()] *)
Definition instant_or_now (clock : nat → Z) (t : option Z) : Timed IsoTime :=
  match truthy_number t with
  | Some v => throwing (toISOString v)
  | None => bind (Date_now clock) (λ ms, throwing (toISOString ms))
  end.

(** [suite.startTime || Date.now()] *)
Definition start_or_now (clock : nat → Z) (t : option Z) : Timed Z :=
  match truthy_number t with
  | Some v => ret v
  | None => Date_now clock
  end.

(** [suite.testResults.map((test, index) => ...)], [index] being the
    position of the head of [tests]. *)
Fixpoint map_tests (clock : nat → Z) (suiteStart : option Z) (suiteId : Z)
    (index : Z) (tests : list JestTestResult) : Timed (list SpecRun) :=
  match tests with
  | [] => ret []
  | test :: rest =>
      bind (start_or_now clock suiteStart) (λ start,
      bind (throwing (mapJestTestToSpecRun_call test start suiteId (index + 1)%Z))
        (λ spec,
      bind (map_tests clock suiteStart suiteId (index + 1)%Z rest) (λ specs,
      ret (spec :: specs))))
  end.

(** [mapJestSuiteToSuiteRun] *)
Definition mapJestSuiteToSuiteRun (clock : nat → Z) (suite : JestTestSuiteResult)
    (testRunId suiteId : Z) : Timed SuiteRun :=
  let suiteName := extractSuiteName (testFilePath suite) in
  bind (instant_or_now clock (suite_startTime suite)) (λ startTime,
  bind (instant_or_now clock (suite_endTime suite)) (λ endTime,
  bind (map_tests clock (suite_startTime suite) suiteId 0 (testResults suite))
    (λ specRuns,
  ret {| suite_id := suiteId;
         suite_test_run_id := testRunId;
         suite_name := suiteName;
         suite_start_time := startTime;
         suite_end_time := endTime;
         spec_runs := specRuns |}))).

(** [results.testResults.map((suite, index) => ...)] *)
Fixpoint map_suites (clock : nat → Z) (testRunId : Z) (index : Z)
    (suites : list JestTestSuiteResult) : Timed (list SuiteRun) :=
  match suites with
  | [] => ret []
  | suite :: rest =>
      bind (mapJestSuiteToSuiteRun clock suite testRunId (index + 1)%Z) (λ run,
      bind (map_suites clock testRunId (index + 1)%Z rest) (λ runs,
      ret (run :: runs)))
  end.

(** [mapJestResultsToTestRun]. The seed is computed in floating point
    from [Date.now()] and the low digits of [process.hrtime.bigint()];
    [seed_number] stands for that computation and [hrtime] for the
    reading of the high-resolution clock. *)
Definition mapJestResultsToTestRun (clock : nat → Z) (hrtime : Z)
    (seed_number : Z → Z → Z) (results : JestAggregatedResult)
    (projectId projectName : string) (gitInfo : GitInfo) (ciInfo : CIInfo)
  : Timed TestRun :=
  bind (throwing (toISOString (agg_startTime results))) (λ startTime,
  bind (Date_now clock) (λ nowEnd,
  bind (throwing (toISOString nowEnd)) (λ endTime,
  let nanoTime := Z.rem hrtime 1000000 in
  bind (Date_now clock) (λ nowSeed,
  let testSeed := seed_number nowSeed nanoTime in
  let testRunId := testSeed in
  bind (map_suites clock testRunId 0 (agg_testResults results)) (λ suiteRuns,
  ret {| run_id := testRunId;
         test_project_name := projectName;
         test_project_id := projectId;
         test_seed := testSeed;
         run_start_time := startTime;
         run_end_time := endTime;
         git_branch := branch gitInfo;
         git_sha := sha gitInfo;
         build_trigger_actor := actor ciInfo;
         build_url := buildUrl ciInfo;
         client_type := "fern-jest-client";
         suite_runs := suiteRuns |}))))).

(** [mapTestRunToCreateInput] *)
Definition mapTestRunToCreateInput (testRun : TestRun) : TestRun := testRun.

(** *** Test values *)

(** A clock that advances by one millisecond at every reading. *)
Definition ticking : nat → Z := λ n, (1700000000000 + Z.of_nat n)%Z.

(** A stand-in for the seed computation in the examples: the same
    expression in exact arithmetic. *)
Definition exact_seed : Z → Z → Z := λ ms nano, (ms * 1000000 + nano)%Z.

(** [mockJestSuite] of [tests/unit/mapper.test.ts], with fixed instants. *)
Definition mockJestSuite : JestTestSuiteResult :=
  {| testFilePath := "/path/to/tests/calculator.test.ts";
     suite_startTime := Some 1699999999900%Z;
     suite_endTime := Some 1700000000000%Z;
     testResults :=
       [ {| ancestorTitles := ["Calculator"]; duration := Some 25%Z;
            failureDetails := []; failureMessages := [];
            status := "passed"; title := "should add numbers" |};
         {| ancestorTitles := ["Calculator"]; duration := Some 30%Z;
            failureDetails := []; failureMessages := ["Division by zero error"];
            status := "failed"; title := "should handle division by zero" |} ] |}.

(** The same suite without its start instant. *)
Definition suite_without_start : JestTestSuiteResult :=
  {| testFilePath := testFilePath mockJestSuite;
     suite_startTime := None;
     suite_endTime := suite_endTime mockJestSuite;
     testResults := testResults mockJestSuite |}.

(** The same suite, started later than any [Date] can hold. *)
Definition suite_out_of_range : JestTestSuiteResult :=
  {| testFilePath := testFilePath mockJestSuite;
     suite_startTime := Some (MAX_TIME_VALUE + 1)%Z;
     suite_endTime := suite_endTime mockJestSuite;
     testResults := testResults mockJestSuite |}.

Definition mockGitInfo : GitInfo :=
  {| branch := "main"; sha := "abc123def456"; repoPath := Some "/path/to/repo" |}.

Definition mockCIInfo : CIInfo :=
  {| actor := "test-user";
     buildUrl := "https://github.com/test/repo/actions/runs/123";
     isCI := true;
     provider := Some "github-actions" |}.

Definition mockAggregatedResult : JestAggregatedResult :=
  {| agg_startTime := 1699999999000%Z;
     agg_testResults := [mockJestSuite; suite_without_start] |}.

End Suites.


Module SuitesSpec.

Import JS Mapper Suites.

(** A text ends in a test suffix. *)
Definition has_test_suffix (s : string) : Prop :=
  ∃ name suffix, suffix ∈ test_suffixes ∧ s = name +:+ suffix.

(** The clock readings an optional instant costs: none when it is
    truthy, one when the clock stands in for it. *)
Definition reads_for (t : option Z) : nat :=
  match truthy_number t with
  | Some _ => 0
  | None => 1
  end.

(** The start instant of the test at position [i] of a suite whose specs
    are mapped from clock reading [n] on. *)
Definition spec_start (clock : nat → Z) (suiteStart : option Z) (n i : nat) : Z :=
  match truthy_number suiteStart with
  | Some v => v
  | None => clock (n + i)
  end.

(** All tests of an aggregated result, suite after suite. *)
Definition all_tests (results : JestAggregatedResult) : list JestTestResult :=
  flat_map testResults (agg_testResults results).

(** The number of tests whose Jest status is one of [statuses]. *)
Definition count_jest (statuses : list string) (tests : list JestTestResult) : nat :=
  length (List.filter (λ test, existsb (String.eqb (status test)) statuses) tests).

(** A tag name as the extractor hands it out: not empty, free of commas
    and closing brackets, and with no white space at either end. *)
Definition clean_name (name : string) : Prop :=
  name ≠ ""
  ∧ (∀ x, x ∈ MapperSpec.chars name → x ≠ ","%char ∧ x ≠ "]"%char)
  ∧ (∀ c r, name = String c r → is_white_space c = false)
  ∧ (∀ p c, name = p +:+ String c "" → is_white_space c = false).

(** A text made of white space and commas only. *)
Definition blank (g : string) : Prop :=
  ∀ x, x ∈ MapperSpec.chars g → is_white_space x = true ∨ x = ","%char.

End SuitesSpec.

(** ** More transports for the examples *)

Module Transports.

Import Client.

(** HTTP 503 once, then HTTP 200. *)
Definition server_recovers : Transport :=
  λ n, if (n <? 1)%nat then Answer (response_of 503) else Answer (response_of 200).

(** No response once, then HTTP 304. *)
Definition redirected_later : Transport :=
  λ n, if (n <? 1)%nat then Failure (Some "ECONNRESET") "socket hang up"
       else Answer (response_of 304).

End Transports.

(** ** Notions for the retry protocol *)

Module RetrySpec.

Import JS Client.

(** What an attempt meets makes the interceptor try again: no response,
    or a response with a status in [500,600). *)
Definition retryable (wire : Wire) : bool :=
  match wire with
  | Answer response => in_range 500 600 (resp_status response)
  | Failure _ _ => true
  end.

(** An attempt ends the request with success: a response with a status
    in [200,300). *)
Definition succeeds (wire : Wire) : bool :=
  match wire with
  | Answer response => in_range 200 300 (resp_status response)
  | Failure _ _ => false
  end.

(** The largest number of retries a request can make: the retry count,
    and one when the count is smaller. *)
Definition max_retries (retries : Z) : nat := Z.to_nat (Z.max retries 1).

(** The counter a configuration carries when [a] attempts have failed. *)
Definition counter_after (a : nat) : option Z :=
  match a with
  | O => None
  | S _ => Some (Z.of_nat a)
  end.

Definition config_after (config : RequestConfig) (a : nat) : RequestConfig :=
  {| cfg_method := cfg_method config;
     cfg_url := cfg_url config;
     retryCount := counter_after a |}.

(** The delays before the retries number [a + 1] to [k]. *)
Definition delays (retryDelay : Z) (a k : nat) : list Z :=
  map (λ j, (retryDelay * Z.of_nat j)%Z) (seq (S a) (k - a)).

(** The lines printed before the retries number [a + 1] to [k]. *)
Definition retry_lines (retries : Z) (a k : nat) : list ConsoleLine :=
  map (λ j, LogRetry (Z.of_nat j) retries) (seq (S a) (k - a)).

(** The world after the retries number [a + 1] to [k] and [extra] more
    attempts. *)
Definition world_after (retries retryDelay : Z) (w : World) (a k extra : nat)
  : World :=
  {| calls := calls w + (k - a) + extra;
     sleeps := sleeps w ++ delays retryDelay a k;
     console := console w ++ retry_lines retries a k |}.

(** What the last attempt of a request brought, as the promise shows
    it. *)
Definition shows (p : Promise AxiosResponse) (wire : Wire) : Prop :=
  match p with
  | Resolved response => wire = Answer response ∧ succeeds wire = true
  | Rejected error =>
      succeeds wire = false
      ∧ err_response error
        = match wire with
          | Answer response => Some response
          | Failure _ _ => None
          end
      ∧ err_request error = true
  end.

End RetrySpec.

(** ** Configuration: [src/config/index.ts] *)

Module Config.

Import JS.

(** [process.env]: the variables that are set, with their values. *)
Definition Env : Type := gmap string string.

(** [a || b] on values that are a string or [undefined]. *)
Definition or_else (a b : option string) : option string :=
  match a with
  | Some v => if truthy v then a else b
  | None => b
  end.

(** [!!a] on such a value. *)
Definition to_boolean (a : option string) : bool :=
  match a with
  | Some v => truthy v
  | None => false
  end.

(** [getEnvVar] *)
Definition getEnvVar (env : Env) (key : string) (defaultValue : option string)
  : option string :=
  or_else (env !! key) defaultValue.

(** [isCI] *)
Definition isCI (env : Env) : bool :=
  to_boolean
    (or_else (or_else (or_else (or_else (or_else (or_else
       (env !! "CI")
       (env !! "CONTINUOUS_INTEGRATION"))
       (env !! "BUILD_NUMBER"))
       (env !! "GITHUB_ACTIONS"))
       (env !! "GITLAB_CI"))
       (env !! "CIRCLECI"))
       (env !! "JENKINS_URL")).

End Config.

(** ** Git and CI information: [src/utils/git.ts] *)

Module Git.

Import JS Suites.

(** [str.slice(n)] *)
Fixpoint slice (n : nat) (str : string) : string :=
  match n, str with
  | S n', String _ rest => slice n' rest
  | _, _ => str
  end.

(** [str.replace(searchValue, replaceValue)] for a string pattern and a
    replacement without [$]: the first occurrence from the left, if
    there is one, is replaced. *)
Fixpoint replace (searchValue replaceValue str : string) : string :=
  if String.prefix searchValue str
  then replaceValue +:+ slice (String.length searchValue) str
  else match str with
       | EmptyString => EmptyString
       | String c rest => String c (replace searchValue replaceValue rest)
       end.

(** [getEnvVar(key) || fallback] *)
Definition env_or (env : Config.Env) (key fallback : string) : string :=
  Client.or_string (Config.getEnvVar env key None) fallback.

(** [if (getEnvVar(key))] *)
Definition env_set (env : Config.Env) (key : string) : bool :=
  Config.to_boolean (Config.getEnvVar env key None).

(** [getGitInfoFromCI] *)
Definition getGitInfoFromCI (env : Config.Env) : GitInfo :=
  if env_set env "GITHUB_SHA" then
    let ref := env_or env "GITHUB_REF" "" in
    let branch :=
      replace "/merge" "" (replace "refs/pull/" "pr-" (replace "refs/heads/" "" ref)) in
    {| branch := if truthy branch then branch else "unknown";
       sha := env_or env "GITHUB_SHA" "unknown";
       repoPath := None |}
  else if env_set env "CI_COMMIT_SHA" then
    {| branch := env_or env "CI_COMMIT_REF_NAME" "unknown";
       sha := env_or env "CI_COMMIT_SHA" "unknown";
       repoPath := None |}
  else if env_set env "GIT_COMMIT" then
    {| branch := env_or env "GIT_BRANCH" "unknown";
       sha := env_or env "GIT_COMMIT" "unknown";
       repoPath := None |}
  else if env_set env "CIRCLE_SHA1" then
    {| branch := env_or env "CIRCLE_BRANCH" "unknown";
       sha := env_or env "CIRCLE_SHA1" "unknown";
       repoPath := None |}
  else
    {| branch := "unknown"; sha := "unknown"; repoPath := None |}.

(** [getCIInfo] *)
Definition getCIInfo (env : Config.Env) : CIInfo :=
  if env_set env "GITHUB_ACTOR" then
    let serverUrl := env_or env "GITHUB_SERVER_URL" "https://github.com" in
    let repository := env_or env "GITHUB_REPOSITORY" "" in
    let runId := env_or env "GITHUB_RUN_ID" "" in
    {| actor := env_or env "GITHUB_ACTOR" "github-actions";
       buildUrl := serverUrl +:+ "/" +:+ repository +:+ "/actions/runs/" +:+ runId;
       isCI := true;
       provider := Some "github-actions" |}
  else if env_set env "GITLAB_USER_LOGIN" then
    let projectUrl := env_or env "CI_PROJECT_URL" "" in
    let pipelineId := env_or env "CI_PIPELINE_ID" "" in
    {| actor := env_or env "GITLAB_USER_LOGIN" "gitlab-ci";
       buildUrl := projectUrl +:+ "/-/pipelines/" +:+ pipelineId;
       isCI := true;
       provider := Some "gitlab-ci" |}
  else if env_set env "BUILD_USER" then
    {| actor := env_or env "BUILD_USER" "jenkins";
       buildUrl := env_or env "BUILD_URL" "";
       isCI := true;
       provider := Some "jenkins" |}
  else if env_set env "CIRCLE_USERNAME" then
    {| actor := env_or env "CIRCLE_USERNAME" "circleci";
       buildUrl := env_or env "CIRCLE_BUILD_URL" "";
       isCI := true;
       provider := Some "circleci" |}
  else if negb (Config.isCI env) then
    {| actor := "local-developer"; buildUrl := ""; isCI := false; provider := None |}
  else
    {| actor := "ci-user"; buildUrl := ""; isCI := true; provider := Some "unknown" |}.

(** The simple-git library and the file system are outside the
    repository. A repository is given by what [getGitInfo] obtains from
    them: the result of [findGitRoot()], and the outcome of the three
    calls, [None] standing for a call that rejects. *)
Record Repository := {
  gitRoot : option string;
  checkIsRepo : option bool;
  branch_current : option string;
  log_latest_hash : option (option string)
}.

Inductive Warning :=
  | WarnNotFound
  | WarnNotARepository
  | WarnBranch
  | WarnSha
  | WarnGitInformation.

Definition defaultGitInfo : GitInfo :=
  {| branch := "unknown"; sha := "unknown"; repoPath := None |}.

(** [getGitInfo], with the lines it prints by [console.warn]. *)
Definition getGitInfo (env : Config.Env) (repo : Repository)
  : GitInfo * list Warning :=
  let ciGitInfo := getGitInfoFromCI env in
  if Config.isCI env
     && (negb (String.eqb (branch ciGitInfo) "unknown")
         || negb (String.eqb (sha ciGitInfo) "unknown"))
  then (ciGitInfo, [])
  else
    match gitRoot repo with
    | None => (defaultGitInfo, [WarnNotFound])
    | Some root =>
        if negb (truthy root) then (defaultGitInfo, [WarnNotFound])
        else
          match checkIsRepo repo with
          | None => (defaultGitInfo, [WarnGitInformation])
          | Some false => (defaultGitInfo, [WarnNotARepository])
          | Some true =>
              let '(branch, warned) :=
                match branch_current repo with
                | Some current =>
                    (if truthy current then current else "unknown", [])
                | None => ("unknown", [WarnBranch])
                end in
              let '(sha, warned) :=
                match log_latest_hash repo with
                | Some hash => (Client.or_string hash "unknown", warned)
                | None => ("unknown", warned ++ [WarnSha])
                end in
              ({| branch := branch; sha := sha; repoPath := Some root |}, warned)
          end
    end.

(** A resolved path, as [path.resolve] returns it, by its segments below
    the root: the root itself is the empty list. *)
Definition Path : Type := list string.

(** [path.dirname] and [path.join(p, name)] on resolved paths. *)
Definition dirname (p : Path) : Path := removelast p.
Definition path_join (p : Path) (name : string) : Path := p ++ [name].

(** The loop of [findGitRoot]; [existsSync] is the file system. Every
    round shortens the path, so its length plus one bounds the rounds;
    [None] when the rounds are used up. *)
Fixpoint findGitRoot_loop (fuel : nat) (existsSync : Path → bool)
    (currentPath : Path) : option (option Path) :=
  match fuel with
  | O => None
  | S fuel' =>
      match currentPath with
      | [] => Some None
      | _ =>
          if existsSync (path_join currentPath ".git") then Some (Some currentPath)
          else findGitRoot_loop fuel' existsSync (dirname currentPath)
      end
  end.

(** [findGitRoot], from the resolved search path. *)
Definition findGitRoot (existsSync : Path → bool) (resolved : Path)
  : option (option Path) :=
  findGitRoot_loop (S (length resolved)) existsSync resolved.

(** *** Test values *)

Definition github_pull_request : Config.Env :=
  {[ "GITHUB_ACTIONS" := "true"; "GITHUB_SHA" := "abc123";
     "GITHUB_REF" := "refs/pull/42/merge"; "GITHUB_ACTOR" := "octocat";
     "GITHUB_REPOSITORY" := "guidewire-oss/fern-jest-client";
     "GITHUB_RUN_ID" := "7" ]}.

Definition github_branch_push : Config.Env :=
  {[ "CI" := "true"; "GITHUB_SHA" := "abc123";
     "GITHUB_REF" := "refs/heads/feature/login" ]}.


Definition checkout : Repository :=
  {| gitRoot := Some "/work/project";
     checkIsRepo := Some true;
     branch_current := Some "main";
     log_latest_hash := Some (Some "0f3c9a") |}.

(** A file system with one [.git] entry, in [/work/project]. *)
Definition one_repository : Path → bool :=
  λ p, bool_decide (p = ["work"; "project"; ".git"]).

End Git.

(** ** The Jest reporter: [src/reporter/index.ts] *)

Module Reporter.

Import JS Mapper Client Suites.

Record FernReporterConfig := {
  options_projectId : option string;
  options_projectName : option string;
  options_baseUrl : option string;
  options_timeout : option Z;
  options_enabled : option bool
}.

(** [client] is left [undefined] by the constructor of a disabled
    reporter. *)
Record FernReporter := {
  client : option FernApiClient;
  reporter_projectId : string;
  reporter_projectName : string;
  enabled : bool
}.

(** What the [try] blocks of the reporter can catch: the [RangeError] of
    a date out of range, the [TypeError] of a call on an [undefined]
    client, the error of a rejected request. *)
Inductive Thrown :=
  | RangeError
  | TypeError
  | RequestError (error : AxiosError).

Inductive ReporterLine :=
  | LogDisabled
  | LogInitialized (projectId : string)
  | LogReportingTo (baseUrl : string)
  | LogCollecting
  | WarnGit (warning : Git.Warning)
  | LogSummary (summary : string)
  | LogSending
  | FromClient (line : ConsoleLine)
  | LogSent
  | ErrorNotSent (error : Thrown)
  | LogConnected
  | WarnNotResponding
  | ErrorNotConnected (error : Thrown).

(** The outside of the reporter: the HTTP attempts issued so far, the
    delays waited, and the one console the reporter and its client
    print to. *)
Record Host := {
  attempts : nat;
  waited : list Z;
  output : list ReporterLine
}.

Definition say (lines : list ReporterLine) (host : Host) : Host :=
  {| attempts := attempts host; waited := waited host;
     output := output host ++ lines |}.

(** A call of the client, run on the host: its attempts and delays are
    the host's, its lines go to the host's console in their order. *)
Definition in_host {A : Type} (call : Async A) (host : Host)
  : option (Promise A * Host) :=
  match call {| calls := attempts host; sleeps := waited host; console := [] |} with
  | None => None
  | Some (p, w) =>
      Some (p, {| attempts := calls w; waited := sleeps w;
                  output := output host ++ map FromClient (console w) |})
  end.

(** The constructor, with the lines it prints. *)
Definition new_FernReporter (env : Config.Env) (options : FernReporterConfig)
    (transport : Transport) : FernReporter * list ReporterLine :=
  let projectId :=
    or_string
      (Config.or_else (options_projectId options)
         (Config.getEnvVar env "FERN_PROJECT_ID" None))
      "unknown-project" in
  let projectName :=
    or_string
      (Config.or_else (options_projectName options)
         (Config.getEnvVar env "FERN_PROJECT_NAME" None))
      projectId in
  let enabled :=
    negb (bool_decide (options_enabled options = Some false))
    && negb (bool_decide (Config.getEnvVar env "FERN_ENABLED" None = Some "false")) in
  if negb enabled then
    ({| client := None; reporter_projectId := projectId;
        reporter_projectName := projectName; enabled := enabled |},
     [LogDisabled])
  else
    let baseUrl :=
      Config.or_else (options_baseUrl options)
        (Config.getEnvVar env "FERN_REPORTER_BASE_URL" None) in
    let timeout := options_timeout options in
    let client :=
      createFernClient projectId
        {| opt_baseUrl := baseUrl; opt_timeout := timeout;
           opt_retries := None; opt_retryDelay := None |}
        transport in
    ({| client := Some client; reporter_projectId := projectId;
        reporter_projectName := projectName; enabled := enabled |},
     [LogInitialized projectId; LogReportingTo (Client.baseUrl client)]).

Inductive Settled (A : Type) : Type :=
  | Fulfilled (a : A)
  | RejectedWith (error : Thrown).
Arguments Fulfilled {A} a.
Arguments RejectedWith {A} error.

(** The [catch] block of [onRunComplete]. *)
Definition not_sent (env : Config.Env) (error : Thrown) (host : Host)
  : Settled unit * Host :=
  let host := say [ErrorNotSent error] host in
  if bool_decide (env !! "FERN_FAIL_ON_ERROR" = Some "true")
  then (RejectedWith error, host)
  else (Fulfilled (), host).

(** [onRunComplete]. [clock], [hrtime] and [seed_number] are those of
    the mapper, [readings] the number of clock readings made before the
    call; [None] when the model ran out of fuel. *)
Definition onRunComplete (fuel : nat) (clock : nat → Z) (hrtime : Z)
    (seed_number : Z → Z → Z) (readings : nat)
    (env : Config.Env) (repo : Git.Repository)
    (reporter : FernReporter) (results : JestAggregatedResult)
  : Host → option (Settled unit * Host) :=
  λ host,
    if negb (enabled reporter) then Some (Fulfilled (), host)
    else
      let host := say [LogCollecting] host in
      let '(gitInfo, warnings) := Git.getGitInfo env repo in
      let host := say (map WarnGit warnings) host in
      let ciInfo := Git.getCIInfo env in
      match mapJestResultsToTestRun clock hrtime seed_number results
              (reporter_projectId reporter) (reporter_projectName reporter)
              gitInfo ciInfo readings with
      | None => Some (not_sent env RangeError host)
      | Some (testRun, _) =>
          let host := say [LogSummary (generateTestSummary testRun)] host in
          let createInput := mapTestRunToCreateInput testRun in
          let host := say [LogSending] host in
          match client reporter with
          | None => Some (not_sent env TypeError host)
          | Some client =>
              match in_host (report fuel client createInput) host with
              | None => None
              | Some (Resolved _, host) => Some (Fulfilled (), say [LogSent] host)
              | Some (Rejected error, host) =>
                  Some (not_sent env (RequestError error) host)
              end
          end
      end.

(** [testConnection] *)
Definition testConnection (fuel : nat) (reporter : FernReporter)
  : Host → option (bool * Host) :=
  λ host,
    if negb (enabled reporter) then Some (false, host)
    else
      match client reporter with
      | None => Some (false, say [ErrorNotConnected TypeError] host)
      | Some client =>
          match in_host (ping fuel client) host with
          | None => None
          | Some (Resolved isHealthy, host) =>
              Some (isHealthy,
                    say [if isHealthy then LogConnected else WarnNotResponding] host)
          | Some (Rejected error, host) =>
              Some (false, say [ErrorNotConnected (RequestError error)] host)
          end
      end.

(** *** Test values *)

Definition quiet : Host := {| attempts := 0; waited := []; output := [] |}.

Definition only_project (projectId : string) : FernReporterConfig :=
  {| options_projectId := Some projectId; options_projectName := None;
     options_baseUrl := None; options_timeout := None;
     options_enabled := None |}.

Definition switched_off : FernReporterConfig :=
  {| options_projectId := Some "test-project"; options_projectName := None;
     options_baseUrl := None; options_timeout := None;
     options_enabled := Some false |}.

(** Results whose start time no [Date] can hold. *)
Definition results_out_of_range : JestAggregatedResult :=
  {| agg_startTime := (MAX_TIME_VALUE + 1)%Z; agg_testResults := [] |}.

Definition strict : Config.Env := {[ "FERN_FAIL_ON_ERROR" := "true" ]}.

End Reporter.

(** ** Notions for the git and reporter properties *)

Module GitSpec.

Import JS.

(** [str.includes(pattern)] *)
Fixpoint includes (pattern str : string) : bool :=
  String.prefix pattern str
  || match str with
     | EmptyString => false
     | String _ rest => includes pattern rest
     end.

Definition is_digit (c : ascii) : bool :=
  (48 <=? nat_of_ascii c)%nat && (nat_of_ascii c <=? 57)%nat.

Definition digits (s : string) : Prop :=
  ∀ c, c ∈ MapperSpec.chars s → is_digit c = true.

(** The value of the first of the variables [keys] that is set to a
    non-empty text. *)
Fixpoint first_set (env : Config.Env) (keys : list string) : option string :=
  match keys with
  | [] => None
  | key :: rest =>
      match Config.getEnvVar env key None with
      | Some v => Some v
      | None => first_set env rest
      end
  end.

(** The four variables [getGitInfoFromCI] looks for a commit in. *)
Definition sha_variables : list string :=
  ["GITHUB_SHA"; "CI_COMMIT_SHA"; "GIT_COMMIT"; "CIRCLE_SHA1"].

(** The four variables [getCIInfo] looks for an actor in. *)
Definition actor_variables : list string :=
  ["GITHUB_ACTOR"; "GITLAB_USER_LOGIN"; "BUILD_USER"; "CIRCLE_USERNAME"].

End GitSpec.

(** ** Properties of the mapper *)

Module MapperFacts.

Import JS Mapper MapperSpec.

(** Case analysis on a comparison of strings in the goal. *)
Ltac case_status :=
  match goal with
  | |- context [String.eqb ?a ?b] =>
      destruct (String.eqb_spec a b) as [->|?]; simpl
  end.

(** *** Deduplication *)

Lemma keep_first_elem seen names x :
  x ∈ keep_first seen names ↔ x ∈ names ∧ x ∉ seen.
Proof.
  revert seen. induction names as [|y rest IH]; intros seen; simpl.
  - set_solver.
  - destruct (decide (y ∈ seen)) as [Hy|Hy].
    + rewrite IH. set_solver.
    + rewrite elem_of_cons, IH. destruct (decide (x = y)); set_solver.
Qed.

Lemma keep_first_NoDup seen names : NoDup (keep_first seen names).
Proof.
  revert seen. induction names as [|y rest IH]; intros seen; simpl.
  - constructor.
  - destruct (decide (y ∈ seen)); [apply IH|].
    constructor; [|apply IH].
    rewrite keep_first_elem. set_solver.
Qed.

Lemma keep_first_sublist seen names : sublist (keep_first seen names) names.
Proof.
  revert seen. induction names as [|y rest IH]; intros seen; simpl.
  - constructor.
  - destruct (decide (y ∈ seen)).
    + apply sublist_cons, IH.
    + apply sublist_skip, IH.
Qed.

(** The head of the candidates is the head of the result. *)
Lemma first_occurrences_head x rest :
  first_occurrences (x :: rest) = x :: keep_first {[ x ]} rest.
Proof.
  unfold first_occurrences. simpl.
  destruct (decide (x ∈ (∅ : gset string))) as [H|_]; [set_solver|].
  f_equal. f_equal. set_solver.
Qed.

(** What the deduplication loop keeps, and the ids it hands out. *)
Lemma dedup_foldl tags : ∀ st,
  let st' := foldl dedup_step st tags in
  map tag_name (uniqueTags st')
    = map tag_name (uniqueTags st)
        ++ keep_first (uniqueTagNames st) (map tag_name tags)
  ∧ map tag_id (uniqueTags st')
    = map tag_id (uniqueTags st)
        ++ seqZ (tagId st)
             (Z.of_nat (length (keep_first (uniqueTagNames st) (map tag_name tags)))).
Proof.
  induction tags as [|tag rest IH]; intros st; simpl.
  - rewrite !app_nil_r. done.
  - unfold dedup_step at 2 4. 
    destruct (decide (tag_name tag ∈ uniqueTagNames st)) as [Hin|Hin].
    + apply IH.
    + destruct (IH {| uniqueTagNames := {[ tag_name tag ]} ∪ uniqueTagNames st;
                      uniqueTags := push (uniqueTags st)
                        {| tag_id := tagId st; tag_name := tag_name tag |};
                      tagId := tagId st + 1 |}) as [Hn Hi].
      simpl in Hn, Hi. split.
      * rewrite Hn. unfold push. rewrite map_app. simpl.
        rewrite <- app_assoc. done.
      * rewrite Hi. unfold push. rewrite map_app. simpl.
        rewrite <- app_assoc. simpl. f_equal.
        rewrite Nat2Z.inj_succ.
        rewrite (seqZ_cons (tagId st)) by lia.
        f_equal. f_equal; lia.
Qed.

(** *** Strings *)

#[local] Arguments String.append : simpl nomatch.

Lemma app_length_string (a b : string) :
  String.length (a +:+ b) = String.length a + String.length b.
Proof. induction a as [|c a IH]; simpl; [done|]. by rewrite IH. Qed.

Lemma app_assoc_string (a b c : string) : (a +:+ b) +:+ c = a +:+ (b +:+ c).
Proof. induction a as [|x a IH]; simpl; [done|]. by rewrite IH. Qed.

(** Two ways of cutting one text: the shorter first part is a prefix of
    the longer one. *)
Lemma app_split_string (a : string) : ∀ b c d,
  a +:+ b = c +:+ d → String.length a ≤ String.length c →
  ∃ e, c = a +:+ e ∧ b = e +:+ d.
Proof.
  induction a as [|x a IH]; intros b c d Heq Hlen; simpl in *.
  - exists c. done.
  - destruct c as [|y c]; simpl in *; [lia|].
    injection Heq as -> Heq. destruct (IH b c d Heq) as (e & -> & ->); [lia|].
    exists e. done.
Qed.

Lemma chars_app a b : chars (a +:+ b) = chars a ++ chars b.
Proof. unfold chars. induction a as [|c a IH]; simpl; [done|]. by rewrite IH. Qed.

Lemma span_app p s : s = (span p s).1 +:+ (span p s).2.
Proof.
  induction s as [|c r IH]; simpl; [done|].
  destruct (p c); simpl; [|done]. by rewrite <- IH.
Qed.

(** A greedy run stops at the end of the text or at a character outside
    the class. *)
Lemma span_stop p s :
  match (span p s).2 with
  | EmptyString => True
  | String c _ => p c = false
  end.
Proof.
  induction s as [|c r IH]; simpl; [done|].
  destruct (p c) eqn:Hc; simpl; [done|]. by rewrite Hc.
Qed.

Lemma span_all p s x : x ∈ chars (span p s).1 → p x = true.
Proof.
  induction s as [|c r IH]; simpl.
  - intros H. by apply elem_of_nil in H.
  - destruct (p c) eqn:Hc; simpl.
    + unfold chars. simpl. rewrite elem_of_cons. intros [->|H]; [done|by apply IH].
    + intros H. by apply elem_of_nil in H.
Qed.

(** On a run inside the class followed by a character outside it, the
    greedy group is the whole run. *)
Lemma span_run p run c rest :
  (∀ x, x ∈ chars run → p x = true) → p c = false →
  span p (run +:+ String c rest) = (run, String c rest).
Proof.
  unfold chars. induction run as [|x run IH]; simpl; intros Hrun Hc.
  - by rewrite Hc.
  - rewrite (Hrun x) by set_solver.
    rewrite IH; [done| |done]. intros y Hy. apply Hrun. set_solver.
Qed.

(** A run inside the class at the start of a text is a prefix of the
    greedy group. *)
Lemma span_prefix p x run rest :
  p x = true → ∃ more, (span p (String x run +:+ rest)).1 = String x more.
Proof. intros Hx. simpl. rewrite Hx. simpl. eauto. Qed.

(** *** Occurrences *)

Section Occurrences.

Variable shape : string → string.
Variable ok : string → Prop.
Hypothesis shape_nonempty : ∀ g, 0 < String.length (shape g).

Lemma occurs_at_empty i g : ¬ occurs_at shape ok "" i g.
Proof.
  intros (_ & pre & rest & Heq & _).
  apply (f_equal String.length) in Heq. rewrite !app_length_string in Heq.
  specialize (shape_nonempty g). simpl in Heq. lia.
Qed.

Lemma occurs_at_cons c r i g :
  occurs_at shape ok (String c r) (S i) g ↔ occurs_at shape ok r i g.
Proof.
  split; intros (Hok & pre & rest & Heq & Hlen); (split; [done|]).
  - destruct pre as [|y pre]; simpl in *; [done|].
    injection Heq as -> ->. exists pre, rest. split; [done|lia].
  - exists (String c pre), rest. simpl. by rewrite Heq, Hlen.
Qed.

Lemma occurs_at_app before rest i g :
  occurs_at shape ok (before +:+ rest) (String.length before + i) g
  ↔ occurs_at shape ok rest i g.
Proof.
  induction before as [|c before IH]; simpl; [done|].
  by rewrite occurs_at_cons.
Qed.

(** A search that finds nothing at the first character continues one
    character on. *)
Lemma leftmost_later c r o :
  (∀ g, ¬ occurs_at shape ok (String c r) 0 g) →
  leftmost_match shape ok r o →
  leftmost_match shape ok (String c r) (later <$> o).
Proof.
  intros Hhead. destruct o as [m|]; simpl.
  - intros (Hok & (pre & Heq & Hlen) & Hleft). split; [done|]. split.
    + exists (String c pre). simpl. by rewrite <- Heq, Hlen.
    + intros [|i] g Hocc; [by apply Hhead in Hocc|].
      pose proof (proj1 (occurs_at_cons c r i g) Hocc) as Hr.
      specialize (Hleft _ _ Hr). lia.
  - intros Hnone [|i] g Hocc; [by apply Hhead in Hocc|].
    pose proof (proj1 (occurs_at_cons c r i g) Hocc) as Hr.
    exact (Hnone _ _ Hr).
Qed.

End Occurrences.

(** *** The three patterns *)

Lemma bracket_shape_nonempty g : 0 < String.length (bracket_shape g).
Proof. simpl. lia. Qed.

Lemma sigil_shape_nonempty sigil g : 0 < String.length (sigil_shape sigil g).
Proof. simpl. lia. Qed.

(** A bracket group at the start of a text is what the greedy group
    finds there. *)
Lemma bracket_head c r g :
  occurs_at bracket_shape bracket_group (String c r) 0 g →
  c = "["%char ∧ ∃ rest, span not_close r = (g, String "]" rest).
Proof.
  intros ((Hne & Hchars) & pre & rest & Heq & Hlen).
  destruct pre; [|done]. unfold bracket_shape in Heq. simpl in Heq.
  injection Heq as -> ->. split; [done|]. exists rest.
  rewrite app_assoc_string. simpl. by apply span_run.
Qed.

Lemma bracketPattern_exec_leftmost s :
  leftmost_match bracket_shape bracket_group s (bracketPattern_exec s).
Proof.
  induction s as [|c r IH].
  - simpl. apply occurs_at_empty, bracket_shape_nonempty.
  - cbn [bracketPattern_exec].
    destruct (Ascii.eqb_spec c "[") as [->|Hc].
    + pose proof (span_app not_close r) as Happ.
      pose proof (span_stop not_close r) as Hstop.
      pose proof (span_all not_close r) as Hall.
      destruct (span not_close r) as [[|g gs] [|x rest]] eqn:Hspan; simpl in *.
      * apply leftmost_later; [|exact IH].
        intros g' Hocc. apply bracket_head in Hocc as [_ [rest' Hocc]].
        rewrite Hspan in Hocc. discriminate Hocc.
      * apply leftmost_later; [|exact IH].
        intros g' Hocc. pose proof Hocc as ((Hne & _) & _).
        apply bracket_head in Hocc as [_ [rest' Hocc]].
        rewrite Hspan in Hocc. injection Hocc as <- _. done.
      * apply leftmost_later; [|exact IH].
        intros g' Hocc. apply bracket_head in Hocc as [_ [rest' Hocc]].
        rewrite Hspan in Hocc. discriminate Hocc.
      * unfold not_close in Hstop. apply negb_false_iff, Ascii.eqb_eq in Hstop as ->.
        split; [split; [done|exact Hall]|]. split; [|intros; lia].
        exists EmptyString. split; [|done]. simpl. rewrite Happ at 1.
        unfold bracket_shape. simpl. by rewrite app_assoc_string.
    + apply leftmost_later; [|exact IH].
      intros g' Hocc. by apply bracket_head in Hocc as [? _].
Qed.

(** A mention at the start of a text makes the greedy group there
    non-empty. *)
Lemma sigil_head sigil c r g :
  occurs_at (sigil_shape sigil) tag_word (String c r) 0 g →
  c = sigil ∧ ∃ x more, (span is_tag_char r).1 = String x more.
Proof.
  intros ((Hne & Hchars) & pre & rest & Heq & Hlen).
  destruct pre; [|done]. unfold sigil_shape in Heq. simpl in Heq.
  injection Heq as -> ->. split; [done|].
  destruct g as [|x g]; [done|]. exists x.
  apply span_prefix, Hchars. unfold chars. simpl. set_solver.
Qed.

Lemma sigil_exec_leftmost sigil s :
  leftmost_match (sigil_shape sigil) tag_word s (sigil_exec sigil s).
Proof.
  induction s as [|c r IH].
  - simpl. apply occurs_at_empty, sigil_shape_nonempty.
  - cbn [sigil_exec].
    destruct (Ascii.eqb_spec c sigil) as [->|Hc].
    + pose proof (span_app is_tag_char r) as Happ.
      pose proof (span_all is_tag_char r) as Hall.
      destruct (span is_tag_char r) as [[|g gs] rest] eqn:Hspan; simpl in *.
      * apply leftmost_later; [|exact IH].
        intros g' Hocc. apply sigil_head in Hocc as [_ (x & more & Hocc)].
        rewrite Hspan in Hocc. done.
      * split; [split; [done|exact Hall]|]. split; [|intros; lia].
        exists EmptyString. split; [|done]. simpl. by rewrite Happ at 1.
    + apply leftmost_later; [|exact IH].
      intros g' Hocc. by apply sigil_head in Hocc as [? _].
Qed.

(** The group of a mention is the longest run of tag characters. *)
Lemma sigil_exec_greedy sigil s m :
  sigil_exec sigil s = Some m →
  match m_rest m with
  | EmptyString => True
  | String c _ => is_tag_char c = false
  end.
Proof.
  revert m. induction s as [|c r IH]; intros m; simpl; [done|].
  assert (later <$> sigil_exec sigil r = Some m →
          match m_rest m with
          | EmptyString => True
          | String c _ => is_tag_char c = false
          end) as Hlater.
  { destruct (sigil_exec sigil r) as [m'|]; simpl; [|done].
    intros [= <-]. simpl. by apply IH. }
  destruct (Ascii.eqb c sigil); [|done].
  pose proof (span_stop is_tag_char r) as Hstop.
  destruct (span is_tag_char r) as [[|g gs] rest]; [done|].
  intros [= <-]. done.
Qed.

(** *** The search loop *)

Section Loop.

Variable exec : string -> option RegExpMatch.
Variable shape : string -> string.
Variable ok : string -> Prop.

Hypothesis exec_leftmost : ∀ s, leftmost_match shape ok s (exec s).
Hypothesis shape_nonempty : ∀ g, 0 < String.length (shape g).

Lemma exec_sound s m : exec s = Some m →
  ok (m_group m)
  ∧ ∃ pre, s = pre +:+ (shape (m_group m) +:+ m_rest m)
           ∧ String.length pre = m_index m.
Proof.
  intros H. pose proof (exec_leftmost s) as Hl. rewrite H in Hl. simpl in Hl. tauto.
Qed.

Lemma exec_progress s m : exec s = Some m →
  m_index m + String.length (shape (m_group m)) + String.length (m_rest m)
    = String.length s.
Proof.
  intros H. destruct (exec_sound _ _ H) as (_ & pre & -> & <-).
  rewrite !app_length_string. lia.
Qed.

(** The loop and the list of its matches agree. *)
Lemma while_exec_matches {A} (f : A → string → A) fuel : ∀ pos rest acc,
  while_exec exec (λ acc m, f acc (m_group m)) fuel rest acc
  = foldl (λ acc im, f acc im.2) acc (matches_from exec fuel pos rest).
Proof.
  induction fuel as [|fuel IH]; intros pos rest acc; simpl; [done|].
  destruct (exec rest) as [m|]; simpl; [|done]. apply IH.
Qed.

(** The length of the text is enough fuel: more changes nothing. *)
Lemma matches_from_fuel fuel1 : ∀ fuel2 pos rest,
  String.length rest ≤ fuel1 → String.length rest ≤ fuel2 →
  matches_from exec fuel1 pos rest = matches_from exec fuel2 pos rest.
Proof.
  induction fuel1 as [|fuel1 IH]; intros fuel2 pos rest H1 H2.
  - destruct fuel2 as [|fuel2]; simpl; [done|].
    destruct (exec rest) as [m|] eqn:Hm; [|done].
    apply exec_progress in Hm. specialize (shape_nonempty (m_group m)). lia.
  - destruct fuel2 as [|fuel2]; simpl.
    + destruct (exec rest) as [m|] eqn:Hm; [|done].
      apply exec_progress in Hm. specialize (shape_nonempty (m_group m)). lia.
    + destruct (exec rest) as [m|] eqn:Hm; [|done].
      f_equal. pose proof (exec_progress _ _ Hm).
      specialize (shape_nonempty (m_group m)). apply IH; lia.
Qed.

(** The same for the loop itself, whatever its body. *)
Lemma while_exec_fuel {A} (body : A → RegExpMatch → A) fuel1 : ∀ fuel2 rest acc,
  String.length rest ≤ fuel1 → String.length rest ≤ fuel2 →
  while_exec exec body fuel1 rest acc = while_exec exec body fuel2 rest acc.
Proof.
  induction fuel1 as [|fuel1 IH]; intros fuel2 rest acc H1 H2.
  - destruct fuel2 as [|fuel2]; simpl; [done|].
    destruct (exec rest) as [m|] eqn:Hm; [|done].
    apply exec_progress in Hm. specialize (shape_nonempty (m_group m)). lia.
  - destruct fuel2 as [|fuel2]; simpl.
    + destruct (exec rest) as [m|] eqn:Hm; [|done].
      apply exec_progress in Hm. specialize (shape_nonempty (m_group m)). lia.
    + destruct (exec rest) as [m|] eqn:Hm; [|done].
      pose proof (exec_progress _ _ Hm).
      specialize (shape_nonempty (m_group m)). apply IH; lia.
Qed.

(** The position the loop has reached after a match. *)
Lemma after_match before rest m :
  exec rest = Some m →
  ∃ pre, rest = pre +:+ (shape (m_group m) +:+ m_rest m)
         ∧ String.length pre = m_index m
         ∧ String.length before + (String.length rest - String.length (m_rest m))
           = String.length (before +:+ (pre +:+ shape (m_group m)))
         ∧ before +:+ rest = (before +:+ (pre +:+ shape (m_group m))) +:+ m_rest m.
Proof.
  intros Hm. destruct (exec_sound _ _ Hm) as (_ & pre & Hrest & Hpre).
  exists pre. split; [done|]. split; [done|]. split.
  - rewrite Hrest at 1. rewrite !app_length_string. lia.
  - rewrite Hrest at 1. by rewrite !app_assoc_string.
Qed.

(** Every listed match is an occurrence of the pattern at the listed
    index, inside the text searched. *)
Lemma matches_from_occurrence fuel : ∀ before rest i g,
  (i, g) ∈ matches_from exec fuel (String.length before) rest →
  occurs_at shape ok (before +:+ rest) i g ∧ String.length before ≤ i.
Proof.
  induction fuel as [|fuel IH]; intros before rest i g; simpl.
  - intros H. by apply elem_of_nil in H.
  - destruct (exec rest) as [m|] eqn:Hm; [|intros H; by apply elem_of_nil in H].
    destruct (after_match before _ _ Hm) as (pre & Hrest & Hpre & Hpos & Hwhole).
    rewrite elem_of_cons. intros [Heq|Hin].
    + inversion Heq; subst i g. split; [|lia].
      rewrite <- Hpre. apply occurs_at_app. split; [by apply (exec_sound rest)|].
      exists pre, (m_rest m). done.
    + rewrite Hpos in Hin. apply IH in Hin as [Hocc Hle].
      rewrite <- Hwhole in Hocc. split; [done|].
      rewrite app_length_string in Hle. lia.
Qed.

(** Matches are listed left to right and do not overlap: a later match
    starts at or after the end of every earlier one. *)
Lemma matches_from_ordered fuel : ∀ before rest j k i1 g1 i2 g2,
  j < k →
  matches_from exec fuel (String.length before) rest !! j = Some (i1, g1) →
  matches_from exec fuel (String.length before) rest !! k = Some (i2, g2) →
  i1 + String.length (shape g1) ≤ i2.
Proof.
  induction fuel as [|fuel IH]; intros before rest j k i1 g1 i2 g2 Hjk; simpl.
  - intros H. by rewrite lookup_nil in H.
  - destruct (exec rest) as [m|] eqn:Hm; [|intros H; by rewrite lookup_nil in H].
    destruct (after_match before _ _ Hm) as (pre & Hrest & Hpre & Hpos & Hwhole).
    rewrite Hpos.
    destruct k as [|k]; [lia|]. destruct j as [|j]; simpl.
    + intros [= <- <-] Hk. apply list_elem_of_lookup_2 in Hk.
      apply matches_from_occurrence in Hk as [_ Hle].
      rewrite !app_length_string in Hle. lia.
    + intros Hj Hk. eapply (IH _ _ j k); [lia|done..].
Qed.

(** No occurrence is skipped: each one starts inside a listed match. *)
Lemma matches_from_complete fuel : ∀ before rest i g,
  String.length rest ≤ fuel →
  occurs_at shape ok (before +:+ rest) i g → String.length before ≤ i →
  ∃ i1 g1, (i1, g1) ∈ matches_from exec fuel (String.length before) rest
           ∧ i1 ≤ i < i1 + String.length (shape g1).
Proof.
  induction fuel as [|fuel IH]; intros before rest i g Hfuel Hocc Hle.
  - destruct rest; simpl in Hfuel; [|lia].
    destruct Hocc as (_ & pre & rest' & Heq & Hlen).
    apply (f_equal String.length) in Heq. rewrite !app_length_string in Heq.
    specialize (shape_nonempty g). simpl in Heq. lia.
  - simpl.
    assert (occurs_at shape ok rest (i - String.length before) g) as Hrest.
    { apply (occurs_at_app shape ok before).
      by replace (String.length before + (i - String.length before)) with i by lia. }
    pose proof (exec_leftmost rest) as Hl.
    destruct (exec rest) as [m|] eqn:Hm; simpl in Hl; [|by apply Hl in Hrest].
    destruct Hl as (_ & _ & Hleft). apply Hleft in Hrest.
    destruct (after_match before _ _ Hm) as (pre & Hr & Hpre & Hpos & Hwhole).
    pose proof (exec_progress _ _ Hm) as Hprog.
    destruct (decide (i < String.length before + m_index m
                          + String.length (shape (m_group m)))) as [Hin|Hout].
    + exists (String.length before + m_index m), (m_group m).
      split; [apply list_elem_of_here|lia].
    + rewrite Hpos. rewrite Hwhole in Hocc.
      assert (String.length (m_rest m) ≤ fuel) as Hf
        by (specialize (shape_nonempty (m_group m)); lia).
      destruct (IH (before +:+ (pre +:+ shape (m_group m))) (m_rest m) i g Hf Hocc)
        as (i1 & g1 & Hin1 & Hrange).
      { rewrite !app_length_string. lia. }
      exists i1, g1. split; [by apply list_elem_of_further|done].
Qed.

End Loop.

Lemma matchAll_left_to_right exec shape ok str :
  (∀ s, leftmost_match shape ok s (exec s)) →
  (∀ g, 0 < String.length (shape g)) →
  left_to_right shape ok str (matchAll exec str).
Proof.
  intros Hleft Hne. unfold matchAll. split; [|split].
  - intros i g Hin. change 0 with (String.length "") in Hin.
    by apply (matches_from_occurrence exec shape ok Hleft) in Hin as [Hocc _].
  - intros j k i1 g1 i2 g2. change 0 with (String.length "").
    by apply (matches_from_ordered exec shape ok Hleft).
  - intros i g Hocc. change 0 with (String.length "").
    apply (matches_from_complete exec shape ok Hleft Hne _ "" str i g);
      [done|done|simpl; lia].
Qed.

Lemma foldl_push_names (names : list string) : ∀ tags : list Tag,
  foldl (λ tags name, if truthy name then push tags (candidate name) else tags)
        tags names
  = tags ++ map candidate (List.filter truthy names).
Proof.
  induction names as [|n names IH]; intros tags; simpl.
  - by rewrite app_nil_r.
  - rewrite IH. destruct (truthy n); simpl; [|done].
    unfold push. by rewrite <- app_assoc.
Qed.

Lemma bracket_body_spec tags m :
  bracket_body tags m = tags ++ map candidate (bracket_names_of (m_group m)).
Proof. unfold bracket_body. apply foldl_push_names. Qed.

Lemma bracket_loop_spec str tags :
  while_exec bracketPattern_exec bracket_body (String.length str) str tags
  = tags ++ map candidate (bracket_names str).
Proof.
  change bracket_body with
    (λ (acc : list Tag) m,
       (λ acc g, bracket_body acc {| m_index := 0; m_group := g; m_rest := "" |})
         acc (m_group m)).
  rewrite (while_exec_matches bracketPattern_exec _ _ 0).
  unfold bracket_names, matchAll.
  generalize (matches_from bracketPattern_exec (String.length str) 0 str).
  intros l. revert tags. induction l as [|x l IH]; intros tags; simpl.
  - by rewrite app_nil_r.
  - rewrite IH, bracket_body_spec. simpl. by rewrite map_app, <- app_assoc.
Qed.

Lemma sigil_loop_spec sigil str tags :
  while_exec (sigil_exec sigil) sigil_body (String.length str) str tags
  = tags ++ map candidate (map snd (matchAll (sigil_exec sigil) str)).
Proof.
  change sigil_body with
    (λ (acc : list Tag) m, (λ acc g, push acc (candidate g)) acc (m_group m)).
  rewrite (while_exec_matches (sigil_exec sigil) _ _ 0).
  unfold matchAll.
  generalize (matches_from (sigil_exec sigil) (String.length str) 0 str).
  intros l. revert tags. induction l as [|x l IH]; intros tags; simpl.
  - by rewrite app_nil_r.
  - rewrite IH. unfold push. by rewrite <- app_assoc.
Qed.

(** The candidates of a string: bracket names, then at names, then hash
    names. *)
Lemma extractTagsFromString_spec str :
  extractTagsFromString str
  = map candidate (bracket_names str ++ at_names str ++ hash_names str).
Proof.
  unfold extractTagsFromString, atPattern_exec, hashPattern_exec.
  rewrite bracket_loop_spec, !sigil_loop_spec. simpl.
  by rewrite !map_app, <- app_assoc.
Qed.

(** *** Tags of a test *)

Lemma collectTags_spec test :
  collectTags test
  = extractTagsFromString (title test)
      ++ flat_map extractTagsFromString (ancestorTitles test).
Proof.
  unfold collectTags. simpl.
  generalize (extractTagsFromString (title test)).
  induction (ancestorTitles test) as [|a l IH]; intros acc; simpl.
  - by rewrite app_nil_r.
  - rewrite IH. by rewrite <- app_assoc.
Qed.

Lemma extractTagsFromTest_empty test :
  collectTags test = [] →
  extractTagsFromTest test = [ {| tag_id := 2; tag_name := "default" |} ].
Proof.
  intros H. unfold extractTagsFromTest. rewrite H. simpl.
  unfold dedup_step. simpl.
  destruct (decide ("default" ∈ (∅ : gset string))) as [Hin|_]; [set_solver|done].
Qed.

Lemma extractTagsFromTest_nonempty test :
  collectTags test ≠ [] →
  extractTagsFromTest test
  = uniqueTags (foldl dedup_step
                  {| uniqueTagNames := ∅; uniqueTags := []; tagId := 1 |}
                  (collectTags test)).
Proof.
  intros H. unfold extractTagsFromTest.
  destruct (collectTags test) as [|t l]; [done|]. done.
Qed.

Lemma extractTagsFromTest_names test :
  collectTags test ≠ [] →
  map tag_name (extractTagsFromTest test)
  = first_occurrences (map tag_name (collectTags test)).
Proof.
  intros H. rewrite extractTagsFromTest_nonempty by done.
  destruct (dedup_foldl (collectTags test)
              {| uniqueTagNames := ∅; uniqueTags := []; tagId := 1 |}) as [Hn _].
  simpl in Hn. by rewrite Hn.
Qed.

Lemma extractTagsFromTest_ids test i tag :
  collectTags test ≠ [] →
  extractTagsFromTest test !! i = Some tag →
  tag_id tag = (Z.of_nat i + 1)%Z.
Proof.
  intros H Hi. rewrite extractTagsFromTest_nonempty in Hi by done.
  destruct (dedup_foldl (collectTags test)
              {| uniqueTagNames := ∅; uniqueTags := []; tagId := 1 |}) as [_ Hids].
  simpl in Hids.
  assert (map tag_id (uniqueTags (foldl dedup_step
            {| uniqueTagNames := ∅; uniqueTags := []; tagId := 1 |}
            (collectTags test))) !! i = Some (tag_id tag)) as Hl.
  { change (map tag_id ?l) with (tag_id <$> l). by rewrite list_lookup_fmap, Hi. }
  rewrite Hids in Hl. apply lookup_seqZ in Hl as [-> _]. lia.
Qed.

Lemma extractTagsFromTest_NoDup test :
  NoDup (map tag_name (extractTagsFromTest test)).
Proof.
  destruct (collectTags test) as [|t l] eqn:Hc.
  - rewrite extractTagsFromTest_empty by done. simpl.
    apply NoDup_singleton.
  - rewrite extractTagsFromTest_names by (rewrite Hc; done).
    apply keep_first_NoDup.
Qed.

(** *** Strings without a marker *)

Lemma leftmost_none shape ok s o :
  leftmost_match shape ok s o →
  o = None ↔ ∀ i g, ¬ occurs_at shape ok s i g.
Proof.
  destruct o as [m|]; simpl; [|done].
  intros (Hok & (pre & Heq & Hlen) & _). split; [done|]. intros Hnone.
  destruct (Hnone (m_index m) (m_group m)). split; [done|]. eauto.
Qed.

(** A string has no marker exactly when none of the three searches finds
    a match in it. *)
Lemma no_marker_exec str :
  no_marker str
  ↔ bracketPattern_exec str = None ∧ atPattern_exec str = None
    ∧ hashPattern_exec str = None.
Proof.
  unfold no_marker, atPattern_exec, hashPattern_exec.
  rewrite (leftmost_none _ _ _ _ (bracketPattern_exec_leftmost str)).
  rewrite (leftmost_none _ _ _ _ (sigil_exec_leftmost "@" str)).
  rewrite (leftmost_none _ _ _ _ (sigil_exec_leftmost "#" str)).
  done.
Qed.

Lemma while_exec_none {A} exec (body : A → RegExpMatch → A) fuel str acc :
  exec str = None → while_exec exec body fuel str acc = acc.
Proof. intros H. destruct fuel; simpl; [done|]. by rewrite H. Qed.

Lemma extractTagsFromString_no_marker str :
  no_marker str → extractTagsFromString str = [].
Proof.
  intros (Hb & Ha & Hh)%no_marker_exec. unfold extractTagsFromString.
  by rewrite !while_exec_none.
Qed.

Lemma collectTags_no_marker test :
  no_marker (title test) → Forall no_marker (ancestorTitles test) →
  collectTags test = [].
Proof.
  intros Ht Ha. rewrite collectTags_spec.
  rewrite extractTagsFromString_no_marker by done. simpl.
  induction Ha as [|a l Hx _ IH]; simpl; [done|].
  by rewrite extractTagsFromString_no_marker, IH.
Qed.

(** The default tag of a test without markers carries id 2: the counter
    was advanced once for the default tag and is read again by the loop
    that rebuilds the list. *)
Lemma default_tag_without_markers test suiteStartTime suiteId specId :
  no_marker (title test) → Forall no_marker (ancestorTitles test) →
  spec_tags (mapJestTestToSpecRun test suiteStartTime suiteId specId)
  = [ {| tag_id := 2; tag_name := "default" |} ].
Proof.
  intros Ht Ha. simpl. apply extractTagsFromTest_empty.
  by apply collectTags_no_marker.
Qed.

(** *** A sigil inside a bracket group *)

Lemma tag_char_plain c :
  is_tag_char c = true →
  not_close c = true ∧ is_white_space c = false ∧ Ascii.eqb c "," = false
  ∧ Ascii.eqb c "@" = false ∧ Ascii.eqb c "#" = false.
Proof. destruct c as [[] [] [] [] [] [] [] []]; vm_compute; intros H; done. Qed.

Lemma trimStart_id s :
  (∀ x, x ∈ chars s → is_white_space x = false) → trimStart s = s.
Proof.
  destruct s as [|c r]; simpl; [done|]. intros H.
  rewrite (H c); [done|]. unfold chars. simpl. set_solver.
Qed.

Lemma trimEnd_id s :
  (∀ x, x ∈ chars s → is_white_space x = false) → trimEnd s = s.
Proof.
  induction s as [|c r IH]; simpl; [done|]. intros H.
  rewrite IH by (intros x Hx; apply H; unfold chars in *; simpl; set_solver).
  destruct r; [|done].
  rewrite (H c); [done|]. unfold chars. simpl. set_solver.
Qed.

Lemma trim_id s :
  (∀ x, x ∈ chars s → is_white_space x = false) → trim s = s.
Proof. intros H. unfold trim. by rewrite trimStart_id, trimEnd_id. Qed.

Lemma split_id s :
  (∀ x, x ∈ chars s → Ascii.eqb x "," = false) → split "," s = [s].
Proof.
  induction s as [|c r IH]; simpl; [done|]. intros H.
  rewrite (H c) by (unfold chars; simpl; set_solver).
  rewrite IH; [done|]. intros x Hx. apply H. unfold chars in *. simpl. set_solver.
Qed.

Lemma sigil_exec_absent sigil s :
  (∀ x, x ∈ chars s → Ascii.eqb x sigil = false) → sigil_exec sigil s = None.
Proof.
  induction s as [|c r IH]; simpl; [done|]. intros H.
  rewrite (H c) by (unfold chars; simpl; set_solver).
  rewrite IH; [done|]. intros x Hx. apply H. unfold chars in *. simpl. set_solver.
Qed.

Lemma while_exec_once {A} exec (body : A → RegExpMatch → A) n s acc m :
  exec s = Some m → exec (m_rest m) = None →
  while_exec exec body (S (S n)) s acc = body acc m.
Proof. intros H1 H2. simpl. by rewrite H1, H2. Qed.

Section SigilInBrackets.

Variable sigil : ascii.
Variable name : string.
Hypothesis sigil_at_or_hash : sigil = "@"%char ∨ sigil = "#"%char.
Hypothesis name_nonempty : name ≠ "".
Hypothesis name_tag_chars : ∀ x, x ∈ chars name → is_tag_char x = true.

#[local] Abbreviation inner := (sigil_shape sigil name).
#[local] Abbreviation text := (bracket_shape (sigil_shape sigil name)).

Lemma inner_plain x : x ∈ chars inner →
  not_close x = true ∧ is_white_space x = false ∧ Ascii.eqb x "," = false.
Proof.
  unfold sigil_shape, chars. simpl. rewrite elem_of_cons. intros [->|Hx].
  - destruct sigil_at_or_hash as [-> | ->]; done.
  - apply name_tag_chars, tag_char_plain in Hx. tauto.
Qed.

Lemma bracket_loop_inner :
  while_exec bracketPattern_exec bracket_body (String.length text) text []
  = [candidate inner].
Proof.
  assert (bracketPattern_exec text
          = Some {| m_index := 0; m_group := inner; m_rest := "" |}) as Hm.
  { unfold bracket_shape. cbn [bracketPattern_exec]. rewrite Ascii.eqb_refl.
    rewrite (span_run not_close inner "]" "");
      [done | intros x Hx; by apply inner_plain | done]. }
  unfold bracket_shape at 1, sigil_shape at 1. simpl String.length.
  rewrite app_length_string. simpl String.length.
  replace (String.length name + 1) with (S (String.length name)) by lia.
  rewrite (while_exec_once _ _ _ _ _ _ Hm) by done.
  rewrite bracket_body_spec. simpl. unfold bracket_names_of.
  rewrite split_id by (intros x Hx; by apply inner_plain). simpl.
  rewrite trim_id by (intros x Hx; by apply inner_plain). done.
Qed.

Lemma sigil_loop_same acc :
  while_exec (sigil_exec sigil) sigil_body (String.length text) text acc
  = acc ++ [candidate name].
Proof.
  assert (sigil_exec sigil text
          = Some {| m_index := 1; m_group := name; m_rest := "]" |}) as Hm.
  { unfold bracket_shape, sigil_shape. cbn [sigil_exec String.append].
    assert (Ascii.eqb "[" sigil = false) as ->
      by (destruct sigil_at_or_hash as [-> | ->]; done).
    rewrite Ascii.eqb_refl.
    rewrite (span_run is_tag_char name "]" ""); [|done..].
    destruct name; done. }
  unfold bracket_shape at 1, sigil_shape at 1. simpl String.length.
  rewrite app_length_string. simpl String.length.
  replace (String.length name + 1) with (S (String.length name)) by lia.
  rewrite (while_exec_once _ _ _ _ _ _ Hm); [done|].
  simpl. destruct sigil_at_or_hash as [-> | ->]; done.
Qed.

Lemma sigil_loop_other other acc :
  (other = "@"%char ∨ other = "#"%char) → other ≠ sigil →
  while_exec (sigil_exec other) sigil_body (String.length text) text acc = acc.
Proof.
  intros Ho Hne. apply while_exec_none, sigil_exec_absent.
  intros x. unfold bracket_shape, sigil_shape, chars. simpl. rewrite chars_app.
  rewrite !elem_of_cons, elem_of_app. intros [->|[->|[Hx|Hx]]].
  - destruct Ho as [-> | ->]; done.
  - apply Ascii.eqb_neq. congruence.
  - apply name_tag_chars, tag_char_plain in Hx.
    destruct Ho as [-> | ->]; tauto.
  - simpl in Hx. apply list_elem_of_singleton in Hx as ->.
    destruct Ho as [-> | ->]; done.
Qed.

Lemma extractTagsFromString_sigil_in_brackets :
  extractTagsFromString text = [candidate inner; candidate name].
Proof.
  unfold extractTagsFromString, atPattern_exec, hashPattern_exec.
  rewrite bracket_loop_inner.
  destruct sigil_at_or_hash as [Hs|Hs].
  - rewrite <- Hs at 1. rewrite sigil_loop_same.
    rewrite sigil_loop_other; [done|by right|]. rewrite Hs. done.
  - rewrite (sigil_loop_other "@"); [|by left|by rewrite Hs].
    rewrite <- Hs at 1. by rewrite sigil_loop_same.
Qed.

Lemma inner_differs : inner ≠ name.
Proof.
  intros H. apply (f_equal String.length) in H. unfold sigil_shape in H.
  simpl in H. lia.
Qed.

Lemma extractTagsFromTest_sigil_in_brackets test :
  title test = text → ancestorTitles test = [] →
  extractTagsFromTest test
  = [ {| tag_id := 1; tag_name := inner |}; {| tag_id := 2; tag_name := name |} ].
Proof.
  intros Ht Ha.
  assert (collectTags test = [candidate inner; candidate name]) as Hc.
  { rewrite collectTags_spec, Ht, Ha. simpl.
    by rewrite extractTagsFromString_sigil_in_brackets. }
  rewrite extractTagsFromTest_nonempty by (by rewrite Hc).
  rewrite Hc. simpl. unfold dedup_step at 2. simpl.
  destruct (decide (inner ∈ (∅ : gset string))) as [?|_]; [set_solver|].
  unfold dedup_step. simpl.
  destruct (decide (name ∈ ({[inner]} ∪ ∅ : gset string))) as [Hin|_]; [|done].
  pose proof inner_differs. set_solver.
Qed.

End SigilInBrackets.

(** *** Status and message *)

Lemma normalized_passed s : mapJestStatusToFernStatus s = "passed" ↔ s = "passed".
Proof.
  unfold mapJestStatusToFernStatus.
  repeat (case_status; [split; congruence|]).
  split; congruence.
Qed.

Lemma normalized_failed s : mapJestStatusToFernStatus s = "failed" ↔ s = "failed".
Proof.
  unfold mapJestStatusToFernStatus.
  repeat (case_status; [split; congruence|]).
  split; congruence.
Qed.

(** C6. The status normaliser is total: it sends passed to passed, failed
    to failed, each of skipped, pending and disabled to skipped, todo to
    pending and every other string to unknown, and its value is always one
    of passed, failed, skipped, pending, unknown. *)
Theorem status_normalizer_total :
  mapJestStatusToFernStatus "passed" = "passed"
  ∧ mapJestStatusToFernStatus "failed" = "failed"
  ∧ mapJestStatusToFernStatus "skipped" = "skipped"
  ∧ mapJestStatusToFernStatus "pending" = "skipped"
  ∧ mapJestStatusToFernStatus "disabled" = "skipped"
  ∧ mapJestStatusToFernStatus "todo" = "pending"
  ∧ (∀ s, s ∉ ["passed"; "failed"; "skipped"; "pending"; "disabled"; "todo"] →
       mapJestStatusToFernStatus s = "unknown")
  ∧ (∀ s, mapJestStatusToFernStatus s
          ∈ ["passed"; "failed"; "skipped"; "pending"; "unknown"]).
Proof.
  repeat (split; [reflexivity|]). split.
  - intros s Hs. unfold mapJestStatusToFernStatus.
    repeat (case_status; [set_solver|]). done.
  - intros s. unfold mapJestStatusToFernStatus.
    repeat (case_status; [set_solver|]). set_solver.
Qed.

Lemma status_normalizer_total_witness :
  mapJestStatusToFernStatus "running" = "unknown".
Proof.
  apply (proj1 (proj2 (proj2 (proj2 (proj2 (proj2 (proj2
           status_normalizer_total))))))).
  intros H. repeat (apply elem_of_cons in H as [H|H]; [discriminate|]).
  by apply elem_of_nil in H.
Defined.

(** C2, counterexample. A skipped test that carries a failure message is
    mapped to a SpecRun with status "skipped" whose message is that text,
    not the empty string. *)
Lemma skipped_message_counterexample :
  spec_status (mapJestTestToSpecRun skipped_with_message 0 1 1) = "skipped"
  ∧ spec_message (mapJestTestToSpecRun skipped_with_message 0 1 1) = "E"
  ∧ ¬ (∀ test suiteStartTime suiteId specId,
         let run := mapJestTestToSpecRun test suiteStartTime suiteId specId in
         spec_status run = "passed" ∨ spec_status run = "skipped" →
         spec_message run = "").
Proof.
  split; [reflexivity|]. split; [reflexivity|]. intros H.
  specialize (H skipped_with_message 0%Z 1%Z 1%Z).
  simpl in H. discriminate H. by right.
Qed.

(** C2, amended. The message of the mapped SpecRun is empty when the
    normalised status is passed. When the status is failed it is the
    newline-joined failureMessages, or, when there are none, the
    newline-joined messages of the failureDetails, or, when there are
    neither, "Test failed". When the status is skipped (or any other
    status than passed and failed) it is empty only if the test carries
    no failure messages and no failure details, and the same joined text
    otherwise. *)
Theorem message_by_status test suiteStartTime suiteId specId :
  let run := mapJestTestToSpecRun test suiteStartTime suiteId specId in
  (spec_status run = "passed" → spec_message run = "")
  ∧ (spec_status run ≠ "passed" → failureMessages test ≠ [] →
       spec_message run = join newline (failureMessages test))
  ∧ (spec_status run ≠ "passed" → failureMessages test = [] →
       failureDetails test ≠ [] →
       spec_message run = join newline (map detail_message (failureDetails test)))
  ∧ (spec_status run = "failed" → failureMessages test = [] →
       failureDetails test = [] → spec_message run = "Test failed")
  ∧ (spec_status run ≠ "passed" → spec_status run ≠ "failed" →
       failureMessages test = [] → failureDetails test = [] →
       spec_message run = "").
Proof.
  simpl. unfold extractFailureMessage.
  rewrite normalized_passed, normalized_failed.
  destruct (String.eqb_spec (status test) "passed") as [Hp|Hp].
  { repeat split; intros; try done. rewrite Hp in *. done. }
  destruct (failureMessages test) as [|m ms] eqn:Hm;
    destruct (failureDetails test) as [|d ds] eqn:Hd;
    destruct (String.eqb_spec (status test) "failed") as [Hf|Hf];
    simpl; repeat split; intros; done.
Qed.

Lemma message_by_status_witness :
  spec_message (mapJestTestToSpecRun (a_test "passed" ["E"] [] "t" []) 0 1 1) = ""
  ∧ spec_message (mapJestTestToSpecRun (a_test "failed" ["E1"; "E2"] [] "t" []) 0 1 1)
    = "E1" +:+ newline +:+ "E2"
  ∧ spec_message (mapJestTestToSpecRun
                    (a_test "failed" []
                       [ {| detail_message := "D1"; detail_stack := None |};
                         {| detail_message := "D2"; detail_stack := None |} ]
                       "t" []) 0 1 1)
    = "D1" +:+ newline +:+ "D2"
  ∧ spec_message (mapJestTestToSpecRun (a_test "failed" [] [] "t" []) 0 1 1)
    = "Test failed"
  ∧ spec_message (mapJestTestToSpecRun (a_test "skipped" [] [] "t" []) 0 1 1) = "".
Proof.
  split; [|split; [|split; [|split]]].
  - apply (proj1 (message_by_status (a_test "passed" ["E"] [] "t" []) 0 1 1)).
    reflexivity.
  - apply (proj1 (proj2 (message_by_status
                           (a_test "failed" ["E1"; "E2"] [] "t" []) 0 1 1)));
      vm_compute; discriminate.
  - apply (proj1 (proj2 (proj2 (message_by_status
             (a_test "failed" []
                [ {| detail_message := "D1"; detail_stack := None |};
                  {| detail_message := "D2"; detail_stack := None |} ]
                "t" []) 0 1 1))));
      vm_compute; (reflexivity || discriminate).
  - apply (proj1 (proj2 (proj2 (proj2 (message_by_status
             (a_test "failed" [] [] "t" []) 0 1 1))))); reflexivity.
  - apply (proj2 (proj2 (proj2 (proj2 (message_by_status
             (a_test "skipped" [] [] "t" []) 0 1 1)))));
      vm_compute; (reflexivity || discriminate).
Defined.

(** *** Claims about tags *)

(** C1. On the fixture of the repository's own mapper test (title and
    ancestors without any marker) the mapped SpecRun carries the single
    tag "default", and its id is 2, not 1. *)
Theorem default_tag_has_id_2 :
  no_marker (title mockJestTest)
  ∧ Forall no_marker (ancestorTitles mockJestTest)
  ∧ spec_tags (mapJestTestToSpecRun mockJestTest 0 1 1)
    = [ {| tag_id := 2; tag_name := "default" |} ]
  ∧ spec_tags (mapJestTestToSpecRun mockJestTest 0 1 1)
    ≠ [ {| tag_id := 1; tag_name := "default" |} ].
Proof.
  assert (no_marker (title mockJestTest)) as Ht
    by (apply no_marker_exec; vm_compute; done).
  assert (Forall no_marker (ancestorTitles mockJestTest)) as Ha.
  { repeat constructor; apply no_marker_exec; vm_compute; done. }
  split; [exact Ht|]. split; [exact Ha|]. split.
  - by apply default_tag_without_markers.
  - rewrite default_tag_without_markers by done. discriminate.
Qed.

(** C5. The tags of a mapped SpecRun never repeat a name. Whenever the
    title and the ancestors produce at least one candidate (so whenever a
    name is produced more than once), the names kept are the first
    occurrences of the candidates' names in their order (title first,
    then each ancestor), later duplicates being dropped, and the tag at
    position i (from 0) has id i + 1. *)
Theorem tags_deduplicated test suiteStartTime suiteId specId :
  let tags := spec_tags (mapJestTestToSpecRun test suiteStartTime suiteId specId) in
  let candidates :=
    extractTagsFromString (title test)
      ++ flat_map extractTagsFromString (ancestorTitles test) in
  NoDup (map tag_name tags)
  ∧ (candidates ≠ [] →
       map tag_name tags = first_occurrences (map tag_name candidates)
       ∧ (∀ n, n ∈ map tag_name tags ↔ n ∈ map tag_name candidates)
       ∧ sublist (map tag_name tags) (map tag_name candidates)
       ∧ (∀ i tag, tags !! i = Some tag → tag_id tag = (Z.of_nat i + 1)%Z)).
Proof.
  simpl. rewrite <- collectTags_spec. split.
  - apply extractTagsFromTest_NoDup.
  - intros Hne. rewrite extractTagsFromTest_names by done. repeat split.
    + unfold first_occurrences. rewrite keep_first_elem. tauto.
    + unfold first_occurrences. rewrite keep_first_elem. set_solver.
    + apply keep_first_sublist.
    + intros i tag. by apply extractTagsFromTest_ids.
Qed.

Lemma tags_deduplicated_witness :
  spec_tags (mapJestTestToSpecRun (a_test "passed" [] [] "quick @fast" ["Group @fast [x]"])
               0 1 1)
  = [ {| tag_id := 1; tag_name := "fast" |}; {| tag_id := 2; tag_name := "x" |} ]
  ∧ map tag_name
      (spec_tags (mapJestTestToSpecRun
                    (a_test "passed" [] [] "quick @fast" ["Group @fast [x]"]) 0 1 1))
    = first_occurrences ["fast"; "x"; "fast"].
Proof.
  split; [vm_compute; reflexivity|].
  refine (proj1 (proj2 (tags_deduplicated
            (a_test "passed" [] [] "quick @fast" ["Group @fast [x]"]) 0 1 1) _)).
  vm_compute. discriminate.
Defined.

(** C7. On "should work [unit] @fast #integration" the extractor returns
    unit, fast, integration in that order. For every string the
    candidates are the bracket names, then the at names, then the hash
    names. The matches of each pattern are listed left to right: each is
    an occurrence of the pattern at its index, a later one starts at or
    after the end of an earlier one, and no occurrence outside the listed
    ones is skipped. The names of one bracket group follow the order of
    its pieces, and the length of the string is enough fuel. *)
Theorem extractTagsFromString_order :
  extractTagsFromString "should work [unit] @fast #integration"
  = [candidate "unit"; candidate "fast"; candidate "integration"]
  ∧ ∀ str,
      extractTagsFromString str
      = map candidate (bracket_names str ++ at_names str ++ hash_names str)
      ∧ left_to_right bracket_shape bracket_group str
          (matchAll bracketPattern_exec str)
      ∧ left_to_right (sigil_shape "@") tag_word str (matchAll atPattern_exec str)
      ∧ left_to_right (sigil_shape "#") tag_word str (matchAll hashPattern_exec str)
      ∧ (∀ exec fuel, exec ∈ [bracketPattern_exec; atPattern_exec; hashPattern_exec] →
           String.length str ≤ fuel →
           matches_from exec fuel 0 str = matchAll exec str).
Proof.
  split; [vm_compute; reflexivity|]. intros str.
  split; [apply extractTagsFromString_spec|].
  split; [apply matchAll_left_to_right;
          [apply bracketPattern_exec_leftmost | apply bracket_shape_nonempty]|].
  split; [apply matchAll_left_to_right;
          [apply sigil_exec_leftmost | apply sigil_shape_nonempty]|].
  split; [apply matchAll_left_to_right;
          [apply sigil_exec_leftmost | apply sigil_shape_nonempty]|].
  intros exec fuel Hin Hfuel. unfold matchAll.
  rewrite !elem_of_cons in Hin. destruct Hin as [->|[->|[->|Hin]]].
  - eapply (matches_from_fuel _ _ _ bracketPattern_exec_leftmost
              bracket_shape_nonempty); done.
  - eapply (matches_from_fuel _ _ _ (sigil_exec_leftmost "@")
              (sigil_shape_nonempty "@")); done.
  - eapply (matches_from_fuel _ _ _ (sigil_exec_leftmost "#")
              (sigil_shape_nonempty "#")); done.
  - by apply elem_of_nil in Hin.
Qed.

Lemma extractTagsFromString_order_witness :
  matches_from atPattern_exec 100 0 "a @b [@c,d] #e @f"
  = matchAll atPattern_exec "a @b [@c,d] #e @f"
  ∧ extractTagsFromString "a @b [@c,d] #e @f"
    = map candidate (["@c"; "d"] ++ ["b"; "c"; "f"] ++ ["e"]).
Proof.
  split.
  - apply (proj2 (proj2 (proj2 (proj2
             (proj2 extractTagsFromString_order "a @b [@c,d] #e @f"))))).
    + set_solver.
    + vm_compute. lia.
  - apply (proj1 (proj2 extractTagsFromString_order "a @b [@c,d] #e @f")).
Defined.

(** C10. The patterns are applied independently to the whole string: a
    bracket group holding an at- or hash-mention yields the trimmed group
    text with its sigil and, from the sigil's own pattern, the bare name.
    "[@fast]" yields "@fast" and "fast", and both survive the
    deduplication, with ids 1 and 2. *)
Theorem sigil_inside_brackets_two_names :
  extractTagsFromString "[@fast]" = [candidate "@fast"; candidate "fast"]
  ∧ extractTagsFromTest (a_test "passed" [] [] "[@fast]" [])
    = [ {| tag_id := 1; tag_name := "@fast" |}; {| tag_id := 2; tag_name := "fast" |} ]
  ∧ (∀ str, extractTagsFromString str
            = map candidate (bracket_names str ++ at_names str ++ hash_names str))
  ∧ ∀ sigil name,
      sigil = "@"%char ∨ sigil = "#"%char →
      name ≠ "" →
      (∀ x, x ∈ chars name → is_tag_char x = true) →
      extractTagsFromString (String "[" (String sigil name +:+ "]"))
      = [candidate (String sigil name); candidate name]
      ∧ String sigil name ≠ name
      ∧ ∀ test,
          title test = String "[" (String sigil name +:+ "]") →
          ancestorTitles test = [] →
          extractTagsFromTest test
          = [ {| tag_id := 1; tag_name := String sigil name |};
              {| tag_id := 2; tag_name := name |} ].
Proof.
  split; [vm_compute; reflexivity|]. split; [vm_compute; reflexivity|].
  split; [apply extractTagsFromString_spec|].
  intros sigil name Hs Hn Hc. split; [|split].
  - by apply extractTagsFromString_sigil_in_brackets.
  - apply inner_differs.
  - intros test. by apply extractTagsFromTest_sigil_in_brackets.
Qed.

Lemma sigil_inside_brackets_two_names_witness :
  extractTagsFromString "[#slow-1]" = [candidate "#slow-1"; candidate "slow-1"].
Proof.
  apply (proj2 (proj2 (proj2 sigil_inside_brackets_two_names)) "#"%char "slow-1").
  - by right.
  - discriminate.
  - intros x Hx. vm_compute in Hx.
    repeat (apply elem_of_cons in Hx as [->|Hx]; [reflexivity|]).
    by apply elem_of_nil in Hx.
Defined.

(** *** The summary counts *)

Lemma reduce_sum (f : list SpecRun → nat) (suites : list SuiteRun) :
  (∀ a b, f (a ++ b) = f a + f b) →
  ∀ sum, foldl (λ sum suite, sum + f (spec_runs suite)) sum suites
         = sum + f (flat_map spec_runs suites).
Proof.
  intros Hf. assert (f [] = 0) as H0.
  { specialize (Hf [] []). simpl in Hf. lia. }
  induction suites as [|x l IH]; intros sum; simpl.
  - lia.
  - rewrite IH, Hf. lia.
Qed.

Lemma count_status_app st a b :
  count_status st (a ++ b) = count_status st a + count_status st b.
Proof. unfold count_status. by rewrite List.filter_app, length_app. Qed.

Lemma count_partition specs :
  length specs
  = count_status "passed" specs + count_status "failed" specs
    + count_status "skipped" specs + length (List.filter uncounted specs).
Proof.
  unfold count_status, uncounted.
  induction specs as [|x l IH]; [done|].
  cbn [List.filter]. generalize (spec_status x). intros st.
  destruct (String.eqb_spec st "passed") as [->|?]; simpl; [lia|].
  destruct (String.eqb_spec st "failed") as [->|?]; simpl; [lia|].
  destruct (String.eqb_spec st "skipped") as [->|?]; simpl; lia.
Qed.

(** C9. In the summary the total is the number of all SpecRuns, while the
    passed, failed and skipped counts take only the SpecRuns whose status
    is exactly that word. SpecRuns with status "pending" (what todo is
    normalised to) or "unknown" are in the total and in none of the three
    counts, so the three counts can stay below the total. *)
Theorem summary_counts :
  (∀ testRun,
     totalSpecs testRun = length (all_specs testRun)
     ∧ passedSpecs testRun = count_status "passed" (all_specs testRun)
     ∧ failedSpecs testRun = count_status "failed" (all_specs testRun)
     ∧ skippedSpecs testRun = count_status "skipped" (all_specs testRun)
     ∧ totalSpecs testRun
       = passedSpecs testRun + failedSpecs testRun + skippedSpecs testRun
         + length (List.filter uncounted (all_specs testRun))
     ∧ generateTestSummary testRun
       = join newline
           [ "Fern Test Run Summary:";
             "  Project: " +:+ test_project_id testRun;
             "  Branch: " +:+ git_branch testRun;
             "  Commit: " +:+ substring 0 8 (git_sha testRun);
             "  Suites: " +:+ show_nat (length (suite_runs testRun));
             tests_line (length (all_specs testRun))
               (count_status "passed" (all_specs testRun))
               (count_status "failed" (all_specs testRun))
               (count_status "skipped" (all_specs testRun)) ])
  ∧ (∀ spec, spec_status spec = "pending" ∨ spec_status spec = "unknown" →
       uncounted spec = true)
  ∧ mapJestStatusToFernStatus "todo" = "pending"
  ∧ totalSpecs run_with_todo = 4
  ∧ passedSpecs run_with_todo + failedSpecs run_with_todo
    + skippedSpecs run_with_todo = 2
  ∧ generateTestSummary run_with_todo
    = join newline
        [ "Fern Test Run Summary:";
          "  Project: test-project";
          "  Branch: main";
          "  Commit: abc123de";
          "  Suites: 2";
          "  Tests: 4 total, 1 passed, 0 failed, 1 skipped" ].
Proof.
  split; [|split; [|repeat split; vm_compute; reflexivity]].
  - intros testRun.
    assert (totalSpecs testRun = length (all_specs testRun)) as Ht.
    { unfold totalSpecs. rewrite (reduce_sum length); [done|].
      intros a b. apply length_app. }
    assert (∀ st, foldl (λ sum suite, sum + count_status st (spec_runs suite)) 0
                    (suite_runs testRun)
                  = count_status st (all_specs testRun)) as Hc.
    { intros st. rewrite (reduce_sum (count_status st)); [done|].
      apply count_status_app. }
    unfold generateTestSummary.
    unfold passedSpecs, failedSpecs, skippedSpecs. rewrite Ht, !Hc.
    repeat split. apply count_partition.
  - intros spec [H|H]; unfold uncounted; rewrite H; reflexivity.
Qed.

Lemma summary_counts_witness :
  uncounted (mapJestTestToSpecRun (a_test "todo" [] [] "later" []) 0 1 1) = true.
Proof.
  apply (proj1 (proj2 summary_counts)). left. reflexivity.
Defined.

End MapperFacts.

(** ** Properties of the transport client *)

Module ClientFacts.

Import JS Client ClientSpec.

(** *** One attempt *)

Lemma attempt_world transport config w :
  (attempt transport config w).2 = called w.
Proof. unfold attempt. destruct (transport (calls w)); [case in_range|]; done. Qed.

Lemma attempt_resolved transport config w response w' :
  attempt transport config w = (Resolved response, w') →
  transport (calls w) = Answer response
  ∧ in_range 200 300 (resp_status response) = true ∧ w' = called w.
Proof.
  unfold attempt. destruct (transport (calls w)) as [r|c m]; [|done].
  destruct (in_range 200 300 (resp_status r)) eqn:H; [|done].
  by intros [= -> <-].
Qed.

Lemma attempt_rejected transport config w error w' :
  attempt transport config w = (Rejected error, w') →
  err_config error = Some config ∧ w' = called w
  ∧ match transport (calls w) with
    | Answer response =>
        in_range 200 300 (resp_status response) = false
        ∧ err_response error = Some response
        ∧ err_code error
          = (if in_range 400 500 (resp_status response) then Some "ERR_BAD_REQUEST"
             else if in_range 500 600 (resp_status response)
             then Some "ERR_BAD_RESPONSE" else None)
    | Failure code message =>
        err_response error = None ∧ err_code error = code
    end.
Proof.
  unfold attempt. destruct (transport (calls w)) as [r|c m].
  - destruct (in_range 200 300 (resp_status r)) eqn:H; [done|].
    by intros [= <- <-].
  - by intros [= <- <-].
Qed.

(** *** The interceptor on a client error *)

(** An error that carries a response outside [500,600) and none of the
    four network codes is passed on at once: the client is not called
    again, nothing is waited for, nothing is printed. *)
Lemma retryInterceptor_terminal retries retryDelay again error response w :
  err_response error = Some response →
  in_range 500 600 (resp_status response) = false →
  code_is error "ECONNABORTED" = false → code_is error "ENOTFOUND" = false →
  code_is error "ECONNRESET" = false → code_is error "ECONNREFUSED" = false →
  ∃ error', retryInterceptor retries retryDelay again error w
            = Some (Rejected error', w)
            ∧ err_response error' = Some response.
Proof.
  intros Hr H5 H1 H2 H3 H4. unfold retryInterceptor.
  destruct (err_config error) as [config|]; [|eauto].
  destruct (count_reached (retryCount config) retries); [eauto|].
  unfold should_retry, code_is in *. simpl. rewrite Hr, H5. simpl.
  destruct (err_code error) as [c|]; simpl.
  - rewrite H1, H2, H3, H4. simpl. eauto.
  - eauto.
Qed.

(** *** Fuel *)

Lemma httpClient_returns transport retries retryDelay fuel : ∀ config w,
  budget retries config ≤ fuel →
  is_Some (httpClient fuel transport retries retryDelay config w).
Proof.
  induction fuel as [|fuel IH]; intros config w Hb.
  - unfold budget in Hb. destruct (retryCount config); lia.
  - simpl. destruct (attempt transport config w) as [[r|e] w'] eqn:Ha; [done|].
    apply attempt_rejected in Ha as (Hc & _ & _).
    unfold retryInterceptor. rewrite Hc.
    destruct (count_reached (retryCount config) retries) eqn:Hreach; [done|].
    match goal with |- context [should_retry ?e] => destruct (should_retry e) end;
      [|done].
    apply IH. unfold budget in *. simpl.
    destruct (retryCount config) as [c|]; simpl in *.
    + apply Z.leb_gt in Hreach. lia.
    + lia.
Qed.

Lemma httpClient_fuel_mono transport retries retryDelay fuel : ∀ fuel' config w r,
  httpClient fuel transport retries retryDelay config w = Some r →
  fuel ≤ fuel' →
  httpClient fuel' transport retries retryDelay config w = Some r.
Proof.
  induction fuel as [|fuel IH]; intros fuel' config w r; simpl; [done|].
  intros H Hle. destruct fuel' as [|fuel']; [lia|]. simpl.
  destruct (attempt transport config w) as [[resp|e] w']; [done|].
  unfold retryInterceptor in *.
  destruct (err_config e) as [cfg|]; [|done].
  destruct (count_reached (retryCount cfg) retries); [done|].
  match goal with |- context [should_retry ?e] => destruct (should_retry e) end;
    [|done].
  apply IH; [done|lia].
Qed.

(** The outcome of a request is the outcome of its last attempt. *)
Lemma httpClient_last transport retries retryDelay fuel : ∀ config w p w',
  httpClient fuel transport retries retryDelay config w = Some (p, w') →
  calls w < calls w'
  ∧ match p with
    | Resolved response =>
        transport (calls w' - 1) = Answer response
        ∧ in_range 200 300 (resp_status response) = true
    | Rejected error =>
        match transport (calls w' - 1) with
        | Answer response =>
            in_range 200 300 (resp_status response) = false
            ∧ err_response error = Some response
        | Failure code message => err_response error = None
        end
    end.
Proof.
  induction fuel as [|fuel IH]; intros config w p w'; simpl; [done|].
  destruct (attempt transport config w) as [[resp|e] w1] eqn:Ha.
  - intros [= <- <-]. apply attempt_resolved in Ha as (Ht & Hr & ->). simpl.
    rewrite Nat.sub_0_r. split; [lia|done].
  - apply attempt_rejected in Ha as (Hc & -> & Ht).
    assert (calls w < calls (called w)
            ∧ match transport (calls (called w) - 1) with
              | Answer response =>
                  in_range 200 300 (resp_status response) = false
                  ∧ err_response e = Some response
              | Failure _ _ => err_response e = None
              end) as Hhere.
    { simpl. rewrite Nat.sub_0_r. split; [lia|].
      destruct (transport (calls w)); tauto. }
    unfold retryInterceptor. rewrite Hc.
    destruct (count_reached (retryCount config) retries).
    { by intros [= <- <-]. }
    match goal with |- context [should_retry ?e] => destruct (should_retry e) end.
    + intros H. apply IH in H as [Hlt H]. simpl in Hlt. split; [lia|done].
    + by intros [= <- <-].
Qed.

(** No attempt before the last one received a response with a status in
    [200,300). *)
Lemma httpClient_earlier transport retries retryDelay fuel : ∀ config w p w' n,
  httpClient fuel transport retries retryDelay config w = Some (p, w') →
  calls w ≤ n < calls w' - 1 →
  match transport n with
  | Answer response => in_range 200 300 (resp_status response) = false
  | Failure _ _ => True
  end.
Proof.
  induction fuel as [|fuel IH]; intros config w p w' n; simpl; [done|].
  destruct (attempt transport config w) as [[resp|e] w1] eqn:Ha.
  - intros [= <- <-]. apply attempt_resolved in Ha as (_ & _ & ->). simpl. lia.
  - apply attempt_rejected in Ha as (Hc & -> & Ht).
    unfold retryInterceptor. rewrite Hc.
    destruct (count_reached (retryCount config) retries).
    { intros [= <- <-]. simpl. lia. }
    match goal with |- context [should_retry ?e] => destruct (should_retry e) end.
    + intros H Hn. destruct (decide (n = calls w)) as [->|Hne].
      * destruct (transport (calls w)); tauto.
      * eapply IH; [exact H|]. simpl. lia.
    + intros [= <- <-]. simpl. lia.
Qed.

(** *** Single steps of a request *)

Lemma in_range_true lo hi status :
  in_range lo hi status = true ↔ (lo ≤ status < hi)%Z.
Proof. unfold in_range. rewrite andb_true_iff, Z.leb_le, Z.ltb_lt. done. Qed.

Lemma in_range_false lo hi status :
  in_range lo hi status = false ↔ (status < lo ∨ hi ≤ status)%Z.
Proof. unfold in_range. rewrite andb_false_iff, Z.leb_gt, Z.ltb_ge. done. Qed.

Lemma httpClient_success transport retries retryDelay fuel config w response :
  transport (calls w) = Answer response →
  (200 ≤ resp_status response < 300)%Z →
  httpClient (S fuel) transport retries retryDelay config w
  = Some (Resolved response, called w).
Proof.
  intros Ht Hs. simpl. unfold attempt. rewrite Ht.
  apply in_range_true in Hs. by rewrite Hs.
Qed.

Lemma httpClient_no_response transport retries retryDelay fuel config w code message :
  transport (calls w) = Failure code message →
  count_reached (retryCount config) retries = false →
  httpClient (S fuel) transport retries retryDelay config w
  = httpClient fuel transport retries retryDelay
      {| cfg_method := cfg_method config; cfg_url := cfg_url config;
         retryCount := Some (default 0 (retryCount config) + 1)%Z |}
      (slept (retryDelay * (default 0 (retryCount config) + 1))%Z
         (printed [LogRetry (default 0 (retryCount config) + 1)%Z retries]
            (called w))).
Proof.
  intros Ht Hc. simpl. unfold attempt. rewrite Ht.
  unfold retryInterceptor. simpl. by rewrite Hc.
Qed.

Lemma httpClient_client_error transport retries retryDelay fuel config w response :
  transport (calls w) = Answer response →
  (400 ≤ resp_status response < 500)%Z →
  retryCount config = None →
  ∃ error,
    httpClient (S fuel) transport retries retryDelay config w
    = Some (Rejected error, called w)
    ∧ err_response error = Some response.
Proof.
  intros Ht Hs Hc. simpl. unfold attempt. rewrite Ht.
  assert (in_range 200 300 (resp_status response) = false) as ->
    by (apply in_range_false; lia).
  assert (in_range 400 500 (resp_status response) = true) as ->
    by (apply in_range_true; lia).
  match goal with
  | |- context [retryInterceptor _ _ ?again ?e ?w] =>
      destruct (retryInterceptor_terminal retries retryDelay again e response w)
        as (error' & -> & Hr); try done
  end.
  - apply in_range_false; lia.
  - eauto.
Qed.

(** *** Claims about the client *)

(** C3. When the first attempt of a report call receives a response with
    a status in [400,500), report raises that error at once: the request
    is issued exactly once, no delay is waited and no retry is logged. *)
Theorem report_client_error_not_retried
    client createInput w response fuel :
  transport client (calls w) = Answer response →
  (400 ≤ resp_status response < 500)%Z →
  1 ≤ fuel →
  ∃ error w',
    report fuel client createInput w = Some (Rejected error, w')
    ∧ err_response error = Some response
    ∧ calls w' = calls w + 1
    ∧ sleeps w' = sleeps w
    ∧ console w'
      = console w
          ++ ErrorResponse (resp_status response) (resp_statusText response)
               :: match resp_data response with
                  | Some data => [ErrorResponseData data]
                  | None => []
                  end.
Proof.
  intros Ht Hs Hf. destruct fuel as [|fuel]; [lia|].
  destruct (httpClient_client_error (transport client) (client_retries client)
              (client_retryDelay client) fuel post_config w response Ht Hs eq_refl)
    as (error & Hsend & Hr).
  exists error, (printed (error_lines client error) (called w)).
  unfold report, send. rewrite Hsend.
  split; [done|]. split; [done|]. simpl. split; [lia|]. split; [done|].
  unfold error_lines. by rewrite Hr.
Qed.

Lemma report_client_error_not_retried_witness :
  ∃ error w',
    report 5 (createFernClient "test-project" no_options always_404)
      Mapper.run_with_todo fresh
    = Some (Rejected error, w')
    ∧ calls w' = 1 ∧ sleeps w' = [] ∧ console w' = [ErrorResponse 404 ""].
Proof.
  destruct (report_client_error_not_retried
              (createFernClient "test-project" no_options always_404)
              Mapper.run_with_todo fresh (response_of 404) 5)
    as (error & w' & Hrep & Hr & Hc & Hs & Hl);
    [reflexivity | by vm_compute | lia |].
  exists error, w'. split; [exact Hrep|]. split; [exact Hc|].
  split; [exact Hs | exact Hl].
Defined.

(** C4. When the transport gives no response on the first two attempts
    and a response with a status in [200,300) on the third, and the
    client's retry count is at least 3, report completes successfully and
    the transport is invoked exactly three times; the two delays waited
    are one and two times the retry delay. *)
Theorem report_succeeds_on_third_attempt
    client createInput w code1 message1 code2 message2 response fuel :
  (3 ≤ client_retries client)%Z →
  transport client (calls w) = Failure code1 message1 →
  transport client (calls w + 1) = Failure code2 message2 →
  transport client (calls w + 2) = Answer response →
  (200 ≤ resp_status response < 300)%Z →
  3 ≤ fuel →
  ∃ w',
    report fuel client createInput w = Some (Resolved (), w')
    ∧ calls w' = calls w + 3
    ∧ sleeps w'
      = sleeps w ++ [ (client_retryDelay client * 1)%Z;
                      (client_retryDelay client * 2)%Z ].
Proof.
  intros Hretries H1 H2 H3 Hs Hf.
  destruct fuel as [|[|[|fuel]]]; try lia.
  unfold report, send.
  rewrite (httpClient_no_response _ _ _ _ _ _ code1 message1); [|done..].
  rewrite (httpClient_no_response _ _ _ _ _ _ code2 message2);
    [| simpl; by rewrite <- H2, Nat.add_1_r | simpl; apply Z.leb_gt; lia].
  rewrite (httpClient_success _ _ _ _ _ _ response);
    [| simpl; rewrite <- H3; f_equal; lia | done].
  apply in_range_true in Hs. rewrite Hs.
  eexists. split; [reflexivity|]. simpl. split; [lia|].
  by rewrite <- app_assoc.
Qed.

Lemma report_succeeds_on_third_attempt_witness :
  ∃ w',
    report 4 (createFernClient "test-project" no_options fails_twice)
      Mapper.run_with_todo fresh = Some (Resolved (), w')
    ∧ calls w' = 3
    ∧ sleeps w' = [1000; 2000]%Z.
Proof.
  destruct (report_succeeds_on_third_attempt
              (createFernClient "test-project" no_options fails_twice)
              Mapper.run_with_todo fresh
              (Some "ECONNREFUSED") "connect ECONNREFUSED"
              (Some "ECONNREFUSED") "connect ECONNREFUSED"
              (response_of 201) 4)
    as (w' & Hrep & Hc & Hsl);
    [by vm_compute | reflexivity | reflexivity | reflexivity
     | by vm_compute | lia |].
  exists w'. rewrite Hrep. split; [reflexivity|]. split; [exact Hc | exact Hsl].
Defined.

(** C8. ping never raises: with enough fuel for the retries it returns a
    boolean, and whatever the fuel it does not reject. The boolean is
    true exactly when the health-check call ends with a response whose
    status is in [200,300), that is when the last attempt issued received
    such a response; every other outcome, no response or a response with
    another status, gives false. *)
Theorem ping_returns_boolean client w :
  (∀ fuel p w', ping fuel client w = Some (p, w') → ∃ b, p = Resolved b)
  ∧ ∀ fuel,
      Z.to_nat (client_retries client - 1) + 2 ≤ fuel →
      ∃ b w',
        ping fuel client w = Some (Resolved b, w')
        ∧ (b = true ↔
           ∃ response w1,
             send fuel client get_config w = Some (Resolved response, w1)
             ∧ (200 ≤ resp_status response < 300)%Z)
        ∧ (b = true ↔
           ∃ response,
             transport client (calls w' - 1) = Answer response
             ∧ (200 ≤ resp_status response < 300)%Z)
        ∧ (b = true ↔
           ∃ n response,
             calls w ≤ n < calls w'
             ∧ transport client n = Answer response
             ∧ (200 ≤ resp_status response < 300)%Z)
        ∧ (b = false ↔
           ∃ error w1, send fuel client get_config w = Some (Rejected error, w1)).
Proof.
  split.
  - intros fuel p w'. unfold ping.
    destruct (send fuel client get_config w) as [[[r|e] w1]|]; [| |done].
    + intros [= <- <-]. eauto.
    + intros [= <- <-]. eauto.
  - intros fuel Hfuel. unfold ping.
    destruct (httpClient_returns (transport client) (client_retries client)
                (client_retryDelay client) fuel get_config w Hfuel) as [[p w1] Hsend].
    unfold send. rewrite Hsend.
    pose proof (httpClient_last _ _ _ _ _ _ _ _ Hsend) as [Hlt Hlast].
    assert (∀ n, calls w ≤ n < calls w1 - 1 →
              match transport client n with
              | Answer response => in_range 200 300 (resp_status response) = false
              | Failure _ _ => True
              end) as Hearlier
      by (intros n; by eapply httpClient_earlier).
    destruct p as [r|e].
    + destruct Hlast as [Ht Hr]. rewrite Hr.
      exists true, w1. split; [done|]. apply in_range_true in Hr.
      split; [|split; [|split]].
      * split; [|done]. intros _. eauto.
      * split; [|done]. intros _. eauto.
      * split; [|done]. intros _. exists (calls w1 - 1), r.
        split; [lia|done].
      * split; [done|]. intros (error & w2 & [=]).
    + exists false, (printed [WarnHealthCheck e] w1). split; [done|]. simpl.
      split; [|split; [|split]].
      * split; [done|]. intros (r & w2 & [=] & _).
      * split; [done|]. intros (r & Ht & Hs). rewrite Ht in Hlast.
        destruct Hlast as [Hno _]. apply in_range_false in Hno. lia.
      * split; [done|]. intros (n & r & Hn & Ht & Hs).
        destruct (decide (n = calls w1 - 1)) as [->|Hne].
        -- rewrite Ht in Hlast. destruct Hlast as [Hno _].
           apply in_range_false in Hno. lia.
        -- specialize (Hearlier n). rewrite Ht in Hearlier.
           assert (in_range 200 300 (resp_status r) = false) as Hno
             by (apply Hearlier; lia).
           apply in_range_false in Hno. lia.
      * split; [|done]. intros _. eauto.
Qed.

Lemma ping_returns_boolean_witness :
  ping 4 (createFernClient "test-project" no_options fails_twice) fresh
  = Some (Resolved true,
          {| calls := 3; sleeps := [1000; 2000]%Z;
             console := [LogRetry 1 3; LogRetry 2 3] |})
  ∧ ∃ w', ping 4 (createFernClient "test-project" no_options unreachable) fresh
          = Some (Resolved false, w') ∧ calls w' = 4.
Proof.
  split; [reflexivity|].
  destruct (proj2 (ping_returns_boolean
                     (createFernClient "test-project" no_options unreachable) fresh)
                  4) as (b & w' & Hping & _ & _ & _ & _); [simpl; lia|].
  exists w'. rewrite Hping. vm_compute in Hping.
  injection Hping as <- <-. split; reflexivity.
Defined.

End ClientFacts.

(** ** Properties of suites and runs *)

Module SuitesFacts.

Import JS Mapper MapperSpec Suites SuitesSpec.

#[local] Arguments String.append : simpl nomatch.

(** *** Computations that read the clock *)

Lemma bind_Some {A B} (m : Timed A) (k : A → Timed B) n b n2 :
  bind m k n = Some (b, n2) ↔ ∃ a n1, m n = Some (a, n1) ∧ k a n1 = Some (b, n2).
Proof.
  unfold bind. destruct (m n) as [[a n1]|]; split.
  - eauto.
  - by intros (a' & n1' & [= -> ->] & H).
  - done.
  - by intros (a' & n1' & [=] & _).
Qed.

Lemma throwing_Some {A} (o : option A) n a n1 :
  throwing o n = Some (a, n1) ↔ o = Some a ∧ n1 = n.
Proof. unfold throwing. destruct o; naive_solver. Qed.

Lemma toISOString_Some ms t : toISOString ms = Some t ↔ valid_time ms = true ∧ t = ISO ms.
Proof. unfold toISOString. destruct (valid_time ms); naive_solver. Qed.

Lemma mapJestTestToSpecRun_call_Some test start suiteId specId spec :
  mapJestTestToSpecRun_call test start suiteId specId = Some spec
  ↔ valid_time start = true
    ∧ valid_time (start + default 0%Z (duration test)) = true
    ∧ spec = mapJestTestToSpecRun test start suiteId specId.
Proof.
  unfold mapJestTestToSpecRun_call, toISOString.
  destruct (valid_time start), (valid_time (start + default 0%Z (duration test)));
    naive_solver.
Qed.

(** *** Suite names *)

(** A text with a test suffix at its end, and something before it, is
    not itself one of the suffixes. *)
Lemma longer_than_suffix c rest suffix :
  suffix ∈ test_suffixes →
  existsb (String.eqb (String c (rest +:+ suffix))) test_suffixes = false.
Proof.
  intros Hin. apply not_true_is_false. intros Hex.
  apply existsb_exists in Hex as (other & Hother & Heq).
  apply String.eqb_eq in Heq. apply list_elem_of_In in Hother.
  assert (String.length (String c (rest +:+ suffix)) = String.length other) as Hlen
    by (by rewrite Heq).
  simpl in Hlen. rewrite MapperFacts.app_length_string in Hlen.
  unfold test_suffixes in *.
  repeat (apply elem_of_cons in Hin as [->|Hin]);
    try (by apply elem_of_nil in Hin);
    repeat (apply elem_of_cons in Hother as [->|Hother]);
    try (by apply elem_of_nil in Hother);
    simpl in Hlen; try lia;
    (destruct rest as [|? rest]; simpl in Hlen; [|lia]);
    simpl in Heq; discriminate Heq.
Qed.

Lemma replace_test_suffix_app name suffix :
  suffix ∈ test_suffixes → replace_test_suffix (name +:+ suffix) = name.
Proof.
  intros Hin. induction name as [|c rest IH].
  - simpl. destruct suffix as [|c s].
    + unfold test_suffixes in Hin. set_solver.
    + cbn [String.append replace_test_suffix].
      assert (existsb (String.eqb (String c s)) test_suffixes = true) as ->; [|done].
      apply existsb_exists. exists (String c s). split.
      * by apply list_elem_of_In.
      * apply String.eqb_refl.
  - cbn [String.append replace_test_suffix].
    change (String c (rest +:+ suffix)) with (String c (rest +:+ suffix)).
    rewrite (longer_than_suffix c rest suffix Hin). by rewrite IH.
Qed.


Lemma split_nonempty sep s : split sep s ≠ [].
Proof.
  destruct s as [|c r]; simpl; [done|].
  destruct (Ascii.eqb c sep); [done|]. by destruct (split sep r).
Qed.

(** Splitting around one separator splits both sides. *)
Lemma split_app sep a b :
  split sep (a +:+ String sep b) = split sep a ++ split sep b.
Proof.
  induction a as [|c a IH]; simpl.
  - by rewrite Ascii.eqb_refl.
  - rewrite IH. destruct (Ascii.eqb c sep); [done|].
    pose proof (split_nonempty sep a). by destruct (split sep a).
Qed.

Lemma split_whole sep s :
  (∀ x, x ∈ chars s → x ≠ sep) → split sep s = [s].
Proof.
  unfold chars. induction s as [|c r IH]; simpl; [done|]. intros H.
  destruct (Ascii.eqb_spec c sep) as [->|_]; [destruct (H sep); set_solver|].
  rewrite IH; [done|]. intros x Hx. apply H. set_solver.
Qed.

Lemma last_app_nonempty {A} (l1 l2 : list A) d :
  l2 ≠ [] → List.last (l1 ++ l2) d = List.last l2 d.
Proof.
  intros H. induction l1 as [|x l1 IH]; simpl; [done|].
  rewrite IH. destruct (l1 ++ l2) eqn:E; [|done].
  apply app_eq_nil in E as [_ ->]. done.
Qed.

Lemma last_segment_app dir file :
  last_segment (dir +:+ String "/" file) = last_segment file.
Proof.
  unfold last_segment. rewrite split_app.
  apply last_app_nonempty, split_nonempty.
Qed.

Lemma last_segment_whole file :
  (∀ x, x ∈ chars file → x ≠ "/"%char) → last_segment file = file.
Proof. intros H. unfold last_segment. by rewrite split_whole. Qed.

Lemma test_suffix_chars suffix :
  suffix ∈ test_suffixes →
  suffix ≠ "" ∧ (∀ x, x ∈ chars suffix → x ≠ "/"%char)
  ∧ List.last (chars suffix) "/"%char ≠ "/"%char.
Proof.
  unfold test_suffixes. intros Hin.
  repeat (apply elem_of_cons in Hin as [->|Hin]);
    try (by apply elem_of_nil in Hin);
    (split; [done|]; split; [|vm_compute; discriminate]);
    intros x Hx; vm_compute in Hx;
    repeat (apply elem_of_cons in Hx as [->|Hx]; [discriminate|]);
    by apply elem_of_nil in Hx.
Qed.

Lemma replace_test_suffix_none s :
  ¬ has_test_suffix s → replace_test_suffix s = s.
Proof.
  induction s as [|c r IH]; intros Hno.
  - simpl. done.
  - cbn [replace_test_suffix].
    destruct (existsb (String.eqb (String c r)) test_suffixes) eqn:Hex.
    + apply existsb_exists in Hex as (suffix & Hin & Heq).
      apply String.eqb_eq in Heq. destruct Hno.
      exists "", suffix. split; [by apply list_elem_of_In|done].
    + rewrite IH; [done|]. intros (name & suffix & Hin & ->).
      apply Hno. exists (String c name), suffix. done.
Qed.

Lemma trailing_slash_no_suffix p : ¬ has_test_suffix (p +:+ "/").
Proof.
  intros (name & suffix & Hin & Heq).
  apply test_suffix_chars in Hin as (Hne & _ & Hlast).
  apply (f_equal chars) in Heq. rewrite !MapperFacts.chars_app in Heq.
  apply (f_equal (λ l, List.last l "/"%char)) in Heq.
  rewrite !last_app_nonempty in Heq.
  - simpl in Heq. by rewrite <- Heq in Hlast.
  - destruct suffix; done.
  - done.
Qed.


(** X1. A test file's suite name is its file name without the test
    suffix: for every directory, every file name without a slash and each
    of the eight suffixes (.test or .spec, then .js, .ts, .jsx or .tsx),
    the path directory/name+suffix, and the bare name+suffix, give
    name. *)
Theorem extractSuiteName_test_file dir name suffix :
  suffix ∈ test_suffixes →
  (∀ x, x ∈ chars name → x ≠ "/"%char) →
  extractSuiteName (dir +:+ String "/" (name +:+ suffix)) = name
  ∧ extractSuiteName (name +:+ suffix) = name.
Proof.
  intros Hin Hname.
  pose proof (test_suffix_chars suffix Hin) as (Hne & Hchars & _).
  assert (last_segment (name +:+ suffix) = name +:+ suffix) as Hlast.
  { apply last_segment_whole. intros x. rewrite MapperFacts.chars_app, elem_of_app.
    intros [Hx|Hx]; auto. }
  assert (truthy (name +:+ suffix) = true) as Htruthy.
  { destruct name; [|done]. destruct suffix; done. }
  unfold extractSuiteName. rewrite last_segment_app, Hlast, Htruthy.
  split; by apply replace_test_suffix_app.
Qed.

Lemma extractSuiteName_test_file_witness :
  extractSuiteName "/path/to/tests/calculator.test.ts" = "calculator".
Proof.
  apply (proj1 (extractSuiteName_test_file "/path/to/tests" "calculator" ".test.ts"
                  ltac:(vm_compute; set_solver)
                  ltac:(intros x Hx; vm_compute in Hx;
                        repeat (apply elem_of_cons in Hx as [->|Hx]; [discriminate|]);
                        by apply elem_of_nil in Hx))).
Defined.

(** X2. A path whose last segment is empty (it ends in a slash) is its
    own suite name, slashes included: nothing is taken from it. *)
Theorem extractSuiteName_trailing_slash p :
  extractSuiteName (p +:+ "/") = p +:+ "/".
Proof.
  unfold extractSuiteName.
  assert (last_segment (p +:+ "/") = "") as ->.
  { rewrite last_segment_app. reflexivity. }
  simpl. apply replace_test_suffix_none, trailing_slash_no_suffix.
Qed.

(** X3. Only the eight suffixes are removed: when the last segment of a
    path is not empty and does not end in one of them, the suite name is
    that whole segment, extension included. *)
Theorem extractSuiteName_other_file filePath :
  last_segment filePath ≠ "" →
  ¬ has_test_suffix (last_segment filePath) →
  extractSuiteName filePath = last_segment filePath.
Proof.
  intros Hne Hno. unfold extractSuiteName.
  destruct (last_segment filePath) eqn:E; [done|]. cbn [truthy].
  by apply replace_test_suffix_none.
Qed.


Lemma has_test_suffix_replace s :
  has_test_suffix s ↔ replace_test_suffix s ≠ s.
Proof.
  split.
  - intros (name & suffix & Hin & ->). rewrite replace_test_suffix_app by done.
    intros H. apply (f_equal String.length) in H.
    rewrite MapperFacts.app_length_string in H.
    apply test_suffix_chars in Hin as (Hne & _). destruct suffix; [done|].
    simpl in H. lia.
  - induction s as [|c r IH]; [done|]. cbn [replace_test_suffix].
    destruct (existsb (String.eqb (String c r)) test_suffixes) eqn:Hex.
    + intros _. apply existsb_exists in Hex as (suffix & Hin & Heq).
      apply String.eqb_eq in Heq. exists "", suffix.
      split; [by apply list_elem_of_In|done].
    + intros Hne. destruct IH as (name & suffix & Hin & ->); [congruence|].
      by exists (String c name), suffix.
Qed.

Lemma extractSuiteName_other_file_witness :
  extractSuiteName "/src/app.test.mjs" = "app.test.mjs".
Proof.
  apply (extractSuiteName_other_file "/src/app.test.mjs").
  - vm_compute. discriminate.
  - intros H. apply has_test_suffix_replace in H. apply H. vm_compute. reflexivity.
Defined.

(** *** Tests of a suite *)

Lemma start_or_now_Some clock start n s n1 :
  start_or_now clock start n = Some (s, n1)
  ↔ s = spec_start clock start n 0 ∧ n1 = n + reads_for start.
Proof.
  unfold start_or_now, spec_start, reads_for, ret, Date_now.
  destruct (truthy_number start); rewrite ?Nat.add_0_r, ?Nat.add_1_r; naive_solver.
Qed.

Lemma spec_start_shift clock start n i :
  spec_start clock start (n + reads_for start) i = spec_start clock start n (S i).
Proof.
  unfold spec_start, reads_for. destruct (truthy_number start); [done|].
  f_equal. lia.
Qed.

(** What a mapped list of tests holds, when the mapping returns. *)
Lemma map_tests_Some clock start suiteId tests : ∀ index n specs n',
  map_tests clock start suiteId index tests n = Some (specs, n') →
  n' = n + length tests * reads_for start
  ∧ length specs = length tests
  ∧ ∀ i spec, specs !! i = Some spec →
      ∃ test, tests !! i = Some test
        ∧ valid_time (spec_start clock start n i) = true
        ∧ valid_time (spec_start clock start n i + default 0%Z (duration test)) = true
        ∧ spec = mapJestTestToSpecRun test (spec_start clock start n i) suiteId
                   (index + Z.of_nat i + 1).
Proof.
  induction tests as [|test rest IH]; intros index n specs n'; simpl.
  - unfold ret. intros [= <- <-]. split; [lia|]. split; [done|].
    intros i spec H. by rewrite lookup_nil in H.
  - intros H.
    apply bind_Some in H as (s & n1 & Hs & H).
    apply start_or_now_Some in Hs as [-> ->].
    apply bind_Some in H as (spec0 & n2 & Hspec & H).
    apply throwing_Some in Hspec as [Hspec ->].
    apply mapJestTestToSpecRun_call_Some in Hspec as (Hv1 & Hv2 & ->).
    apply bind_Some in H as (specs0 & n3 & Hrest & H).
    unfold ret in H. injection H as <- <-.
    apply IH in Hrest as (-> & Hlen & Hall).
    split; [lia|]. split; [simpl; by rewrite Hlen|].
    intros [|i] spec; simpl.
    + intros [= <-]. exists test. split; [done|]. split; [done|]. split; [done|].
      f_equal. lia.
    + intros Hi. apply Hall in Hi as (t & Ht & Hw1 & Hw2 & ->).
      rewrite spec_start_shift in *. exists t. split; [done|].
      split; [done|]. split; [done|]. f_equal. lia.
Qed.

(** The mapping of a list of tests returns when every instant it has to
    render is in the range of [Date]. *)
Lemma map_tests_returns clock start suiteId tests : ∀ index n,
  (∀ i test, tests !! i = Some test →
     valid_time (spec_start clock start n i) = true
     ∧ valid_time (spec_start clock start n i + default 0%Z (duration test)) = true) →
  is_Some (map_tests clock start suiteId index tests n).
Proof.
  induction tests as [|test rest IH]; intros index n Hvalid; simpl; [done|].
  destruct (Hvalid 0 test eq_refl) as [Hv1 Hv2].
  unfold bind at 1.
  destruct (start_or_now clock start n) as [[s n1]|] eqn:Hs.
  2: { unfold start_or_now, ret, Date_now in Hs. by destruct (truthy_number start). }
  apply start_or_now_Some in Hs as [-> ->].
  unfold bind at 1, throwing, mapJestTestToSpecRun_call, toISOString.
  rewrite Hv1, Hv2.
  destruct (IH (index + 1)%Z (n + reads_for start)) as [[specs n2] Hrest].
  { intros i t Ht. rewrite spec_start_shift. by apply (Hvalid (S i)). }
  unfold bind. rewrite Hrest. done.
Qed.


(** *** Suites *)

Lemma instant_or_now_Some clock t n iso n1 :
  instant_or_now clock t n = Some (iso, n1)
  ↔ valid_time (spec_start clock t n 0) = true
    ∧ iso = ISO (spec_start clock t n 0) ∧ n1 = n + reads_for t.
Proof.
  unfold instant_or_now, spec_start, reads_for, bind, Date_now, throwing, toISOString.
  destruct (truthy_number t) as [v|]; rewrite ?Nat.add_0_r, ?Nat.add_1_r.
  - destruct (valid_time v); naive_solver.
  - destruct (valid_time (clock n)); naive_solver.
Qed.

(** What the mapping of a suite comes to. *)
Lemma mapJestSuiteToSuiteRun_Some clock suite testRunId suiteId n run n' :
  mapJestSuiteToSuiteRun clock suite testRunId suiteId n = Some (run, n')
  ↔ let n1 := n + reads_for (suite_startTime suite) in
    let n2 := n1 + reads_for (suite_endTime suite) in
    valid_time (spec_start clock (suite_startTime suite) n 0) = true
    ∧ valid_time (spec_start clock (suite_endTime suite) n1 0) = true
    ∧ ∃ specs,
        map_tests clock (suite_startTime suite) suiteId 0 (testResults suite) n2
        = Some (specs, n')
        ∧ run = {| suite_id := suiteId;
                   suite_test_run_id := testRunId;
                   suite_name := extractSuiteName (testFilePath suite);
                   suite_start_time := ISO (spec_start clock (suite_startTime suite) n 0);
                   suite_end_time := ISO (spec_start clock (suite_endTime suite) n1 0);
                   spec_runs := specs |}.
Proof.
  unfold mapJestSuiteToSuiteRun. cbv zeta. split.
  - intros H.
    apply bind_Some in H as (t1 & n1 & H1 & H).
    apply instant_or_now_Some in H1 as (Hv1 & -> & ->).
    apply bind_Some in H as (t2 & n2 & H2 & H).
    apply instant_or_now_Some in H2 as (Hv2 & -> & ->).
    apply bind_Some in H as (specs & n3 & H3 & H).
    unfold ret in H. injection H as <- <-. eauto 10.
  - intros (Hv1 & Hv2 & specs & Hm & ->).
    apply bind_Some. eexists _, _. split; [by apply instant_or_now_Some|].
    apply bind_Some. eexists _, _. split; [by apply instant_or_now_Some|].
    apply bind_Some. eexists _, _. split; [exact Hm|]. done.
Qed.

(** The shape of a mapped suite. *)
Lemma mapped_suite_shape clock suite testRunId suiteId n run n' :
  mapJestSuiteToSuiteRun clock suite testRunId suiteId n = Some (run, n') →
  suite_id run = suiteId
  ∧ suite_test_run_id run = testRunId
  ∧ suite_name run = extractSuiteName (testFilePath suite)
  ∧ length (spec_runs run) = length (testResults suite)
  ∧ ∀ i spec, spec_runs run !! i = Some spec →
      ∃ test, testResults suite !! i = Some test
        ∧ spec_id spec = (Z.of_nat i + 1)%Z
        ∧ spec_suite_id spec = suiteId
        ∧ spec_description spec = buildSpecDescription test
        ∧ spec_status spec = mapJestStatusToFernStatus (status test)
        ∧ spec_message spec = extractFailureMessage test
        ∧ spec_tags spec = extractTagsFromTest test.
Proof.
  intros H. apply mapJestSuiteToSuiteRun_Some in H as (_ & _ & specs & Hm & ->).
  apply map_tests_Some in Hm as (_ & Hlen & Hall). simpl.
  repeat (split; [done|]).
  intros i spec Hi. apply Hall in Hi as (test & Ht & _ & _ & ->).
  exists test. simpl. repeat (split; [done|]). done.
Qed.

(** X4. A mapped suite keeps the order and the number of its tests: the
    SpecRun at position i (from 0) has id i + 1, carries the suite's id
    as suite_id, and its description, status, message and tags are those
    of the test at position i. The suite carries the given ids and the
    name taken from its file path. *)
Theorem suite_run_structure clock suite testRunId suiteId n run n' :
  mapJestSuiteToSuiteRun clock suite testRunId suiteId n = Some (run, n') →
  suite_id run = suiteId
  ∧ suite_test_run_id run = testRunId
  ∧ suite_name run = extractSuiteName (testFilePath suite)
  ∧ length (spec_runs run) = length (testResults suite)
  ∧ ∀ i spec, spec_runs run !! i = Some spec →
      ∃ test, testResults suite !! i = Some test
        ∧ spec_id spec = (Z.of_nat i + 1)%Z
        ∧ spec_suite_id spec = suiteId
        ∧ spec_description spec = buildSpecDescription test
        ∧ spec_status spec = mapJestStatusToFernStatus (status test)
        ∧ spec_message spec = extractFailureMessage test
        ∧ spec_tags spec = extractTagsFromTest test.
Proof. apply mapped_suite_shape. Qed.


Lemma suite_run_structure_witness :
  ∃ run, mapJestSuiteToSuiteRun ticking mockJestSuite 7 1 0 = Some (run, 0)
         ∧ suite_name run = "calculator"
         ∧ map spec_id (spec_runs run) = [1; 2]%Z.
Proof.
  eexists. split; [vm_compute; reflexivity|].
  split; [|vm_compute; reflexivity].
  refine (proj1 (proj2 (proj2 (suite_run_structure ticking mockJestSuite 7 1 0 _ 0 _)))).
  vm_compute. reflexivity.
Defined.

(** X5. A suite with a start instant gives that instant to the suite and
    to every SpecRun as start_time, and start + duration (0 when the
    duration is absent) as the SpecRun's end_time. With an end instant
    too, the mapping reads no clock and gives the same result under every
    clock. *)
Theorem suite_with_start_time clock suite testRunId suiteId n run n' s :
  suite_startTime suite = Some s → s ≠ 0%Z →
  mapJestSuiteToSuiteRun clock suite testRunId suiteId n = Some (run, n') →
  suite_start_time run = ISO s
  ∧ (∀ i spec test, spec_runs run !! i = Some spec →
       testResults suite !! i = Some test →
       spec_start_time spec = ISO s
       ∧ spec_end_time spec = ISO (s + default 0%Z (duration test)))
  ∧ (∀ e, suite_endTime suite = Some e → e ≠ 0%Z →
       suite_end_time run = ISO e ∧ n' = n
       ∧ ∀ clock2 m,
           mapJestSuiteToSuiteRun clock2 suite testRunId suiteId m = Some (run, m)).
Proof.
  intros Hs Hs0 H.
  assert (truthy_number (suite_startTime suite) = Some s) as Ht.
  { rewrite Hs. simpl. by apply Z.eqb_neq in Hs0 as ->. }
  assert (∀ c m i, spec_start c (suite_startTime suite) m i = s) as Hstart
    by (intros; unfold spec_start; by rewrite Ht).
  assert (reads_for (suite_startTime suite) = 0) as Hr
    by (unfold reads_for; by rewrite Ht).
  pose proof H as H0.
  apply mapJestSuiteToSuiteRun_Some in H as (Hv1 & Hv2 & specs & Hm & ->).
  pose proof Hm as Hm0.
  apply map_tests_Some in Hm as (Hn & Hlen & Hall). simpl.
  rewrite !Hstart in *. split; [done|]. split.
  - intros i spec test Hi Hti. apply Hall in Hi as (t & Ht' & _ & _ & ->).
    rewrite Hstart. simplify_eq. done.
  - intros e He He0.
    assert (truthy_number (suite_endTime suite) = Some e) as Hte.
    { rewrite He. simpl. by apply Z.eqb_neq in He0 as ->. }
    assert (∀ c m i, spec_start c (suite_endTime suite) m i = e) as Hend
      by (intros; unfold spec_start; by rewrite Hte).
    assert (reads_for (suite_endTime suite) = 0) as Hre
      by (unfold reads_for; by rewrite Hte).
    rewrite Hend. split; [done|]. split; [rewrite Hn, Hr, Hre; lia|].
    intros clock2 m. apply mapJestSuiteToSuiteRun_Some. cbv zeta.
    rewrite !Hstart, !Hend, Hr, Hre, !Nat.add_0_r in *.
    split; [done|]. split; [done|]. exists specs. split; [|done].
    destruct (map_tests_returns clock2 (suite_startTime suite) suiteId
                (testResults suite) 0%Z m) as [[specs2 m2] Hm2].
    { intros i t Hti. rewrite Hstart.
      apply lookup_lt_Some in Hti as Hlt. rewrite <- Hlen in Hlt.
      apply lookup_lt_is_Some in Hlt as [spec Hspec].
      apply Hall in Hspec as (t' & Ht' & Hw1 & Hw2 & _). rewrite Hstart in *.
      by simplify_eq. }
    rewrite Hm2. apply map_tests_Some in Hm2 as (-> & Hlen2 & Hall2).
    rewrite Hr, Nat.mul_0_r, Nat.add_0_r. f_equal. f_equal.
    apply list_eq. intros i.
    destruct (specs2 !! i) as [spec2|] eqn:E2, (specs !! i) as [spec|] eqn:E.
    + apply Hall2 in E2 as (t2 & Ht2 & _ & _ & ->).
      apply Hall in E as (t & Ht' & _ & _ & ->).
      rewrite !Hstart. by simplify_eq.
    + apply lookup_lt_Some in E2. apply lookup_ge_None in E. lia.
    + apply lookup_lt_Some in E. apply lookup_ge_None in E2. lia.
    + done.
Qed.

Lemma suite_with_start_time_witness :
  ∃ run, mapJestSuiteToSuiteRun ticking mockJestSuite 7 1 0 = Some (run, 0)
         ∧ suite_start_time run = ISO 1699999999900
         ∧ map spec_end_time (spec_runs run)
           = [ISO 1699999999925; ISO 1699999999930].
Proof.
  eexists. split; [vm_compute; reflexivity|].
  split; [|vm_compute; reflexivity].
  refine (proj1 (suite_with_start_time ticking mockJestSuite 7 1 0 _ 0
                   1699999999900 eq_refl _ _)).
  - discriminate.
  - vm_compute. reflexivity.
Defined.




(** X7. The mapping of a suite is not total: it returns exactly when
    every instant it renders is within the range of Date (8.64e15 ms
    either side of the epoch), namely the suite's start and end (or the
    clock readings that stand in for them) and every test's start and
    start + duration; otherwise toISOString throws a RangeError. *)
Theorem suite_mapping_returns clock suite testRunId suiteId n :
  let n1 := n + reads_for (suite_startTime suite) in
  let n2 := n1 + reads_for (suite_endTime suite) in
  is_Some (mapJestSuiteToSuiteRun clock suite testRunId suiteId n)
  ↔ valid_time (spec_start clock (suite_startTime suite) n 0) = true
    ∧ valid_time (spec_start clock (suite_endTime suite) n1 0) = true
    ∧ ∀ i test, testResults suite !! i = Some test →
        valid_time (spec_start clock (suite_startTime suite) n2 i) = true
        ∧ valid_time (spec_start clock (suite_startTime suite) n2 i
                      + default 0%Z (duration test)) = true.
Proof.
  cbv zeta. split.
  - intros [[run n'] H].
    apply mapJestSuiteToSuiteRun_Some in H as (Hv1 & Hv2 & specs & Hm & ->).
    split; [done|]. split; [done|].
    apply map_tests_Some in Hm as (_ & Hlen & Hall).
    intros i test Hti. apply lookup_lt_Some in Hti as Hlt. rewrite <- Hlen in Hlt.
    apply lookup_lt_is_Some in Hlt as [spec Hspec].
    apply Hall in Hspec as (t & Ht' & Hw1 & Hw2 & _). by simplify_eq.
  - intros (Hv1 & Hv2 & Hall).
    destruct (map_tests_returns clock (suite_startTime suite) suiteId
                (testResults suite) 0%Z _ Hall) as [[specs n'] Hm].
    eexists (_, n'). apply mapJestSuiteToSuiteRun_Some. cbv zeta. eauto.
Qed.

Lemma suite_mapping_returns_witness :
  mapJestSuiteToSuiteRun ticking suite_out_of_range 7 1 0 = None
  ∧ is_Some (mapJestSuiteToSuiteRun ticking mockJestSuite 7 1 0).
Proof.
  split; [vm_compute; reflexivity|].
  apply (proj2 (suite_mapping_returns ticking mockJestSuite 7 1 0)).
  split; [vm_compute; reflexivity|]. split; [vm_compute; reflexivity|].
  intros [|[|i]] test; simpl; intros [= <-]; split; vm_compute; reflexivity.
Defined.


(** *** Runs *)

(** What a mapped list of suites holds, when the mapping returns. *)
Lemma map_suites_Some clock testRunId suites : ∀ index n runs n',
  map_suites clock testRunId index suites n = Some (runs, n') →
  length runs = length suites
  ∧ ∀ i run, runs !! i = Some run →
      ∃ suite m m', suites !! i = Some suite
        ∧ mapJestSuiteToSuiteRun clock suite testRunId (index + Z.of_nat i + 1) m
          = Some (run, m').
Proof.
  induction suites as [|suite rest IH]; intros index n runs n'; simpl.
  - unfold ret. intros [= <- <-]. split; [done|].
    intros i run H. by rewrite lookup_nil in H.
  - intros H.
    apply bind_Some in H as (run0 & n1 & Hrun & H).
    apply bind_Some in H as (runs0 & n2 & Hrest & H).
    unfold ret in H. injection H as <- <-.
    apply IH in Hrest as (Hlen & Hall).
    split; [simpl; by rewrite Hlen|].
    intros [|i] run; simpl.
    + intros [= <-]. exists suite, n, n1. split; [done|].
      by replace (index + Z.of_nat 0 + 1)%Z with (index + 1)%Z by lia.
    + intros Hi. apply Hall in Hi as (s & m & m' & Hs & Hmap).
      exists s, m, m'. split; [done|].
      by replace (index + Z.of_nat (S i) + 1)%Z
        with (index + 1 + Z.of_nat i + 1)%Z by lia.
Qed.

Lemma mapJestResultsToTestRun_Some clock hrtime seed_number results
    projectId projectName gitInfo ciInfo n run n' :
  mapJestResultsToTestRun clock hrtime seed_number results projectId projectName
    gitInfo ciInfo n = Some (run, n') →
  let testSeed := seed_number (clock (S n)) (Z.rem hrtime 1000000) in
  valid_time (agg_startTime results) = true
  ∧ valid_time (clock n) = true
  ∧ ∃ suiteRuns,
      map_suites clock testSeed 0 (agg_testResults results) (S (S n))
      = Some (suiteRuns, n')
      ∧ run = {| run_id := testSeed;
                 test_project_name := projectName;
                 test_project_id := projectId;
                 test_seed := testSeed;
                 run_start_time := ISO (agg_startTime results);
                 run_end_time := ISO (clock n);
                 git_branch := branch gitInfo;
                 git_sha := sha gitInfo;
                 build_trigger_actor := actor ciInfo;
                 build_url := buildUrl ciInfo;
                 client_type := "fern-jest-client";
                 suite_runs := suiteRuns |}.
Proof.
  unfold mapJestResultsToTestRun. cbv zeta. intros H.
  apply bind_Some in H as (t1 & n1 & H1 & H).
  apply throwing_Some in H1 as [H1 ->]. apply toISOString_Some in H1 as [Hv1 ->].
  apply bind_Some in H as (now1 & n2 & H2 & H).
  unfold Date_now in H2. injection H2 as <- <-.
  apply bind_Some in H as (t2 & n3 & H3 & H).
  apply throwing_Some in H3 as [H3 ->]. apply toISOString_Some in H3 as [Hv2 ->].
  apply bind_Some in H as (now2 & n4 & H4 & H).
  unfold Date_now in H4. injection H4 as <- <-.
  apply bind_Some in H as (suiteRuns & n5 & H5 & H).
  unfold ret in H. injection H as <- <-. eauto 10.
Qed.

(** X8. In a mapped run the id and the seed are one value, every SuiteRun
    carries it as test_run_id, the SuiteRun at position i (from 0) has id
    i + 1 and the name of the suite at position i, and each of its
    SpecRuns carries that id as suite_id. The number of suites is kept;
    branch, sha, actor and build URL are those of the providers. *)
Theorem test_run_structure clock hrtime seed_number results
    projectId projectName gitInfo ciInfo n run n' :
  mapJestResultsToTestRun clock hrtime seed_number results projectId projectName
    gitInfo ciInfo n = Some (run, n') →
  run_id run = test_seed run
  ∧ test_project_id run = projectId ∧ test_project_name run = projectName
  ∧ git_branch run = branch gitInfo ∧ git_sha run = sha gitInfo
  ∧ build_trigger_actor run = actor ciInfo ∧ build_url run = buildUrl ciInfo
  ∧ length (suite_runs run) = length (agg_testResults results)
  ∧ ∀ i suiteRun, suite_runs run !! i = Some suiteRun →
      ∃ suite, agg_testResults results !! i = Some suite
        ∧ suite_id suiteRun = (Z.of_nat i + 1)%Z
        ∧ suite_test_run_id suiteRun = run_id run
        ∧ suite_name suiteRun = extractSuiteName (testFilePath suite)
        ∧ length (spec_runs suiteRun) = length (testResults suite)
        ∧ ∀ j spec, spec_runs suiteRun !! j = Some spec →
            spec_suite_id spec = suite_id suiteRun
            ∧ spec_id spec = (Z.of_nat j + 1)%Z.
Proof.
  intros H.
  apply mapJestResultsToTestRun_Some in H as (_ & _ & suiteRuns & Hm & ->).
  simpl. repeat (split; [done|]).
  apply map_suites_Some in Hm as (Hlen & Hall). split; [done|].
  intros i suiteRun Hi. apply Hall in Hi as (suite & m & m' & Hs & Hmap).
  apply mapped_suite_shape in Hmap as (Hid & Hrid & Hname & Hl & Hspecs).
  exists suite. split; [done|]. split; [rewrite Hid; lia|].
  repeat (split; [done|]).
  intros j spec Hj. apply Hspecs in Hj as (test & _ & Hsid & Hsuite & _).
  rewrite Hid. done.
Qed.


Lemma test_run_structure_witness :
  ∃ run n',
    mapJestResultsToTestRun ticking 123456789 exact_seed
      mockAggregatedResult "test-project" "Test Project" mockGitInfo mockCIInfo 0
    = Some (run, n')
    ∧ run_id run = test_seed run
    ∧ map suite_id (suite_runs run) = [1; 2]%Z.
Proof.
  destruct (mapJestResultsToTestRun ticking 123456789 exact_seed
              mockAggregatedResult "test-project" "Test Project" mockGitInfo
              mockCIInfo 0) as [[run n']|] eqn:E; [|vm_compute in E; discriminate].
  exists run, n'. split; [reflexivity|].
  split; [exact (proj1 (test_run_structure _ _ _ _ _ _ _ _ _ _ _ E))|].
  vm_compute in E. injection E as <- <-. reflexivity.
Defined.

(** *** The summary of a mapped run *)

Lemma suite_statuses clock suite testRunId suiteId n run n' :
  mapJestSuiteToSuiteRun clock suite testRunId suiteId n = Some (run, n') →
  map spec_status (spec_runs run)
  = map (λ test, mapJestStatusToFernStatus (status test)) (testResults suite).
Proof.
  intros H. apply mapped_suite_shape in H as (_ & _ & _ & Hlen & Hall).
  apply list_eq. intros i.
  change (map ?f ?l) with (f <$> l). rewrite !list_lookup_fmap.
  destruct (spec_runs run !! i) as [spec|] eqn:E.
  - apply Hall in E as (test & Ht & _ & _ & _ & Hst & _).
    rewrite Ht. simpl. by rewrite Hst.
  - apply lookup_ge_None in E. rewrite Hlen in E.
    apply lookup_ge_None in E. by rewrite E.
Qed.

Lemma run_statuses clock testRunId suites : ∀ index n runs n',
  map_suites clock testRunId index suites n = Some (runs, n') →
  map spec_status (flat_map spec_runs runs)
  = map (λ test, mapJestStatusToFernStatus (status test))
        (flat_map testResults suites).
Proof.
  induction suites as [|suite rest IH]; intros index n runs n'; simpl.
  - unfold ret. by intros [= <- <-].
  - intros H.
    apply bind_Some in H as (run0 & n1 & Hrun & H).
    apply bind_Some in H as (runs0 & n2 & Hrest & H).
    unfold ret in H. injection H as <- <-. simpl.
    rewrite !map_app. f_equal; [by eapply suite_statuses|by eapply IH].
Qed.

Lemma count_status_statuses st specs :
  count_status st specs
  = length (List.filter (λ s, String.eqb s st) (map spec_status specs)).
Proof.
  unfold count_status. induction specs as [|x l IH]; simpl; [done|].
  destruct (String.eqb (spec_status x) st); simpl; by rewrite IH.
Qed.

Lemma count_jest_statuses st statuses tests :
  (∀ s, String.eqb (mapJestStatusToFernStatus s) st = existsb (String.eqb s) statuses) →
  length (List.filter (λ s, String.eqb s st)
            (map (λ test, mapJestStatusToFernStatus (status test)) tests))
  = count_jest statuses tests.
Proof.
  intros Heq. unfold count_jest. induction tests as [|x l IH]; simpl; [done|].
  rewrite Heq. destruct (existsb (String.eqb (status x)) statuses); simpl;
    by rewrite IH.
Qed.

Lemma normalized_in st statuses :
  (∀ s, mapJestStatusToFernStatus s = st ↔ s ∈ statuses) →
  ∀ s, String.eqb (mapJestStatusToFernStatus s) st = existsb (String.eqb s) statuses.
Proof.
  intros H s. apply eq_true_iff_eq.
  rewrite String.eqb_eq, H, existsb_exists. split.
  - intros Hin. exists s. split; [by apply list_elem_of_In|apply String.eqb_refl].
  - intros (x & Hin & Hx). apply String.eqb_eq in Hx as ->.
    by apply list_elem_of_In.
Qed.

Lemma normalized_skipped s :
  mapJestStatusToFernStatus s = "skipped" ↔ s ∈ ["skipped"; "pending"; "disabled"].
Proof.
  unfold mapJestStatusToFernStatus. rewrite !elem_of_cons, elem_of_nil.
  repeat (MapperFacts.case_status; [naive_solver congruence|]).
  naive_solver congruence.
Qed.

(** X9. The summary of a mapped run counts Jest's own statuses: the total
    is the number of tests of all suites, passed and failed count the
    tests Jest reported as passed and failed, and skipped counts the
    tests Jest reported as skipped, pending or disabled. *)
Theorem summary_of_mapped_run clock hrtime seed_number results
    projectId projectName gitInfo ciInfo n run n' :
  mapJestResultsToTestRun clock hrtime seed_number results projectId projectName
    gitInfo ciInfo n = Some (run, n') →
  totalSpecs run = length (all_tests results)
  ∧ passedSpecs run = count_jest ["passed"] (all_tests results)
  ∧ failedSpecs run = count_jest ["failed"] (all_tests results)
  ∧ skippedSpecs run
    = count_jest ["skipped"; "pending"; "disabled"] (all_tests results).
Proof.
  intros H.
  apply mapJestResultsToTestRun_Some in H as (_ & _ & suiteRuns & Hm & ->).
  apply run_statuses in Hm.
  unfold totalSpecs, passedSpecs, failedSpecs, skippedSpecs. simpl.
  rewrite (MapperFacts.reduce_sum length) by (intros; apply length_app).
  rewrite !(MapperFacts.reduce_sum (count_status _))
    by (intros; apply MapperFacts.count_status_app).
  rewrite !count_status_statuses, Hm. simpl. unfold all_tests.
  split.
  - rewrite <- (length_map spec_status), Hm. by rewrite length_map.
  - split; [|split]; apply count_jest_statuses, normalized_in.
    + intros s. rewrite MapperFacts.normalized_passed. set_solver.
    + intros s. rewrite MapperFacts.normalized_failed. set_solver.
    + apply normalized_skipped.
Qed.

Lemma summary_of_mapped_run_witness :
  ∃ run n',
    mapJestResultsToTestRun ticking 123456789 exact_seed
      mockAggregatedResult "test-project" "Test Project" mockGitInfo mockCIInfo 0
    = Some (run, n')
    ∧ totalSpecs run = 4 ∧ passedSpecs run = 2 ∧ failedSpecs run = 2
    ∧ skippedSpecs run = 0.
Proof.
  destruct (mapJestResultsToTestRun ticking 123456789 exact_seed
              mockAggregatedResult "test-project" "Test Project" mockGitInfo
              mockCIInfo 0) as [[run n']|] eqn:E; [|vm_compute in E; discriminate].
  exists run, n'. split; [reflexivity|].
  exact (summary_of_mapped_run _ _ _ _ _ _ _ _ _ _ _ E).
Defined.

End SuitesFacts.

(** ** More properties of descriptions and tags *)

Module TagsFacts.

Import JS Mapper MapperSpec Suites SuitesSpec.

#[local] Arguments String.append : simpl nomatch.

(** *** Descriptions *)

Lemma join_empty sep l :
  sep ≠ "" → join sep l = "" ↔ l = [] ∨ l = [""].
Proof.
  intros Hsep. unfold join. split.
  - destruct l as [|x [|y l]]; simpl; [by left|intros ->; by right|].
    intros H. apply (f_equal String.length) in H.
    rewrite !MapperFacts.app_length_string in H. destruct sep; [done|].
    simpl in H. lia.
  - by intros [-> | ->].
Qed.

Lemma join_snoc sep l t :
  l ≠ [] → join sep (l ++ [t]) = join sep l +:+ sep +:+ t.
Proof.
  unfold join. induction l as [|x l IH]; [done|]. intros _.
  destruct l as [|y l]; [done|].
  change (String.concat sep ((x :: y :: l) ++ [t]))
    with (x +:+ sep +:+ String.concat sep ((y :: l) ++ [t])).
  rewrite IH by done.
  change (String.concat sep (x :: y :: l))
    with (x +:+ sep +:+ String.concat sep (y :: l)).
  by rewrite !MapperFacts.app_assoc_string.
Qed.

(** X10. The description of a test is its ancestor titles and its own
    title joined by " > ", except when the ancestors join to the empty
    string: with no ancestor, and also with a single empty ancestor
    title, the description is the title alone. *)
Theorem buildSpecDescription_cases test :
  (ancestorTitles test = [] ∨ ancestorTitles test = [""] →
     buildSpecDescription test = title test)
  ∧ (ancestorTitles test ≠ [] → ancestorTitles test ≠ [""] →
       buildSpecDescription test
       = join " > " (ancestorTitles test ++ [title test])).
Proof.
  unfold buildSpecDescription. cbv zeta. split.
  - intros H. apply (join_empty " > ") in H as ->; done.
  - intros H1 H2. rewrite join_snoc by done.
    destruct (join " > " (ancestorTitles test)) eqn:E; [|done].
    apply join_empty in E as [?|?]; done.
Qed.

Lemma buildSpecDescription_cases_witness :
  buildSpecDescription (a_test "passed" [] [] "C" ["A"; "B"]) = "A > B > C"
  ∧ buildSpecDescription (a_test "passed" [] [] "C" [""]) = "C".
Proof.
  split.
  - apply (proj2 (buildSpecDescription_cases (a_test "passed" [] [] "C" ["A"; "B"])));
      discriminate.
  - apply (proj1 (buildSpecDescription_cases (a_test "passed" [] [] "C" [""]))).
    by right.
Defined.


(** *** Trimming and splitting *)

Lemma trimStart_head s c r : trimStart s = String c r → is_white_space c = false.
Proof.
  induction s as [|a s IH]; simpl; [done|].
  destruct (is_white_space a) eqn:Ha; [done|]. by intros [= <- _].
Qed.

Lemma trimEnd_head s c r : trimEnd s = String c r → ∃ r0, s = String c r0.
Proof.
  destruct s as [|a s]; simpl; [done|].
  destruct (trimEnd s); [destruct (is_white_space a)|]; intros [= <- _]; eauto.
Qed.

Lemma trimEnd_last s : ∀ p c,
  trimEnd s = p +:+ String c "" → is_white_space c = false.
Proof.
  induction s as [|a s IH]; intros p c; simpl.
  - destruct p; done.
  - destruct (trimEnd s) as [|b t] eqn:E.
    + destruct (is_white_space a) eqn:Ha; [destruct p; done|].
      destruct p as [|x p]; simpl; [by intros [= <-]|].
      intros [= _ H]. destruct p; done.
    + destruct p as [|x p]; simpl; [done|].
      intros [= _ H]. by apply (IH p).
Qed.

Lemma chars_trimStart s x : x ∈ chars (trimStart s) → x ∈ chars s.
Proof.
  unfold chars. induction s as [|a s IH]; simpl; [done|].
  destruct (is_white_space a); [|done]. intros H. apply elem_of_cons. auto.
Qed.

Lemma chars_trimEnd s x : x ∈ chars (trimEnd s) → x ∈ chars s.
Proof.
  unfold chars. induction s as [|a s IH]; simpl; [done|].
  destruct (trimEnd s) as [|b t] eqn:E.
  - destruct (is_white_space a); simpl; [intros H; by apply elem_of_nil in H|].
    rewrite !elem_of_cons. intros [->|H]; [by left|by apply elem_of_nil in H].
  - cbn [list_ascii_of_string]. intros [->|H]%elem_of_cons; [set_solver|].
    apply elem_of_cons. right. by apply IH.
Qed.

(** A trimmed text that is not empty has no white space at its ends, and
    only characters of the text it comes from. *)
Lemma trim_clean s :
  trim s ≠ "" →
  (∀ c r, trim s = String c r → is_white_space c = false)
  ∧ (∀ p c, trim s = p +:+ String c "" → is_white_space c = false)
  ∧ (∀ x, x ∈ chars (trim s) → x ∈ chars s).
Proof.
  intros _. unfold trim. split; [|split].
  - intros c r H. apply trimEnd_head in H as [r0 H]. by apply trimStart_head in H.
  - apply trimEnd_last.
  - intros x H. by apply chars_trimStart, chars_trimEnd.
Qed.

Lemma trim_blank s :
  (∀ x, x ∈ chars s → is_white_space x = true) → trim s = "".
Proof.
  unfold trim, chars. induction s as [|a s IH]; simpl; [done|]. intros H.
  rewrite (H a) by set_solver. apply IH. intros x Hx. apply H. set_solver.
Qed.

(** The pieces of a split hold characters of the text, the separator
    excepted. *)
Lemma split_pieces sep s piece x :
  piece ∈ split sep s → x ∈ chars piece → x ∈ chars s ∧ x ≠ sep.
Proof.
  unfold chars. revert piece. induction s as [|a s IH]; intros piece; simpl.
  - intros ->%list_elem_of_singleton H. by apply elem_of_nil in H.
  - destruct (Ascii.eqb_spec a sep) as [->|Ha].
    + rewrite elem_of_cons. intros [->|Hin] Hx; [by apply elem_of_nil in Hx|].
      destruct (IH _ Hin Hx). split; [set_solver|done].
    + pose proof (SuitesFacts.split_nonempty sep s).
      destruct (split sep s) as [|h t] eqn:E; [done|].
      rewrite elem_of_cons. intros [->|Hin] Hx.
      * simpl in Hx. apply elem_of_cons in Hx as [->|Hx]; [split; [set_solver|done]|].
        destruct (IH h ltac:(set_solver) Hx). split; [set_solver|done].
      * destruct (IH piece ltac:(set_solver) Hx). split; [set_solver|done].
Qed.

(** *** Names *)

Lemma bracket_names_clean g name :
  bracket_group g → name ∈ bracket_names_of g → clean_name name.
Proof.
  intros [_ Hg]. unfold bracket_names_of.
  rewrite list_elem_of_In, filter_In, <- list_elem_of_In.
  change (map trim ?l) with (trim <$> l). rewrite list_elem_of_fmap.
  intros [(piece & -> & Hpiece) Htruthy].
  assert (trim piece ≠ "") as Hne by (by destruct (trim piece)).
  destruct (trim_clean piece Hne) as (Hhead & Hlast & Hchars).
  split; [done|]. split; [|done].
  intros x Hx. apply Hchars in Hx.
  destruct (split_pieces _ _ _ _ Hpiece Hx) as [Hxg Hcomma]. split; [done|].
  apply Hg in Hxg. unfold not_close in Hxg. apply negb_true_iff in Hxg.
  by apply Ascii.eqb_neq in Hxg.
Qed.

Lemma tag_word_clean g : tag_word g → clean_name g.
Proof.
  intros [Hne Hg]. split; [done|].
  assert (∀ x, x ∈ chars g → is_white_space x = false
                              ∧ x ≠ ","%char ∧ x ≠ "]"%char) as Hplain.
  { intros x Hx. apply Hg, MapperFacts.tag_char_plain in Hx as (H1 & H2 & H3 & _).
    split; [done|]. split; [by apply Ascii.eqb_neq|].
    unfold not_close in H1. apply negb_true_iff in H1. by apply Ascii.eqb_neq. }
  split; [|split].
  - intros x Hx. apply Hplain in Hx. tauto.
  - intros c r ->. apply (Hplain c). unfold chars. simpl. set_solver.
  - intros p c ->. apply (Hplain c). rewrite MapperFacts.chars_app.
    unfold chars at 2. simpl. set_solver.
Qed.

Lemma candidates_clean str tag :
  tag ∈ extractTagsFromString str →
  tag_id tag = 0%Z ∧ clean_name (tag_name tag).
Proof.
  rewrite MapperFacts.extractTagsFromString_spec.
  change (map candidate ?l) with (candidate <$> l). rewrite list_elem_of_fmap.
  intros (name & -> & Hin). split; [done|]. simpl.
  rewrite !elem_of_app in Hin. destruct Hin as [Hin|[Hin|Hin]].
  - unfold bracket_names in Hin.
    apply list_elem_of_In, in_flat_map in Hin as ([i g] & Hm & Hname).
    apply list_elem_of_In in Hm, Hname.
    destruct (MapperFacts.matchAll_left_to_right bracketPattern_exec bracket_shape
                bracket_group str MapperFacts.bracketPattern_exec_leftmost
                MapperFacts.bracket_shape_nonempty) as (Hocc & _).
    apply Hocc in Hm as [Hg _]. by eapply bracket_names_clean.
  - unfold at_names in Hin. change (map snd ?l) with (snd <$> l) in Hin.
    apply list_elem_of_fmap in Hin as ([i g] & -> & Hm).
    destruct (MapperFacts.matchAll_left_to_right atPattern_exec (sigil_shape "@")
                tag_word str (MapperFacts.sigil_exec_leftmost "@")
                (MapperFacts.sigil_shape_nonempty "@")) as (Hocc & _).
    apply Hocc in Hm as [Hg _]. by apply tag_word_clean.
  - unfold hash_names in Hin. change (map snd ?l) with (snd <$> l) in Hin.
    apply list_elem_of_fmap in Hin as ([i g] & -> & Hm).
    destruct (MapperFacts.matchAll_left_to_right hashPattern_exec (sigil_shape "#")
                tag_word str (MapperFacts.sigil_exec_leftmost "#")
                (MapperFacts.sigil_shape_nonempty "#")) as (Hocc & _).
    apply Hocc in Hm as [Hg _]. by apply tag_word_clean.
Qed.

(** X11. Every candidate the extractor returns has id 0 and a clean
    name: not empty, without comma or closing bracket, and without white
    space at either end. *)
Theorem extractTagsFromString_clean str tag :
  tag ∈ extractTagsFromString str →
  tag_id tag = 0%Z ∧ clean_name (tag_name tag).
Proof. apply candidates_clean. Qed.

Lemma extractTagsFromString_clean_witness :
  clean_name "edge case".
Proof.
  refine (proj2 (extractTagsFromString_clean "handles it [ integration ,  edge case ]"
                   (candidate "edge case") _)).
  vm_compute. set_solver.
Defined.


(** *** Tags of a SpecRun *)

Lemma default_clean : clean_name "default".
Proof.
  apply tag_word_clean. split; [done|]. intros x Hx. vm_compute in Hx.
  repeat (apply elem_of_cons in Hx as [->|Hx]; [reflexivity|]).
  by apply elem_of_nil in Hx.
Qed.

Lemma collected_clean test tag :
  tag ∈ collectTags test → clean_name (tag_name tag).
Proof.
  rewrite MapperFacts.collectTags_spec, elem_of_app.
  intros [H|H]; [by apply candidates_clean in H as [_ ?]|].
  apply list_elem_of_In, in_flat_map in H as (ancestor & _ & H).
  apply list_elem_of_In in H. by apply candidates_clean in H as [_ ?].
Qed.

(** X12. Every mapped SpecRun has at least one tag; the ids of its tags
    are pairwise distinct and lie between 1 and the number of tags plus
    one; every tag name is clean (not empty, no comma, no closing
    bracket, no white space at either end). *)
Theorem spec_tags_invariants test suiteStartTime suiteId specId :
  let tags := spec_tags (mapJestTestToSpecRun test suiteStartTime suiteId specId) in
  tags ≠ []
  ∧ NoDup (map tag_id tags)
  ∧ ∀ tag, tag ∈ tags →
      (1 ≤ tag_id tag ≤ Z.of_nat (length tags) + 1)%Z
      ∧ clean_name (tag_name tag).
Proof.
  simpl. destruct (collectTags test) as [|t l] eqn:Hc.
  - rewrite MapperFacts.extractTagsFromTest_empty by done. split; [done|].
    split; [apply NoDup_singleton|].
    intros tag ->%list_elem_of_singleton. simpl. split; [lia|apply default_clean].
  - assert (collectTags test ≠ []) as Hne by (by rewrite Hc).
    pose proof (MapperFacts.extractTagsFromTest_names test Hne) as Hnames.
    rewrite MapperFacts.extractTagsFromTest_nonempty in * by done.
    destruct (MapperFacts.dedup_foldl (collectTags test)
                {| uniqueTagNames := ∅; uniqueTags := []; tagId := 1 |})
      as [_ Hids].
    simpl in Hids.
    set (tags := uniqueTags (foldl dedup_step
                   {| uniqueTagNames := ∅; uniqueTags := []; tagId := 1 |}
                   (collectTags test))) in *.
    assert (length (keep_first ∅ (map tag_name (collectTags test))) = length tags)
      as Hlen.
    { change (keep_first ∅ ?l) with (first_occurrences l).
      by rewrite <- Hnames, length_map. }
    rewrite Hlen in Hids.
    split; [|split].
    + intros Hnil. rewrite Hnil, Hc in Hnames. simpl in Hnames.
      by rewrite MapperFacts.first_occurrences_head in Hnames.
    + rewrite Hids. apply NoDup_seqZ.
    + intros tag Hin. split.
      * assert (tag_id tag ∈ map tag_id tags) as Hid.
        { change (map ?f ?l) with (f <$> l). apply list_elem_of_fmap. eauto. }
        rewrite Hids in Hid. apply list_elem_of_lookup in Hid as [i Hi].
        apply lookup_seqZ in Hi. lia.
      * assert (tag_name tag ∈ map tag_name tags) as Hn.
        { change (map ?f ?l) with (f <$> l). apply list_elem_of_fmap. eauto. }
        rewrite Hnames in Hn. unfold first_occurrences in Hn.
        apply MapperFacts.keep_first_elem in Hn as [Hn _].
        change (map ?f ?l) with (f <$> l) in Hn.
        apply list_elem_of_fmap in Hn as (cand & -> & Hcand).
        by eapply collected_clean.
Qed.

Lemma spec_tags_invariants_witness :
  (1 ≤ 2 ≤ Z.of_nat 1 + 1)%Z ∧ clean_name "default".
Proof.
  apply (proj2 (proj2 (spec_tags_invariants mockJestTest 1700000000000 1 1))
           {| tag_id := 2; tag_name := "default" |}).
  vm_compute. apply list_elem_of_here.
Defined.

(** *** A bracket group without a name *)

Lemma blank_pieces g piece :
  blank g → piece ∈ split "," g → trim piece = "".
Proof.
  intros Hg Hin. apply trim_blank. intros x Hx.
  destruct (split_pieces _ _ _ _ Hin Hx) as [Hxg Hne].
  destruct (Hg x Hxg); done.
Qed.

Lemma blank_names g : blank g → bracket_names_of g = [].
Proof.
  intros Hg. unfold bracket_names_of.
  assert (∀ piece, piece ∈ split "," g → trim piece = "") as H
    by (intros; by eapply blank_pieces).
  induction (split "," g) as [|p l IH]; simpl; [done|].
  rewrite (H p) by set_solver. simpl. apply IH. intros q Hq. apply H. set_solver.
Qed.

Lemma blank_char x :
  is_white_space x = true ∨ x = ","%char →
  not_close x = true ∧ Ascii.eqb x "@" = false ∧ Ascii.eqb x "#" = false
  ∧ Ascii.eqb x "[" = false.
Proof.
  intros [H| ->]; [|done].
  destruct x as [[] [] [] [] [] [] [] []]; vm_compute in H; try discriminate H; done.
Qed.

(** X13. A bracket group that holds only white space and commas names
    no tag: the extractor returns nothing for it, and a test with such a
    title and no ancestors gets the default tag, like a test without any
    marker. *)
Theorem blank_bracket_group g :
  g ≠ "" → blank g →
  extractTagsFromString (bracket_shape g) = []
  ∧ ∀ test, title test = bracket_shape g → ancestorTitles test = [] →
      extractTagsFromTest test = [ {| tag_id := 2; tag_name := "default" |} ].
Proof.
  intros Hne Hg.
  assert (extractTagsFromString (bracket_shape g) = []) as Hnone.
  { assert (bracketPattern_exec (bracket_shape g)
            = Some {| m_index := 0; m_group := g; m_rest := "" |}) as Hm.
    { unfold bracket_shape. cbn [bracketPattern_exec]. rewrite Ascii.eqb_refl.
      rewrite (MapperFacts.span_run not_close g "]" "");
        [by destruct g | intros x Hx; by apply Hg, blank_char in Hx as [? _] | done]. }
    assert (∀ sigil, sigil = "@"%char ∨ sigil = "#"%char →
              sigil_exec sigil (bracket_shape g) = None) as Hsigil.
    { intros sigil Hs. apply MapperFacts.sigil_exec_absent. intros x.
      unfold bracket_shape, chars. simpl. fold (chars (g +:+ "]")).
      rewrite MapperFacts.chars_app, elem_of_cons, elem_of_app.
      intros [->|[Hx|Hx]].
      - destruct Hs as [-> | ->]; done.
      - apply Hg, blank_char in Hx as (_ & ? & ? & _). destruct Hs as [-> | ->]; done.
      - unfold chars in Hx. simpl in Hx. apply list_elem_of_singleton in Hx as ->.
        destruct Hs as [-> | ->]; done. }
    unfold extractTagsFromString, atPattern_exec, hashPattern_exec.
    rewrite (MapperFacts.while_exec_none (sigil_exec "#")) by auto.
    rewrite (MapperFacts.while_exec_none (sigil_exec "@")) by auto.
    unfold bracket_shape at 1. simpl String.length.
    rewrite MapperFacts.app_length_string. simpl String.length.
    replace (String.length g + 1) with (S (String.length g)) by lia.
    fold (bracket_shape g).
    rewrite (MapperFacts.while_exec_once _ _ _ _ _ _ Hm) by done.
    rewrite MapperFacts.bracket_body_spec. simpl. by rewrite blank_names. }
  split; [done|]. intros test Ht Ha.
  apply MapperFacts.extractTagsFromTest_empty.
  rewrite MapperFacts.collectTags_spec, Ht, Ha, Hnone. done.
Qed.

Lemma blank_bracket_group_witness :
  extractTagsFromString "[ , ]" = [].
Proof.
  apply (proj1 (blank_bracket_group " , " ltac:(discriminate)
                  ltac:(intros x Hx; vm_compute in Hx;
                        repeat (apply elem_of_cons in Hx as [->|Hx];
                                [first [by left | by right]|]);
                        by apply elem_of_nil in Hx))).
Defined.

End TagsFacts.

(** ** Properties of the retry protocol *)

Module RetryFacts.

Import JS Client ClientSpec Transports RetrySpec.

Lemma delays_step retryDelay a k :
  a < k → delays retryDelay a k
          = (retryDelay * Z.of_nat (S a))%Z :: delays retryDelay (S a) k.
Proof.
  intros H. unfold delays. replace (k - a) with (S (k - S a)) by lia. done.
Qed.

Lemma retry_lines_step retries a k :
  a < k → retry_lines retries a k
          = LogRetry (Z.of_nat (S a)) retries :: retry_lines retries (S a) k.
Proof.
  intros H. unfold retry_lines. replace (k - a) with (S (k - S a)) by lia. done.
Qed.

Lemma world_after_none retries retryDelay w a extra :
  world_after retries retryDelay w a a extra
  = {| calls := calls w + extra; sleeps := sleeps w; console := console w |}.
Proof.
  unfold world_after, delays, retry_lines. rewrite Nat.sub_diag. simpl.
  rewrite !app_nil_r. f_equal. lia.
Qed.

Lemma world_after_step retries retryDelay w a k extra :
  a < k →
  world_after retries retryDelay
    (slept (retryDelay * Z.of_nat (S a))
       (printed [LogRetry (Z.of_nat (S a)) retries] (called w))) (S a) k extra
  = world_after retries retryDelay w a k extra.
Proof.
  intros H. unfold world_after. simpl.
  rewrite (delays_step _ a k), (retry_lines_step _ a k) by done.
  rewrite <- !app_assoc. simpl. f_equal. lia.
Qed.

Lemma count_reached_after retries a :
  count_reached (counter_after a) retries = false ↔ a < max_retries retries.
Proof.
  unfold max_retries. destruct a as [|a]; simpl.
  - split; [lia|done].
  - rewrite Z.leb_gt. lia.
Qed.

Lemma default_counter_after a :
  (default 0 (counter_after a) + 1)%Z = Z.of_nat (S a).
Proof. destruct a; simpl; lia. Qed.

(** One retry: an attempt that meets a retryable outcome, while the
    counter allows it, waits and is followed by the next attempt. *)
Lemma httpClient_retry transport retries retryDelay fuel config a w :
  retryable (transport (calls w)) = true →
  a < max_retries retries →
  httpClient (S fuel) transport retries retryDelay (config_after config a) w
  = httpClient fuel transport retries retryDelay (config_after config (S a))
      (slept (retryDelay * Z.of_nat (S a))
         (printed [LogRetry (Z.of_nat (S a)) retries] (called w))).
Proof.
  intros Hr Ha. apply count_reached_after in Ha.
  cbn [httpClient]. unfold attempt.
  destruct (transport (calls w)) as [response|code message]; simpl in Hr.
  - assert (in_range 200 300 (resp_status response) = false) as ->.
    { apply ClientFacts.in_range_true in Hr. apply ClientFacts.in_range_false. lia. }
    unfold retryInterceptor. cbn [err_config config_after retryCount].
    rewrite Ha. unfold should_retry. cbn [err_response]. rewrite Hr.
    cbn [orb cfg_method cfg_url]. by rewrite default_counter_after.
  - unfold retryInterceptor. cbn [err_config config_after retryCount].
    rewrite Ha. unfold should_retry. cbn [err_response cfg_method cfg_url].
    by rewrite default_counter_after.
Qed.

(** The last allowed attempt, or an attempt whose outcome is not
    retryable, ends the request. *)
Lemma httpClient_final transport retries retryDelay fuel config a w :
  retryable (transport (calls w)) = false ∨ max_retries retries ≤ a →
  ∃ p, httpClient (S fuel) transport retries retryDelay (config_after config a) w
       = Some (p, called w)
       ∧ shows p (transport (calls w)).
Proof.
  intros Hcase. cbn [httpClient]. unfold attempt, shows.
  destruct (transport (calls w)) as [response|code message] eqn:Ht; simpl.
  - destruct (in_range 200 300 (resp_status response)) eqn:H2.
    { eexists. split; [reflexivity|]. done. }
    unfold retryInterceptor. cbn [err_config config_after retryCount].
    destruct (count_reached (counter_after a) retries) eqn:Hc.
    { eexists. split; [reflexivity|]. done. }
    apply count_reached_after in Hc.
    destruct Hcase as [Hr|Hr]; [|lia]. simpl in Hr.
    unfold should_retry, code_is. cbn [err_response err_code]. rewrite Hr.
    destruct (in_range 400 500 (resp_status response)); simpl;
      (eexists; split; [reflexivity|]; done).
  - unfold retryInterceptor. cbn [err_config config_after retryCount].
    destruct (count_reached (counter_after a) retries) eqn:Hc.
    { eexists. split; [reflexivity|]. done. }
    apply count_reached_after in Hc.
    destruct Hcase as [Hr|Hr]; [done|lia].
Qed.


(** A request whose attempts meet retryable outcomes until the attempt
    number [m] from here, which is final, makes exactly those attempts. *)
Lemma httpClient_run transport retries retryDelay config m : ∀ a w fuel,
  (∀ j, j < m → retryable (transport (calls w + j)) = true) →
  a + m ≤ max_retries retries →
  retryable (transport (calls w + m)) = false ∨ a + m = max_retries retries →
  m < fuel →
  ∃ p, httpClient fuel transport retries retryDelay (config_after config a) w
       = Some (p, world_after retries retryDelay w a (a + m) 1)
       ∧ shows p (transport (calls w + m)).
Proof.
  induction m as [|m IH]; intros a w fuel Hretry Hmax Hfinal Hfuel;
    (destruct fuel as [|fuel]; [lia|]).
  - rewrite !Nat.add_0_r in *.
    destruct (httpClient_final transport retries retryDelay fuel config a w)
      as (p & Hp & Hshow); [destruct Hfinal; [by left|right; lia]|].
    exists p. rewrite Hp, world_after_none. split; [|done].
    do 2 f_equal. unfold called. f_equal. lia.
  - rewrite httpClient_retry;
      [| by rewrite <- (Nat.add_0_r (calls w)); apply Hretry; lia | lia].
    destruct (IH (S a)
                (slept (retryDelay * Z.of_nat (S a))
                   (printed [LogRetry (Z.of_nat (S a)) retries] (called w)))
                fuel) as (p & Hp & Hshow).
    + intros j Hj. simpl. replace (S (calls w + j)) with (calls w + S j) by lia.
      apply Hretry. lia.
    + lia.
    + simpl. replace (S (calls w + m)) with (calls w + S m) by lia.
      destruct Hfinal; [by left|right; lia].
    + lia.
    + exists p. rewrite Hp. simpl in Hshow.
      replace (S (calls w + m)) with (calls w + S m) in Hshow by lia.
      split; [|done]. do 2 f_equal.
      replace (S a + m) with (a + S m) by lia.
      apply world_after_step. lia.
Qed.

(** Every request ends after some number of retries within the limit,
    each of them caused by a retryable outcome. *)
Lemma httpClient_some_run transport retries retryDelay config n : ∀ a w,
  a + n = max_retries retries →
  ∃ m p, m ≤ n
    ∧ httpClient (S n) transport retries retryDelay (config_after config a) w
      = Some (p, world_after retries retryDelay w a (a + m) 1)
    ∧ shows p (transport (calls w + m))
    ∧ ∀ j, j < m → retryable (transport (calls w + j)) = true.
Proof.
  induction n as [|n IH]; intros a w Ha.
  - destruct (httpClient_run transport retries retryDelay config 0 a w 1)
      as (p & Hp & Hs); [intros; lia|lia|right; lia|lia|].
    exists 0, p. split; [done|]. split; [done|]. split; [done|]. intros; lia.
  - destruct (retryable (transport (calls w))) eqn:Hr.
    + rewrite httpClient_retry by (done || lia).
      destruct (IH (S a)
                  (slept (retryDelay * Z.of_nat (S a))
                     (printed [LogRetry (Z.of_nat (S a)) retries] (called w))))
        as (m & p & Hm & Hp & Hs & Hbefore); [lia|].
      exists (S m), p. split; [lia|]. rewrite Hp. simpl in Hs.
      replace (S (calls w + m)) with (calls w + S m) in Hs by lia.
      split; [|split; [done|]].
      * do 2 f_equal. replace (S a + m) with (a + S m) by lia.
        apply world_after_step. lia.
      * intros [|j] Hj; [by rewrite Nat.add_0_r|].
        specialize (Hbefore j ltac:(lia)). simpl in Hbefore.
        by replace (calls w + S j) with (S (calls w + j)) by lia.
    + destruct (httpClient_run transport retries retryDelay config 0 a w (S (S n)))
        as (p & Hp & Hs);
        [intros; lia | lia | left; by rewrite Nat.add_0_r | lia |].
      exists 0, p. split; [lia|]. split; [done|]. split; [done|]. intros; lia.
Qed.

Lemma fresh_config config :
  retryCount config = None → config_after config 0 = config.
Proof. destruct config; simpl. by intros ->. Qed.

(** X14. However the transport behaves, a request of the client makes at
    most max(retries, 1) + 1 attempts. When it ends after k retries, each
    retry followed a retryable outcome (no response, or a status in
    [500,600)), the delays waited are retryDelay times 1, 2, ..., k in
    that order (linear, not exponential), and one line was logged per
    retry. *)
Theorem request_attempts_and_delays client config fuel w p w' :
  retryCount config = None →
  send fuel client config w = Some (p, w') →
  ∃ k, k ≤ max_retries (client_retries client)
    ∧ calls w' = calls w + k + 1
    ∧ sleeps w'
      = sleeps w ++ map (λ j, (client_retryDelay client * Z.of_nat j)%Z) (seq 1 k)
    ∧ console w'
      = console w
          ++ map (λ j, LogRetry (Z.of_nat j) (client_retries client)) (seq 1 k)
    ∧ (∀ j, j < k → retryable (transport client (calls w + j)) = true)
    ∧ shows p (transport client (calls w + k)).
Proof.
  intros Hfresh Hsend. unfold send in Hsend.
  destruct (httpClient_some_run (transport client) (client_retries client)
              (client_retryDelay client) config
              (max_retries (client_retries client)) 0 w eq_refl)
    as (k & p0 & Hk & Hrun & Hshow & Hbefore).
  rewrite fresh_config in Hrun by done.
  pose proof (ClientFacts.httpClient_fuel_mono _ _ _ _
                (Nat.max fuel (S (max_retries (client_retries client))))
                _ _ _ Hsend ltac:(lia)) as H1.
  pose proof (ClientFacts.httpClient_fuel_mono _ _ _ _
                (Nat.max fuel (S (max_retries (client_retries client))))
                _ _ _ Hrun ltac:(lia)) as H2.
  rewrite H1 in H2. injection H2 as -> ->.
  exists k. split; [done|]. unfold world_after, delays, retry_lines. simpl.
  rewrite Nat.sub_0_r. split; [lia|]. done.
Qed.

Lemma request_attempts_and_delays_witness :
  ∃ k, k ≤ 3
    ∧ ∃ p w', send 9 (createFernClient "test-project" no_options unreachable)
                post_config fresh = Some (p, w')
      ∧ calls w' = k + 1.
Proof.
  destruct (send 9 (createFernClient "test-project" no_options unreachable)
              post_config fresh) as [[p w']|] eqn:E; [|vm_compute in E; discriminate].
  destruct (request_attempts_and_delays
              (createFernClient "test-project" no_options unreachable)
              post_config 9 fresh p w' eq_refl E)
    as (k & Hk & Hc & _).
  exists k. split; [exact Hk|]. exists p, w'. split; [reflexivity|exact Hc].
Defined.


(** A request from a fresh configuration, by the outcome of its attempts. *)
Lemma send_run client config w k fuel :
  retryCount config = None →
  (∀ j, j < k → retryable (transport client (calls w + j)) = true) →
  k ≤ max_retries (client_retries client) →
  retryable (transport client (calls w + k)) = false
  ∨ k = max_retries (client_retries client) →
  k < fuel →
  ∃ p w', send fuel client config w = Some (p, w')
    ∧ shows p (transport client (calls w + k))
    ∧ calls w' = calls w + k + 1
    ∧ sleeps w'
      = sleeps w ++ map (λ j, (client_retryDelay client * Z.of_nat j)%Z) (seq 1 k)
    ∧ console w'
      = console w
          ++ map (λ j, LogRetry (Z.of_nat j) (client_retries client)) (seq 1 k).
Proof.
  intros Hfresh Hbefore Hk Hfinal Hfuel.
  destruct (httpClient_run (transport client) (client_retries client)
              (client_retryDelay client) config k 0 w fuel)
    as (p & Hp & Hshow); [done..|].
  rewrite fresh_config in Hp by done.
  exists p, (world_after (client_retries client) (client_retryDelay client) w 0 k 1).
  split; [exact Hp|]. split; [done|].
  unfold world_after, delays, retry_lines. simpl. rewrite Nat.sub_0_r.
  split; [lia|]. done.
Qed.

Lemma succeeds_not_retryable wire : succeeds wire = true → retryable wire = false.
Proof.
  destruct wire as [response|]; simpl; [|done].
  rewrite ClientFacts.in_range_true, ClientFacts.in_range_false. lia.
Qed.

(** X15. report succeeds after retries: when the first k attempts meet
    retryable outcomes (no response, or a status in [500,600)), k is
    within the retry limit and the next attempt receives a status in
    [200,300), report resolves after exactly k + 1 attempts, having
    waited retryDelay times 1, ..., k. *)
Theorem report_resolves_after_retries client createInput w k fuel :
  (∀ j, j < k → retryable (transport client (calls w + j)) = true) →
  k ≤ max_retries (client_retries client) →
  succeeds (transport client (calls w + k)) = true →
  k < fuel →
  ∃ w', report fuel client createInput w = Some (Resolved (), w')
    ∧ calls w' = calls w + k + 1
    ∧ sleeps w'
      = sleeps w ++ map (λ j, (client_retryDelay client * Z.of_nat j)%Z) (seq 1 k).
Proof.
  intros Hbefore Hk Hok Hfuel.
  destruct (send_run client post_config w k fuel eq_refl Hbefore Hk
              ltac:(left; by apply succeeds_not_retryable) Hfuel)
    as (p & w' & Hsend & Hshow & Hcalls & Hsleeps & _).
  unfold report. rewrite Hsend. destruct p as [response|error].
  - destruct Hshow as [Ht Hs]. rewrite Ht in Hs. simpl in Hs. rewrite Hs.
    eexists. split; [reflexivity|]. done.
  - destruct Hshow as [Hs _]. congruence.
Qed.

Lemma report_resolves_after_retries_witness :
  ∃ w', report 4 (createFernClient "test-project" no_options server_recovers)
          Mapper.run_with_todo fresh = Some (Resolved (), w')
        ∧ calls w' = 2 ∧ sleeps w' = [1000]%Z.
Proof.
  destruct (report_resolves_after_retries
              (createFernClient "test-project" no_options server_recovers)
              Mapper.run_with_todo fresh 1 4)
    as (w' & Hrep & Hc & Hs).
  - intros [|j] Hj; [reflexivity|lia].
  - vm_compute. lia.
  - reflexivity.
  - lia.
  - exists w'. split; [exact Hrep|]. split; [exact Hc|exact Hs].
Defined.

(** X16. A response with a status outside [200,300) and outside
    [500,600) ends report at once, whatever attempt receives it: after k
    retries caused by retryable outcomes, such a response makes report
    reject with an error carrying that response, after exactly k + 1
    attempts and no further delay. *)
Theorem report_rejects_on_terminal_response client createInput w k fuel response :
  (∀ j, j < k → retryable (transport client (calls w + j)) = true) →
  k ≤ max_retries (client_retries client) →
  transport client (calls w + k) = Answer response →
  ¬ (200 ≤ resp_status response < 300)%Z →
  ¬ (500 ≤ resp_status response < 600)%Z →
  k < fuel →
  ∃ error w', report fuel client createInput w = Some (Rejected error, w')
    ∧ err_response error = Some response
    ∧ calls w' = calls w + k + 1
    ∧ sleeps w'
      = sleeps w ++ map (λ j, (client_retryDelay client * Z.of_nat j)%Z) (seq 1 k).
Proof.
  intros Hbefore Hk Ht H2 H5 Hfuel.
  assert (retryable (transport client (calls w + k)) = false) as Hr.
  { rewrite Ht. simpl. apply ClientFacts.in_range_false. lia. }
  destruct (send_run client post_config w k fuel eq_refl Hbefore Hk
              ltac:(by left) Hfuel)
    as (p & w' & Hsend & Hshow & Hcalls & Hsleeps & _).
  unfold report. rewrite Hsend. destruct p as [r|error].
  - destruct Hshow as [Hw Hs]. rewrite Ht in Hs. simpl in Hs.
    apply ClientFacts.in_range_true in Hs. lia.
  - destruct Hshow as (_ & Hresp & _). rewrite Ht in Hresp.
    eexists _, _. split; [reflexivity|]. done.
Qed.

Lemma report_rejects_on_terminal_response_witness :
  ∃ error w', report 4 (createFernClient "test-project" no_options redirected_later)
                Mapper.run_with_todo fresh = Some (Rejected error, w')
              ∧ err_response error = Some (response_of 304)
              ∧ calls w' = 2.
Proof.
  destruct (report_rejects_on_terminal_response
              (createFernClient "test-project" no_options redirected_later)
              Mapper.run_with_todo fresh 1 4 (response_of 304))
    as (error & w' & Hrep & Hr & Hc & _).
  - intros [|j] Hj; [reflexivity|lia].
  - vm_compute. lia.
  - reflexivity.
  - simpl. lia.
  - simpl. lia.
  - lia.
  - exists error, w'. split; [exact Hrep|]. split; [exact Hr|exact Hc].
Defined.

(** X17. report gives up after max(retries, 1) retries: when that many
    attempts plus one all meet retryable outcomes, report rejects with
    the error of the last attempt after exactly max(retries, 1) + 1
    attempts. Since a retry count of 0 is replaced by the default, every
    client retries at least once. *)
Theorem report_gives_up client createInput w fuel :
  let limit := max_retries (client_retries client) in
  (∀ j, j ≤ limit → retryable (transport client (calls w + j)) = true) →
  limit < fuel →
  1 ≤ limit
  ∧ ∃ error w', report fuel client createInput w = Some (Rejected error, w')
      ∧ err_response error
        = match transport client (calls w + limit) with
          | Answer response => Some response
          | Failure _ _ => None
          end
      ∧ calls w' = calls w + limit + 1
      ∧ sleeps w'
        = sleeps w
            ++ map (λ j, (client_retryDelay client * Z.of_nat j)%Z) (seq 1 limit).
Proof.
  cbv zeta. intros Hall Hfuel. split; [unfold max_retries; lia|].
  destruct (send_run client post_config w (max_retries (client_retries client))
              fuel eq_refl)
    as (p & w' & Hsend & Hshow & Hcalls & Hsleeps & _);
    [intros; apply Hall; lia | lia | by right | done |].
  unfold report. rewrite Hsend. destruct p as [r|error].
  - destruct Hshow as [_ Hs]. apply succeeds_not_retryable in Hs.
    rewrite Hall in Hs by lia. done.
  - destruct Hshow as (_ & Hresp & _).
    eexists _, _. split; [reflexivity|]. done.
Qed.

Lemma report_gives_up_witness :
  ∃ error w', report 9 (createFernClient "test-project" no_options unreachable)
                Mapper.run_with_todo fresh = Some (Rejected error, w')
              ∧ err_response error = None
              ∧ calls w' = 4
              ∧ sleeps w' = [1000; 2000; 3000]%Z.
Proof.
  destruct (report_gives_up (createFernClient "test-project" no_options unreachable)
              Mapper.run_with_todo fresh 9)
    as (_ & error & w' & Hrep & Hr & Hc & Hs).
  - intros j _. reflexivity.
  - vm_compute. lia.
  - exists error, w'. split; [exact Hrep|]. split; [exact Hr|].
    split; [exact Hc|exact Hs].
Defined.

(** X18. ping goes through the same retries as report: it returns true
    after k retries when the attempt that follows them receives a status
    in [200,300), and it returns false only after max(retries, 1) + 1
    attempts and all their delays when every attempt meets a retryable
    outcome. *)
Theorem ping_retries client w fuel :
  let limit := max_retries (client_retries client) in
  (∀ k, (∀ j, j < k → retryable (transport client (calls w + j)) = true) →
        k ≤ limit → succeeds (transport client (calls w + k)) = true → k < fuel →
        ∃ w', ping fuel client w = Some (Resolved true, w')
              ∧ calls w' = calls w + k + 1)
  ∧ ((∀ j, j ≤ limit → retryable (transport client (calls w + j)) = true) →
     limit < fuel →
     ∃ w', ping fuel client w = Some (Resolved false, w')
           ∧ calls w' = calls w + limit + 1
           ∧ sleeps w'
             = sleeps w
                 ++ map (λ j, (client_retryDelay client * Z.of_nat j)%Z)
                        (seq 1 limit)).
Proof.
  cbv zeta. split.
  - intros k Hbefore Hk Hok Hfuel.
    destruct (send_run client get_config w k fuel eq_refl Hbefore Hk
                ltac:(left; by apply succeeds_not_retryable) Hfuel)
      as (p & w' & Hsend & Hshow & Hcalls & _).
    unfold ping. rewrite Hsend. destruct p as [response|error].
    + destruct Hshow as [Ht Hs]. rewrite Ht in Hs. simpl in Hs. rewrite Hs. eauto.
    + destruct Hshow as [Hs _]. congruence.
  - intros Hall Hfuel.
    destruct (send_run client get_config w (max_retries (client_retries client))
                fuel eq_refl)
      as (p & w' & Hsend & Hshow & Hcalls & Hsleeps & _);
      [intros; apply Hall; lia | lia | by right | done |].
    unfold ping. rewrite Hsend. destruct p as [r|error].
    + destruct Hshow as [_ Hs]. apply succeeds_not_retryable in Hs.
      rewrite Hall in Hs by lia. done.
    + eexists. split; [reflexivity|]. done.
Qed.

Lemma ping_retries_witness :
  ∃ w', ping 9 (createFernClient "test-project" no_options unreachable) fresh
        = Some (Resolved false, w')
        ∧ calls w' = 4 ∧ sleeps w' = [1000; 2000; 3000]%Z.
Proof.
  destruct (proj2 (ping_retries
                     (createFernClient "test-project" no_options unreachable)
                     fresh 9))
    as (w' & Hping & Hc & Hs).
  - intros j _. reflexivity.
  - vm_compute. lia.
  - exists w'. split; [exact Hping|]. split; [exact Hc|exact Hs].
Defined.



(** A request from a fresh configuration returns when the fuel exceeds
    the retries it can make. *)
Lemma send_settles client config fuel w :
  retryCount config = None →
  max_retries (client_retries client) < fuel →
  ∃ k p w', k ≤ max_retries (client_retries client)
    ∧ send fuel client config w = Some (p, w')
    ∧ calls w' = calls w + k + 1
    ∧ sleeps w'
      = sleeps w ++ map (λ j, (client_retryDelay client * Z.of_nat j)%Z) (seq 1 k)
    ∧ (∀ j, j < k → retryable (transport client (calls w + j)) = true)
    ∧ shows p (transport client (calls w + k)).
Proof.
  intros Hfresh Hfuel.
  destruct (httpClient_some_run (transport client) (client_retries client)
              (client_retryDelay client) config
              (max_retries (client_retries client)) 0 w eq_refl)
    as (k & p & Hk & Hrun & Hshow & Hbefore).
  rewrite fresh_config in Hrun by done.
  apply (ClientFacts.httpClient_fuel_mono _ _ _ _ fuel) in Hrun; [|lia].
  exists k, p. eexists. split; [done|]. split; [exact Hrun|].
  unfold world_after, delays. simpl. rewrite Nat.sub_0_r. split; [lia|]. done.
Qed.

Lemma report_settles client createInput fuel w :
  max_retries (client_retries client) < fuel →
  ∃ k p w', k ≤ max_retries (client_retries client)
    ∧ report fuel client createInput w = Some (p, w')
    ∧ calls w' = calls w + k + 1
    ∧ sleeps w'
      = sleeps w ++ map (λ j, (client_retryDelay client * Z.of_nat j)%Z) (seq 1 k)
    ∧ (∀ j, j < k → retryable (transport client (calls w + j)) = true)
    ∧ match p with
      | Resolved _ => succeeds (transport client (calls w + k)) = true
      | Rejected _ => succeeds (transport client (calls w + k)) = false
      end.
Proof.
  intros Hfuel.
  destruct (send_settles client post_config fuel w eq_refl Hfuel)
    as (k & p & w' & Hk & Hsend & Hcalls & Hsleeps & Hbefore & Hshow).
  unfold report. rewrite Hsend. exists k. destruct p as [response|error].
  - destruct Hshow as [Ht Hs]. pose proof Hs as Hs'. rewrite Ht in Hs'. simpl in Hs'.
    rewrite Hs'. eexists _, _. split; [done|]. split; [reflexivity|]. done.
  - destruct Hshow as [Hs _].
    eexists _, _. split; [done|]. split; [reflexivity|]. done.
Qed.

Lemma ping_settles client fuel w :
  max_retries (client_retries client) < fuel →
  ∃ k w', k ≤ max_retries (client_retries client)
    ∧ ping fuel client w
      = Some (Resolved (succeeds (transport client (calls w + k))), w')
    ∧ calls w' = calls w + k + 1
    ∧ sleeps w'
      = sleeps w ++ map (λ j, (client_retryDelay client * Z.of_nat j)%Z) (seq 1 k)
    ∧ (∀ j, j < k → retryable (transport client (calls w + j)) = true).
Proof.
  intros Hfuel.
  destruct (send_settles client get_config fuel w eq_refl Hfuel)
    as (k & p & w' & Hk & Hsend & Hcalls & Hsleeps & Hbefore & Hshow).
  unfold ping. rewrite Hsend. exists k. destruct p as [response|error].
  - destruct Hshow as [Ht Hs]. rewrite Hs. rewrite Ht in Hs. simpl in Hs.
    rewrite Hs. eexists. split; [done|]. split; [reflexivity|]. done.
  - destruct Hshow as [Hs _]. rewrite Hs.
    eexists. split; [done|]. split; [reflexivity|]. done.
Qed.

End RetryFacts.

(** ** Properties of the git and CI information *)

Module GitFacts.

Import JS Suites Git GitSpec.

#[local] Arguments String.append : simpl nomatch.

Lemma getEnvVar_cases env key :
  (Config.getEnvVar env key None = None
   ∧ env_set env key = false ∧ ∀ fallback, env_or env key fallback = fallback)
  ∨ (∃ v, Config.getEnvVar env key None = Some v ∧ v ≠ ""
          ∧ env_set env key = true ∧ ∀ fallback, env_or env key fallback = v).
Proof.
  unfold env_set, env_or, Config.getEnvVar, Config.or_else.
  destruct (env !! key) as [[|c v]|]; simpl; [by left| |by left].
  right. by exists (String c v).
Qed.

Lemma env_or_nonempty env key fallback :
  fallback ≠ "" → env_or env key fallback ≠ "".
Proof.
  intros Hf. destruct (getEnvVar_cases env key) as [(_ & _ & ->)|(v & _ & Hv & _ & ->)];
    done.
Qed.

(** *** [replace] *)

Lemma prefix_app pattern rest : String.prefix pattern (pattern +:+ rest) = true.
Proof.
  induction pattern as [|c pattern IH]; simpl; [by destruct rest|].
  by destruct (ascii_dec c c).
Qed.

Lemma slice_app pattern rest : slice (String.length pattern) (pattern +:+ rest) = rest.
Proof. induction pattern as [|c pattern IH]; simpl; [by destruct rest|done]. Qed.

Lemma replace_at_start pattern replacement rest :
  replace pattern replacement (pattern +:+ rest) = replacement +:+ rest.
Proof.
  destruct pattern as [|c pattern]; [by destruct rest|].
  cbn [replace String.append].
  change (String c (pattern +:+ rest)) with (String c pattern +:+ rest).
  by rewrite prefix_app, slice_app.
Qed.

Lemma replace_absent pattern replacement str :
  includes pattern str = false → replace pattern replacement str = str.
Proof.
  induction str as [|c str IH]; simpl.
  - by intros ->%orb_false_iff%proj1.
  - intros [-> H]%orb_false_iff. by rewrite IH.
Qed.

Lemma prefix_split pattern : ∀ str,
  String.prefix pattern str = true →
  str = pattern +:+ slice (String.length pattern) str.
Proof.
  induction pattern as [|a pattern IH]; intros str; simpl; [by destruct str|].
  destruct str as [|b str]; [done|]. simpl.
  destruct (ascii_dec a b) as [->|]; [|done]. intros H. f_equal. by apply IH.
Qed.

(** [includes] finds the occurrences of the pattern. *)
Lemma includes_occurs pattern str :
  includes pattern str = true ↔ ∃ before rest, str = before +:+ pattern +:+ rest.
Proof.
  split.
  - induction str as [|c str IH]; cbn [includes].
    + rewrite orb_false_r. intros H%prefix_split. by eexists "", _.
    + intros [H%prefix_split|H]%orb_true_iff; [by eexists "", _|].
      destruct (IH H) as (before & rest & ->). by exists (String c before), rest.
  - intros (before & rest & ->). induction before as [|c before IH].
    + change ("" +:+ pattern +:+ rest) with (pattern +:+ rest).
      destruct (pattern +:+ rest) eqn:E; cbn [includes]; rewrite <- E, prefix_app; done.
    + cbn [String.append includes]. rewrite IH. apply orb_true_r.
Qed.

Lemma digit_first_differs pattern c rest :
  is_digit c = true →
  match pattern with String a _ => is_digit a = false | EmptyString => False end →
  String.prefix pattern (String c rest) = false.
Proof.
  destruct pattern as [|a pattern]; [done|]. simpl. intros Hc Ha.
  destruct (ascii_dec a c) as [->|]; [congruence|done].
Qed.

Lemma replace_digits pattern replacement n rest :
  digits n →
  match pattern with String a _ => is_digit a = false | EmptyString => False end →
  replace pattern replacement (n +:+ rest) = n +:+ replace pattern replacement rest.
Proof.
  intros Hn Hp. induction n as [|c n IH]; [by destruct rest|].
  cbn [String.append replace].
  rewrite digit_first_differs; [|apply Hn; unfold MapperSpec.chars; simpl; set_solver|done].
  f_equal. apply IH. intros x Hx. apply Hn. unfold MapperSpec.chars in *. simpl.
  set_solver.
Qed.

Lemma append_empty s : s +:+ "" = s.
Proof. induction s as [|c s IH]; simpl; [done|by rewrite IH]. Qed.

Lemma truthy_nonempty s : s ≠ "" → truthy s = true.
Proof. by destruct s. Qed.

(** X20. The branch GitHub Actions reports: when GITHUB_SHA is set, a
    GITHUB_REF of the form refs/heads/NAME gives the branch NAME (for a
    NAME that contains neither refs/pull/ nor /merge), a ref of the form
    refs/pull/N/merge with a number N gives pr-N, and a ref in which
    none of the three patterns occurs (a tag ref) is kept whole. *)
Theorem github_branch_from_ref env ref :
  env_set env "GITHUB_SHA" = true →
  env !! "GITHUB_REF" = Some ref →
  (∀ name, ref = "refs/heads/" +:+ name → name ≠ "" →
     includes "refs/pull/" name = false → includes "/merge" name = false →
     branch (getGitInfoFromCI env) = name)
  ∧ (∀ n, ref = "refs/pull/" +:+ n +:+ "/merge" → digits n →
       branch (getGitInfoFromCI env) = "pr-" +:+ n)
  ∧ (ref ≠ "" → includes "refs/heads/" ref = false →
     includes "refs/pull/" ref = false → includes "/merge" ref = false →
     branch (getGitInfoFromCI env) = ref).
Proof.
  intros Hsha Href. unfold getGitInfoFromCI. rewrite Hsha. cbn [branch].
  assert (ref ≠ "" → env_or env "GITHUB_REF" "" = ref) as Hor.
  { intros Hne. unfold env_or, Config.getEnvVar, Config.or_else. rewrite Href.
    by destruct ref. }
  split; [|split].
  - intros name -> Hname Hpull Hmerge. rewrite Hor by done.
    rewrite replace_at_start. cbn [String.append].
    rewrite (replace_absent "refs/pull/") by done.
    rewrite (replace_absent "/merge") by done. by rewrite truthy_nonempty.
  - intros n -> Hn. rewrite Hor by done.
    change ("refs/pull/" +:+ n +:+ "/merge") with
      (String "r" (String "e" (String "f" (String "s" (String "/"
        (String "p" (String "u" (String "l" (String "l" (String "/"
          (n +:+ "/merge"))))))))))).
    cbn [replace String.prefix]. simpl ascii_dec.
    repeat match goal with
           | |- context [ascii_dec ?a ?b] => destruct (ascii_dec a b); [discriminate|]
           end.
    rewrite (replace_digits "refs/heads/") by done.
    change (replace "refs/heads/" "" "/merge") with "/merge".
    change (String "r" (String "e" (String "f" (String "s" (String "/"
        (String "p" (String "u" (String "l" (String "l" (String "/"
          (n +:+ "/merge")))))))))))
      with ("refs/pull/" +:+ (n +:+ "/merge")).
    rewrite replace_at_start.
    change ("pr-" +:+ (n +:+ "/merge"))
      with (String "p" (String "r" (String "-" (n +:+ "/merge")))).
    cbn [replace String.prefix].
    repeat match goal with
           | |- context [ascii_dec ?a ?b] => destruct (ascii_dec a b); [discriminate|]
           end.
    rewrite (replace_digits "/merge") by done.
    change (replace "/merge" "" "/merge") with "".
    by rewrite append_empty.
  - intros Hne H1 H2 H3. rewrite Hor by done.
    rewrite (replace_absent "refs/heads/") by done.
    rewrite (replace_absent "refs/pull/") by done.
    rewrite (replace_absent "/merge") by done. by rewrite truthy_nonempty.
Qed.


Lemma github_branch_from_ref_witness :
  branch (getGitInfoFromCI github_branch_push) = "feature/login"
  ∧ branch (getGitInfoFromCI github_pull_request) = "pr-42".
Proof.
  split.
  - apply (proj1 (github_branch_from_ref github_branch_push
                    "refs/heads/feature/login" ltac:(vm_compute; reflexivity)
                    ltac:(vm_compute; reflexivity)) "feature/login");
      [reflexivity|discriminate|reflexivity|reflexivity].
  - apply (proj1 (proj2 (github_branch_from_ref github_pull_request
                    "refs/pull/42/merge" ltac:(vm_compute; reflexivity)
                    ltac:(vm_compute; reflexivity))) "42"); [reflexivity|].
    intros c Hc. vm_compute in Hc.
    apply list_elem_of_In in Hc. simpl in Hc.
    destruct Hc as [<-|[<-|[]]]; reflexivity.
Defined.

Lemma first_set_cons env key rest :
  first_set env (key :: rest)
  = if env_set env key then Config.getEnvVar env key None else first_set env rest.
Proof.
  simpl. destruct (getEnvVar_cases env key) as [(-> & -> & _)|(v & -> & _ & -> & _)];
    done.
Qed.

Ltac env_case env key :=
  let v := fresh "v" in
  let Hv := fresh "Hv" in
  let Hget := fresh "Hget" in
  let Hset := fresh "Hset" in
  let Hor := fresh "Hor" in
  destruct (getEnvVar_cases env key)
    as [(Hget & Hset & Hor)|(v & Hget & Hv & Hset & Hor)];
  rewrite ?Hset, ?Hor, ?Hget.

(** X21. The commit getGitInfoFromCI reports is the value of the first
    of GITHUB_SHA, CI_COMMIT_SHA, GIT_COMMIT, CIRCLE_SHA1 that is set to
    a non-empty text, and unknown when none is. Branch and commit are
    never empty, no repository path is given, and a branch variable
    whose commit variable is not set is ignored: without a commit the
    branch is unknown. *)
Theorem ci_git_info env :
  let info := getGitInfoFromCI env in
  sha info = default "unknown" (first_set env sha_variables)
  ∧ branch info ≠ "" ∧ sha info ≠ "" ∧ repoPath info = None
  ∧ (first_set env sha_variables = None → branch info = "unknown").
Proof.
  cbv zeta. unfold getGitInfoFromCI, sha_variables. rewrite !first_set_cons.
  env_case env "GITHUB_SHA".
  2:{ cbn [sha branch repoPath default]. split; [done|]. split; [|done].
      match goal with |- context [truthy ?b] => by destruct b end. }
  env_case env "CI_COMMIT_SHA".
  2:{ cbn [sha branch repoPath default]. split; [done|].
      split; [by apply env_or_nonempty|done]. }
  env_case env "GIT_COMMIT".
  2:{ cbn [sha branch repoPath default]. split; [done|].
      split; [by apply env_or_nonempty|done]. }
  env_case env "CIRCLE_SHA1".
  2:{ cbn [sha branch repoPath default]. split; [done|].
      split; [by apply env_or_nonempty|done]. }
  done.
Qed.

Lemma ci_git_info_witness :
  branch (getGitInfoFromCI {[ "GITHUB_REF" := "refs/heads/main" ]}) = "unknown".
Proof.
  apply (proj2 (proj2 (proj2 (proj2
           (ci_git_info {[ "GITHUB_REF" := "refs/heads/main" ]}))))).
  vm_compute. reflexivity.
Defined.


Lemma getGitInfoFromCI_empty : getGitInfoFromCI ∅ = defaultGitInfo.
Proof. reflexivity. Qed.






(** X23. getCIInfo: the actor is never empty and is the value of the
    first of GITHUB_ACTOR, GITLAB_USER_LOGIN, BUILD_USER, CIRCLE_USERNAME
    that is set to a non-empty text. An actor variable alone makes the
    result a CI run, whatever isCI() says; the result is not a CI run
    exactly when no actor variable is set and isCI() is false, and then
    the actor is local-developer, the build URL is empty and no provider
    is named. *)
Theorem ci_info_invariants env :
  let info := getCIInfo env in
  actor info ≠ ""
  ∧ (∀ v, first_set env actor_variables = Some v → actor info = v ∧ isCI info = true)
  ∧ (isCI info = false
     ↔ first_set env actor_variables = None ∧ Config.isCI env = false)
  ∧ (isCI info = false ↔ provider info = None)
  ∧ (isCI info = false → actor info = "local-developer" ∧ buildUrl info = "").
Proof.
  cbv zeta. unfold getCIInfo, actor_variables. rewrite !first_set_cons.
  env_case env "GITHUB_ACTOR".
  2:{ cbn [actor isCI provider buildUrl]. naive_solver. }
  env_case env "GITLAB_USER_LOGIN".
  2:{ cbn [actor isCI provider buildUrl]. naive_solver. }
  env_case env "BUILD_USER".
  2:{ cbn [actor isCI provider buildUrl]. naive_solver. }
  env_case env "CIRCLE_USERNAME".
  2:{ cbn [actor isCI provider buildUrl]. naive_solver. }
  cbn [first_set].
  destruct (Config.isCI env); cbn [negb actor isCI provider buildUrl]; naive_solver.
Qed.

Lemma ci_info_invariants_witness :
  actor (getCIInfo github_pull_request) = "octocat"
  ∧ isCI (getCIInfo github_pull_request) = true.
Proof.
  apply (proj1 (proj2 (ci_info_invariants github_pull_request)) "octocat").
  vm_compute. reflexivity.
Defined.

(** *** [findGitRoot] *)

Lemma findGitRoot_loop_spec existsSync : ∀ p fuel,
  length p < fuel →
  ∃ r, findGitRoot_loop fuel existsSync p = Some r
    ∧ match r with
      | Some root =>
          root ≠ [] ∧ root `prefix_of` p
          ∧ existsSync (path_join root ".git") = true
          ∧ ∀ q, q `prefix_of` p → length root < length q →
                 existsSync (path_join q ".git") = false
      | None =>
          ∀ q, q `prefix_of` p → q ≠ [] → existsSync (path_join q ".git") = false
      end.
Proof.
  induction p as [|x p IH] using rev_ind; intros fuel Hfuel.
  - destruct fuel as [|fuel]; [simpl in Hfuel; lia|]. exists None. split; [done|].
    intros q Hq%prefix_nil_inv. done.
  - destruct fuel as [|fuel]; [lia|]. rewrite length_app in Hfuel. simpl in Hfuel.
    assert (findGitRoot_loop (S fuel) existsSync (p ++ [x])
            = if existsSync (path_join (p ++ [x]) ".git") then Some (Some (p ++ [x]))
              else findGitRoot_loop fuel existsSync p) as ->.
    { cbn [findGitRoot_loop]. unfold dirname. rewrite removelast_last.
      by destruct p. }
    assert (∀ q, q `prefix_of` p ++ [x] → q = p ++ [x] ∨ q `prefix_of` p) as Hpre.
    { intros q [k Hk]. destruct k as [|y k _] using rev_ind.
      - left. by rewrite app_nil_r in Hk.
      - right. rewrite app_assoc in Hk. apply app_inj_tail in Hk as [-> _].
        by exists k. }
    destruct (existsSync (path_join (p ++ [x]) ".git")) eqn:Hex.
    + exists (Some (p ++ [x])). split; [done|].
      split; [by destruct p|]. split; [done|]. split; [done|].
      intros q Hq Hlen. apply prefix_length in Hq. lia.
    + destruct (IH fuel ltac:(lia)) as (r & -> & Hr). exists r. split; [done|].
      destruct r as [root|].
      * destruct Hr as (Hne & Hroot & Hgit & Hnear).
        split; [done|]. split; [by apply prefix_app_r|]. split; [done|].
        intros q [-> | Hq]%Hpre Hlen; [done|by apply Hnear].
      * intros q [-> | Hq]%Hpre Hne; [done|by apply Hr].
Qed.

(** X24. findGitRoot always returns. It returns the nearest ancestor of
    the search path (the path itself included) that contains .git, the
    root directory excepted, which is never looked at; it returns null
    exactly when no directory from the search path up to, but not
    including, the root contains .git. *)
Theorem findGitRoot_nearest existsSync resolved :
  ∃ r, findGitRoot existsSync resolved = Some r
    ∧ match r with
      | Some root =>
          root ≠ [] ∧ root `prefix_of` resolved
          ∧ existsSync (path_join root ".git") = true
          ∧ ∀ q, q `prefix_of` resolved → length root < length q →
                 existsSync (path_join q ".git") = false
      | None =>
          ∀ q, q `prefix_of` resolved → q ≠ [] →
               existsSync (path_join q ".git") = false
      end.
Proof. apply findGitRoot_loop_spec. lia. Qed.

End GitFacts.

(** ** Properties of the reporter *)

Module ReporterFacts.

Import JS Mapper Client Suites RetrySpec Reporter.

Lemma or_string_nonempty a b : b ≠ "" → or_string a b ≠ "".
Proof. intros Hb. destruct a as [[|c v]|]; done. Qed.

Lemma getEnvVar_value env key v :
  Config.getEnvVar env key None = Some v ↔ env !! key = Some v ∧ v ≠ "".
Proof.
  unfold Config.getEnvVar, Config.or_else.
  destruct (env !! key) as [[|c x]|]; simpl; naive_solver.
Qed.

Lemma enabled_new env options transport :
  enabled (new_FernReporter env options transport).1 = false
  ↔ options_enabled options = Some false ∨ env !! "FERN_ENABLED" = Some "false".
Proof.
  unfold new_FernReporter. cbv zeta.
  match goal with |- context [if negb ?b then _ else _] =>
    destruct b eqn:Hb; cbn [negb fst enabled]
  end.
  - apply andb_true_iff in Hb as [H1 H2].
    apply negb_true_iff, bool_decide_eq_false in H1.
    apply negb_true_iff, bool_decide_eq_false in H2.
    rewrite getEnvVar_value in H2. naive_solver.
  - apply andb_false_iff in Hb as [H|H];
      apply negb_false_iff, bool_decide_eq_true in H.
    + naive_solver.
    + apply getEnvVar_value in H. naive_solver.
Qed.

Lemma client_new env options transport :
  let reporter := (new_FernReporter env options transport).1 in
  if enabled reporter then
    ∃ c, client reporter = Some c
      ∧ projectId c = reporter_projectId reporter
      ∧ baseUrl c ≠ ""
      ∧ client_retries c = 3%Z ∧ client_retryDelay c = 1000%Z
      ∧ Client.transport c = transport
  else client reporter = None.
Proof.
  cbv zeta. unfold new_FernReporter. cbv zeta.
  match goal with |- context [if negb ?b then _ else _] =>
    destruct b eqn:Hb; cbn [negb fst enabled client]; rewrite ?Hb
  end; [|done].
  eexists. split; [reflexivity|]. cbn. split; [done|].
  split; [|done]. by apply or_string_nonempty.
Qed.



(** X26. A disabled reporter does nothing: when the option enabled is
    false or FERN_ENABLED is the text false, onRunComplete resolves and
    testConnection returns false without an HTTP attempt, a delay or a
    line on the console, whatever the results and the environment of the
    call. *)
Theorem disabled_reporter_is_silent fuel clock hrtime seed_number readings
    env options transport env' repo results host :
  options_enabled options = Some false ∨ env !! "FERN_ENABLED" = Some "false" →
  let reporter := (new_FernReporter env options transport).1 in
  onRunComplete fuel clock hrtime seed_number readings env' repo reporter results host
  = Some (Fulfilled (), host)
  ∧ testConnection fuel reporter host = Some (false, host).
Proof.
  intros Hoff. apply (enabled_new env options transport) in Hoff.
  cbv zeta. unfold onRunComplete, testConnection. by rewrite Hoff.
Qed.

Lemma disabled_reporter_is_silent_witness :
  onRunComplete 0 ticking 0 exact_seed 0 strict Git.checkout
    (new_FernReporter ∅ switched_off unreachable).1 mockAggregatedResult quiet
  = Some (Fulfilled (), quiet)
  ∧ testConnection 0 (new_FernReporter ∅ switched_off unreachable).1 quiet
    = Some (false, quiet).
Proof.
  apply (disabled_reporter_is_silent 0 ticking 0 exact_seed 0 ∅ switched_off
           unreachable strict Git.checkout mockAggregatedResult quiet).
  left. reflexivity.
Defined.

(** What [onRunComplete] of a reporter with a client does, by the
    outcome of the mapping and of the request. *)
Lemma onRunComplete_enabled fuel clock hrtime seed_number readings env repo
    reporter results host c :
  enabled reporter = true →
  client reporter = Some c →
  max_retries (client_retries c) < fuel →
  let collected :=
    say (map WarnGit (Git.getGitInfo env repo).2) (say [LogCollecting] host) in
  match mapJestResultsToTestRun clock hrtime seed_number results
          (reporter_projectId reporter) (reporter_projectName reporter)
          (Git.getGitInfo env repo).1 (Git.getCIInfo env) readings with
  | None =>
      onRunComplete fuel clock hrtime seed_number readings env repo reporter
        results host
      = Some (not_sent env RangeError collected)
  | Some (testRun, _) =>
      ∃ k lines,
        k ≤ max_retries (client_retries c)
        ∧ (∀ j, j < k → retryable (transport c (attempts host + j)) = true)
        ∧ let sent :=
            {| attempts := attempts host + k + 1;
               waited := waited host
                 ++ map (λ j, (client_retryDelay c * Z.of_nat j)%Z) (seq 1 k);
               output := output collected
                 ++ [LogSummary (generateTestSummary testRun); LogSending]
                 ++ lines |} in
          if succeeds (transport c (attempts host + k)) then
            onRunComplete fuel clock hrtime seed_number readings env repo reporter
              results host
            = Some (Fulfilled (), say [LogSent] sent)
          else
            ∃ error,
              onRunComplete fuel clock hrtime seed_number readings env repo
                reporter results host
              = Some (not_sent env (RequestError error) sent)
  end.
Proof.
  intros Hen Hc Hfuel. cbv zeta. unfold onRunComplete. rewrite Hen, Hc. cbn [negb].
  destruct (Git.getGitInfo env repo) as [gitInfo warnings]. cbn [fst snd].
  destruct (mapJestResultsToTestRun _ _ _ _ _ _ _ _ _) as [[testRun n]|]; [|done].
  set (host1 := say [LogSending] _).
  destruct (RetryFacts.report_settles c (mapTestRunToCreateInput testRun) fuel
              {| calls := attempts host1; sleeps := waited host1; console := [] |}
              Hfuel)
    as (k & p & w' & Hk & Hrep & Hcalls & Hsleeps & Hbefore & Hp).
  unfold in_host. rewrite Hrep. cbn [calls sleeps] in *.
  exists k, (map FromClient (console w')). split; [done|]. split; [done|].
  cbv zeta. subst host1. cbn [attempts waited output say] in *.
  rewrite Hcalls, Hsleeps. rewrite <- !app_assoc. cbn [app].
  destruct p as [[]|error]; rewrite Hp; [done|by exists error].
Qed.

(** X27. Unless FERN_FAIL_ON_ERROR is the text true, onRunComplete never
    rejects: whatever the results, the repository and the backend, the
    reporter built by the constructor resolves, after at most four HTTP
    attempts, and only adds lines to the console. *)
Theorem onRunComplete_never_fails fuel clock hrtime seed_number readings
    env options transport env' repo results host :
  env' !! "FERN_FAIL_ON_ERROR" ≠ Some "true" →
  4 ≤ fuel →
  let reporter := (new_FernReporter env options transport).1 in
  ∃ host',
    onRunComplete fuel clock hrtime seed_number readings env' repo reporter
      results host
    = Some (Fulfilled (), host')
    ∧ attempts host ≤ attempts host' ≤ attempts host + 4
    ∧ output host `prefix_of` output host'.
Proof.
  intros Hlenient Hfuel. cbv zeta.
  assert (∀ error h, not_sent env' error h = (Fulfilled (), say [ErrorNotSent error] h))
    as Hnot.
  { intros error h. unfold not_sent. by rewrite bool_decide_eq_false_2. }
  pose proof (client_new env options transport) as Hclient. cbv zeta in Hclient.
  destruct (enabled (new_FernReporter env options transport).1) eqn:Hen.
  2:{ exists host. unfold onRunComplete. rewrite Hen. split; [done|].
      split; [lia|done]. }
  destruct Hclient as (c & Hc & _ & _ & Hretries & _).
  pose proof (onRunComplete_enabled fuel clock hrtime seed_number readings env' repo
                _ results host c Hen Hc) as Hrun.
  rewrite Hretries in Hrun. specialize (Hrun ltac:(vm_compute; lia)).
  cbv zeta in Hrun.
  destruct (mapJestResultsToTestRun _ _ _ _ _ _ _ _ _) as [[testRun n]|].
  - destruct Hrun as (k & lines & Hk & _ & Hrun).
    assert (k ≤ 3) as Hk3 by (revert Hk; vm_compute; lia).
    destruct (succeeds _).
    + eexists. split; [exact Hrun|]. cbn [attempts output say]. split; [lia|].
      rewrite <- !app_assoc. by apply prefix_app_r.
    + destruct Hrun as (error & Hrun). rewrite Hnot in Hrun.
      eexists. split; [exact Hrun|]. cbn [attempts output say]. split; [lia|].
      rewrite <- !app_assoc. by apply prefix_app_r.
  - rewrite Hnot in Hrun. eexists. split; [exact Hrun|].
    cbn [attempts output say]. split; [lia|].
    rewrite <- !app_assoc. by apply prefix_app_r.
Qed.

Lemma onRunComplete_never_fails_witness :
  ∃ host',
    onRunComplete 4 ticking 0 exact_seed 0 ∅ Git.checkout
      (new_FernReporter ∅ (only_project "test-project") unreachable).1
      mockAggregatedResult quiet
    = Some (Fulfilled (), host')
    ∧ attempts quiet ≤ attempts host' ≤ attempts quiet + 4
    ∧ output quiet `prefix_of` output host'.
Proof.
  apply (onRunComplete_never_fails 4 ticking 0 exact_seed 0 ∅
           (only_project "test-project") unreachable ∅ Git.checkout
           mockAggregatedResult quiet).
  - vm_compute. discriminate.
  - lia.
Defined.

(** X28. A date out of range stops the report before anything is sent:
    when the mapping of the results throws, an enabled reporter makes no
    HTTP attempt and prints the error; it then rejects with that error
    if FERN_FAIL_ON_ERROR is the text true and resolves otherwise. *)
Theorem mapping_failure_sends_nothing fuel clock hrtime seed_number readings
    env repo reporter results host :
  enabled reporter = true →
  mapJestResultsToTestRun clock hrtime seed_number results
    (reporter_projectId reporter) (reporter_projectName reporter)
    (Git.getGitInfo env repo).1 (Git.getCIInfo env) readings = None →
  ∃ host',
    onRunComplete fuel clock hrtime seed_number readings env repo reporter
      results host
    = Some (if bool_decide (env !! "FERN_FAIL_ON_ERROR" = Some "true")
            then RejectedWith RangeError else Fulfilled (), host')
    ∧ attempts host' = attempts host ∧ waited host' = waited host
    ∧ last (output host') = Some (ErrorNotSent RangeError).
Proof.
  intros Hen Hmap. unfold onRunComplete. rewrite Hen. cbn [negb].
  destruct (Git.getGitInfo env repo) as [gitInfo warnings]. cbn [fst] in Hmap.
  rewrite Hmap. unfold not_sent.
  destruct (bool_decide _); eexists; (split; [reflexivity|]);
    cbn [attempts waited output say]; by rewrite last_snoc.
Qed.

Lemma mapping_failure_sends_nothing_witness :
  ∃ host',
    onRunComplete 4 ticking 0 exact_seed 0 strict Git.checkout
      (new_FernReporter ∅ (only_project "test-project") unreachable).1
      results_out_of_range quiet
    = Some (RejectedWith RangeError, host')
    ∧ attempts host' = 0.
Proof.
  destruct (mapping_failure_sends_nothing 4 ticking 0 exact_seed 0 strict
              Git.checkout
              (new_FernReporter ∅ (only_project "test-project") unreachable).1
              results_out_of_range quiet)
    as (host' & Hrun & Ha & _).
  - reflexivity.
  - vm_compute. reflexivity.
  - exists host'. split; [exact Hrun|exact Ha].
Defined.

(** X29. Delivery by the reporter built by the constructor, when the
    results map to a test run: the report is sent with at most three
    retries, after the delays 1000, 2000, ... ms. The reporter prints
    the success line and resolves exactly when the attempt that ends the
    request received a status in [200,300); otherwise it prints the
    error, and rejects with it only if FERN_FAIL_ON_ERROR is the text
    true. *)
Theorem reporter_delivery fuel clock hrtime seed_number readings
    env options transport env' repo results host testRun n :
  let reporter := (new_FernReporter env options transport).1 in
  enabled reporter = true →
  mapJestResultsToTestRun clock hrtime seed_number results
    (reporter_projectId reporter) (reporter_projectName reporter)
    (Git.getGitInfo env' repo).1 (Git.getCIInfo env') readings
  = Some (testRun, n) →
  4 ≤ fuel →
  ∃ k outcome host',
    k ≤ 3
    ∧ onRunComplete fuel clock hrtime seed_number readings env' repo reporter
        results host
      = Some (outcome, host')
    ∧ (∀ j, j < k → retryable (transport (attempts host + j)) = true)
    ∧ attempts host' = attempts host + k + 1
    ∧ waited host'
      = waited host ++ map (λ j, (1000 * Z.of_nat j)%Z) (seq 1 k)
    ∧ if succeeds (transport (attempts host + k)) then
        outcome = Fulfilled () ∧ last (output host') = Some LogSent
      else
        ∃ error,
          last (output host') = Some (ErrorNotSent (RequestError error))
          ∧ outcome
            = if bool_decide (env' !! "FERN_FAIL_ON_ERROR" = Some "true")
              then RejectedWith (RequestError error) else Fulfilled ().
Proof.
  cbv zeta. intros Hen Hmap Hfuel.
  pose proof (client_new env options transport) as Hclient. cbv zeta in Hclient.
  rewrite Hen in Hclient.
  destruct Hclient as (c & Hc & _ & _ & Hretries & Hdelay & Htransport).
  pose proof (onRunComplete_enabled fuel clock hrtime seed_number readings env' repo
                _ results host c Hen Hc) as Hrun.
  rewrite Hretries in Hrun. specialize (Hrun ltac:(vm_compute; lia)).
  cbv zeta in Hrun. rewrite Hmap, Hdelay, Htransport in Hrun.
  destruct Hrun as (k & lines & Hk & Hbefore & Hrun).
  assert (k ≤ 3) as Hk3 by (revert Hk; vm_compute; lia).
  exists k. destruct (succeeds (transport (attempts host + k))).
  - eexists _, _. split; [done|]. split; [exact Hrun|]. split; [done|].
    cbn [attempts waited output say]. split; [done|]. split; [done|].
    split; [done|]. by rewrite last_snoc.
  - destruct Hrun as (error & Hrun). unfold not_sent in Hrun.
    destruct (bool_decide _); eexists _, _;
      (split; [done|]; split; [exact Hrun|]; split; [done|]);
      cbn [attempts waited output say]; (split; [done|]; split; [done|]);
      exists error; by rewrite last_snoc.
Qed.

Lemma reporter_delivery_witness :
  ∃ k outcome host',
    k ≤ 3
    ∧ onRunComplete 4 ticking 0 exact_seed 0 strict Git.checkout
        (new_FernReporter ∅ (only_project "test-project")
           Transports.server_recovers).1
        mockAggregatedResult quiet
      = Some (outcome, host')
    ∧ attempts host' = k + 1.
Proof.
  destruct (mapJestResultsToTestRun ticking 0 exact_seed mockAggregatedResult
              "test-project" "test-project" (Git.getGitInfo strict Git.checkout).1
              (Git.getCIInfo strict) 0) as [[testRun n]|] eqn:E;
    [|vm_compute in E; discriminate].
  assert (enabled (new_FernReporter ∅ (only_project "test-project")
                     Transports.server_recovers).1 = true) as Hen
    by (vm_compute; reflexivity).
  destruct (reporter_delivery 4 ticking 0 exact_seed 0 ∅
              (only_project "test-project") Transports.server_recovers strict
              Git.checkout mockAggregatedResult quiet testRun n Hen E
              ltac:(lia))
    as (k & outcome & host' & Hk & Hrun & _ & Ha & _).
  exists k, outcome, host'. split; [exact Hk|]. split; [exact Hrun|exact Ha].
Defined.

(** X30. testConnection of the reporter built by the constructor always
    returns, after at most four HTTP attempts; it returns true, and
    prints the success line, exactly when the attempt that ends the
    health check received a status in [200,300). *)
Theorem testConnection_result fuel env options transport host :
  let reporter := (new_FernReporter env options transport).1 in
  enabled reporter = true →
  4 ≤ fuel →
  ∃ k host',
    k ≤ 3
    ∧ testConnection fuel reporter host
      = Some (succeeds (transport (attempts host + k)), host')
    ∧ (∀ j, j < k → retryable (transport (attempts host + j)) = true)
    ∧ attempts host' = attempts host + k + 1
    ∧ last (output host')
      = Some (if succeeds (transport (attempts host + k))
              then LogConnected else WarnNotResponding).
Proof.
  cbv zeta. intros Hen Hfuel.
  pose proof (client_new env options transport) as Hclient. cbv zeta in Hclient.
  rewrite Hen in Hclient.
  destruct Hclient as (c & Hc & _ & _ & Hretries & Hdelay & Htransport).
  unfold testConnection. rewrite Hen, Hc. cbn [negb].
  destruct (RetryFacts.ping_settles c fuel
              {| calls := attempts host; sleeps := waited host; console := [] |})
    as (k & w' & Hk & Hping & Hcalls & _ & Hbefore).
  { rewrite Hretries. vm_compute. lia. }
  rewrite Hretries in Hk. assert (k ≤ 3) as Hk3 by (revert Hk; vm_compute; lia).
  unfold in_host. rewrite Hping. cbn [calls] in *. rewrite Htransport in *.
  exists k. eexists. split; [done|]. split; [reflexivity|]. split; [done|].
  cbn [attempts output say]. split; [done|]. by rewrite last_snoc.
Qed.

Lemma testConnection_result_witness :
  ∃ k host',
    k ≤ 3
    ∧ testConnection 4
        (new_FernReporter ∅ (only_project "test-project") unreachable).1 quiet
      = Some (succeeds (unreachable (attempts quiet + k)), host')
    ∧ attempts host' = attempts quiet + k + 1.
Proof.
  assert (enabled (new_FernReporter ∅ (only_project "test-project")
                     unreachable).1 = true) as Hen
    by (vm_compute; reflexivity).
  destruct (testConnection_result 4 ∅ (only_project "test-project") unreachable
              quiet Hen ltac:(lia))
    as (k & host' & Hk & Hrun & _ & Ha & _).
  exists k, host'. split; [exact Hk|]. split; [exact Hrun|exact Ha].
Defined.

End ReporterFacts.
